(** * Open Australian Legal Corpus Creator: the fetch/retry engine in Rocq

    A shallow embedding of [oalc_creator/helpers.py], [oalc_creator/scraper.py]
    and of the gate handling and index parsing of three source scrapers
    ([federal_register_of_legislation.py], [high_court_of_australia.py],
    [western_australian_legislation.py]), with the properties the
    specification states about them.

    Conventions.
    - A Python [str] is a list of Unicode code points ([list N]).
    - Seconds, doubles in the code, are exact rationals ([Q]) here; what
      depends on the rounding of their sums is stated with a margin.  The
      division of integers that counts pages is the rounded one of the code.
    - An [async def] is a function that threads an explicit world: the
      scripted behaviour of the outside (transport, source parser, random
      source) and the log of effects performed so far. *)

From Stdlib Require Import DecimalString String Strings.Byte Bool Arith ZArith NArith QArith Qminmax Qpower Lia Lqa List.
From Equations Require Import Equations.
Import ListNotations.

Set Implicit Arguments.
Close Scope Q_scope.

(** Matching on a computed value while remembering the equation (used by the
    definitions with well-founded recursion). *)
Definition inspect {A : Type} (a : A) : {b : A | a = b} := exist _ a eq_refl.

(* ===================================================================== *)
(** * Part I. Definitions                                                  *)
(* ===================================================================== *)

(** ** Python exceptions *)

(** The exception classes that appear in the modelled code, with the base
    classes they have in CPython 3.11+ and aiohttp 3.  (The three library
    errors at the end derive from [Exception] through classes of their
    libraries that the code never names.) *)
Inductive exc_class : Type :=
| BaseException_
| Exception_
| ValueError
| TypeError
| OSError
| FileNotFoundError
| IsADirectoryError
| PermissionError
| TimeoutError              (* asyncio.TimeoutError is builtins.TimeoutError *)
| ClientError
| ClientResponseError
| ContentTypeError          (* a subclass of ClientResponseError *)
| ClientConnectionError
| ClientOSError
| ClientConnectorError
| ServerConnectionError
| ServerDisconnectedError
| ClientPayloadError
| ParseError                (* scraper.py, line 217: class ParseError(ValueError) *)
| KeyError
| AttributeError
| ArithmeticError
| ZeroDivisionError
| OverflowError
| BadZipFile                (* zipfile.BadZipFile *)
| ParserError               (* lxml.etree.ParserError *)
| PdfiumError               (* pypdfium2.PdfiumError *)
| CancelledError.           (* derives from BaseException, not Exception *)

Definition exc_class_eqb (a b : exc_class) : bool :=
  match a, b with
  | BaseException_, BaseException_ | Exception_, Exception_
  | ValueError, ValueError | TypeError, TypeError | OSError, OSError
  | FileNotFoundError, FileNotFoundError | TimeoutError, TimeoutError
  | IsADirectoryError, IsADirectoryError | PermissionError, PermissionError
  | ClientError, ClientError | ClientResponseError, ClientResponseError
  | ContentTypeError, ContentTypeError
  | ClientConnectionError, ClientConnectionError
  | ClientOSError, ClientOSError | ClientConnectorError, ClientConnectorError
  | ServerConnectionError, ServerConnectionError
  | ServerDisconnectedError, ServerDisconnectedError
  | ClientPayloadError, ClientPayloadError | ParseError, ParseError
  | KeyError, KeyError | AttributeError, AttributeError
  | ArithmeticError, ArithmeticError | ZeroDivisionError, ZeroDivisionError
  | OverflowError, OverflowError
  | BadZipFile, BadZipFile | ParserError, ParserError | PdfiumError, PdfiumError
  | CancelledError, CancelledError => true
  | _, _ => false
  end.

(** [c.__bases__]: the direct base classes (none for the root; aiohttp's
    [ClientOSError] has two). *)
Definition bases (c : exc_class) : list exc_class :=
  match c with
  | BaseException_ => []
  | Exception_ => [BaseException_]
  | CancelledError => [BaseException_]
  | ValueError | TypeError | OSError | ClientError | KeyError | AttributeError
  | ArithmeticError | BadZipFile | ParserError | PdfiumError => [Exception_]
  | ZeroDivisionError | OverflowError => [ArithmeticError]
  | FileNotFoundError | IsADirectoryError | PermissionError | TimeoutError => [OSError]
  | ParseError => [ValueError]
  | ClientResponseError | ClientConnectionError | ClientPayloadError => [ClientError]
  | ContentTypeError => [ClientResponseError]
  | ClientOSError => [ClientConnectionError; OSError]
  | ServerConnectionError => [ClientConnectionError]
  | ClientConnectorError => [ClientOSError]
  | ServerDisconnectedError => [ServerConnectionError]
  end.

(** [issubclass c d]: [d] is [c] or one of its ancestors.  The hierarchy has
    depth 6, which bounds the walk. *)
Fixpoint issubclass_fuel (fuel : nat) (c d : exc_class) : bool :=
  exc_class_eqb c d ||
  match fuel with
  | O => false
  | S fuel' => existsb (fun b => issubclass_fuel fuel' b d) (bases c)
  end.

Definition issubclass (c d : exc_class) : bool := issubclass_fuel 6 c d.

(** A raised exception: its class, the HTTP status it carries (only a
    [ClientResponseError] has one) and its message. *)
Record exn : Type := mk_exn {
  exn_class : exc_class;
  exn_status : option Z;
  exn_message : string
}.

(** [except classes as e]: the handler is entered when the exception is an
    instance of one of the listed classes. *)
Definition isinstance (e : exn) (classes : list exc_class) : bool :=
  existsb (issubclass (exn_class e)) classes.

(* --------------------------------------------------------------------- *)
(** ** helpers.py *)

Module Helpers.

(** [sys.maxsize] of a 64-bit build of CPython: the largest index. *)
Definition sys_maxsize : Z := 9223372036854775807.

Section BatchGenerator.
Context {A : Type}.

(** [itertools.islice(iterator, stop)]: a [stop] that is no index (below 0
    or above [sys.maxsize]) raises [ValueError]; the message is the first one
    when [stop] is -1 or does not fit a machine word, the second one
    otherwise.  For an index, up to [stop] items are taken from the iterator,
    which is advanced past them.  Returns the items and the rest. *)
Definition islice (iterator : list A) (stop : Z) : exn + (list A * list A) :=
  if ((stop =? -1) || (stop <? - sys_maxsize - 1) || (sys_maxsize <? stop))%Z
  then inl (mk_exn ValueError None "Stop argument for islice() must be None or an integer: 0 <= x <= sys.maxsize.")
  else if (stop <? 0)%Z
  then inl (mk_exn ValueError None "Indices for islice() must be None or an integer: 0 <= x <= sys.maxsize.")
  else inr (firstn (Z.to_nat stop) iterator, skipn (Z.to_nat stop) iterator).

(** helpers.py, lines 137-143.  The generator is run to exhaustion: the
    result is the list of batches yielded and, when the generator stopped
    on an exception, that exception. *)
Equations? batch_generator (iterable : list A) (batch_size : Z)
  : list (list A) * option exn by wf (length iterable) lt :=
  batch_generator [] _ := ([], None);
  batch_generator (first :: iterator) batch_size
    with inspect (islice iterator (batch_size - 1)) => {
    | exist _ (inl e) _ := ([], Some e);
    | exist _ (inr p) Hs :=
        let r := batch_generator (snd p) batch_size in
        ((first :: fst p) :: fst r, snd r) }.
Proof.
  unfold islice in Hs. destruct (_ || _ || _)%bool; [discriminate|].
  destruct (batch_size - 1 <? 0)%Z; [discriminate|].
  injection Hs as _ <-. rewrite length_skipn. lia.
Qed.

End BatchGenerator.

(** *** Text and the regular expressions of [clean_text] *)

Local Open Scope N_scope.

(** A Python [str]: a sequence of Unicode code points. *)
Definition char : Type := N.
Definition str : Type := list char.

Definition NL : char := 10.      (* '\n' *)
Definition SPACE : char := 32.   (* ' ' *)
Definition NBSP : char := 160.   (* '\xa0' *)
Definition BEL : char := 7.      (* '\a' *)
Definition BS : char := 8.       (* '\b' *)
Definition VT : char := 11.      (* '\v' *)
Definition FF : char := 12.      (* '\f' *)
Definition CR : char := 13.      (* '\r' *)

(** What [\s] matches in a [str] pattern: the code points for which
    [str.isspace()] holds. *)
Definition is_space (c : char) : bool :=
  ((9 <=? c) && (c <=? 13)) || ((28 <=? c) && (c <=? 32)) ||
  (c =? 133) || (c =? 160) || (c =? 5760) ||
  ((8192 <=? c) && (c <=? 8202)) || (c =? 8232) || (c =? 8233) ||
  (c =? 8239) || (c =? 8287) || (c =? 12288).

(** The fragment of [re] syntax the module uses: character classes, greedy
    [*] and [+] over a class, and the anchors [^] and [$] (no MULTILINE). *)
Inductive cls : Type :=
| CLit (c : char)            (* a literal character *)
| CSet (cs : list char)      (* [...] *)
| CSpace.                    (* \s *)

Inductive atom : Type :=
| One (c : cls)
| Star (c : cls)             (* c* , greedy *)
| Plus (c : cls)             (* c+ , greedy *)
| Bol                        (* ^ *)
| Eol.                       (* $ *)

Definition regex : Type := list atom.

Definition cls_mem (c : cls) (x : char) : bool :=
  match c with
  | CLit y => x =? y
  | CSet cs => existsb (N.eqb x) cs
  | CSpace => is_space x
  end.

(** [$] matches at the end of the string and just before a newline that is
    the last character of the string. *)
Definition at_eol (s : str) : bool :=
  match s with
  | [] => true
  | [c] => (c =? NL)%N
  | _ => false
  end.

(** Greedy iteration of a class followed by the continuation [k]: take as
    many characters as possible, and give characters back one at a time while
    the continuation fails.  [at0] tells whether the position is the start of
    the whole string.  The result is the number of characters matched. *)
Fixpoint star (c : cls) (k : bool -> str -> option nat) (at0 : bool) (s : str)
  : option nat :=
  match s with
  | x :: s' =>
      if cls_mem c x then
        match star c k false s' with
        | Some n => Some (S n)
        | None => k at0 s
        end
      else k at0 s
  | [] => k at0 s
  end.

(** The backtracking matcher: the first match of the pattern that starts at
    the current position, in the order the [re] engine tries them. *)
Fixpoint match_here (pat : regex) (at0 : bool) (s : str) : option nat :=
  match pat with
  | [] => Some O
  | One c :: pat' =>
      match s with
      | x :: s' => if cls_mem c x then option_map S (match_here pat' false s') else None
      | [] => None
      end
  | Star c :: pat' => star c (match_here pat') at0 s
  | Plus c :: pat' =>
      match s with
      | x :: s' =>
          if cls_mem c x then option_map S (star c (match_here pat') false s') else None
      | [] => None
      end
  | Bol :: pat' => if at0 then match_here pat' at0 s else None
  | Eol :: pat' => if at_eol s then match_here pat' at0 s else None
  end.

(** [pattern.sub('', s)]: scan left to right and delete every leftmost,
    non-overlapping match.  [skip] counts the characters of the current match
    that are still to be deleted.  An empty match deletes nothing. *)
Fixpoint sub_empty_from (pat : regex) (skip : nat) (at0 : bool) (s : str) : str :=
  match s with
  | [] => []
  | x :: s' =>
      match skip with
      | S skip' => sub_empty_from pat skip' false s'
      | O =>
          match match_here pat at0 s with
          | Some (S n) => sub_empty_from pat n false s'
          | _ => x :: sub_empty_from pat O false s'
          end
      end
  end.

Definition sub_empty (pat : regex) (s : str) : str := sub_empty_from pat O true s.

(** helpers.py, lines 18-20, and the inline pattern of line 127. *)
Definition NON_STANDARD_CONTROL_CHARS_RE : regex := [One (CSet [BEL; BS; FF; CR; VT])].
Definition START_OF_TEXT_THAT_IS_ONLY_WHITESPACE_FOLLOWED_BY_A_NEWLINE_RE : regex :=
  [Bol; Star CSpace; One (CLit NL)].
Definition END_OF_TEXT_THAT_IS_ONLY_WHITESPACE_PRECEDED_BY_A_NEWLINE_RE : regex :=
  [One (CLit NL); Star CSpace; Eol].
Definition TRAILING_WHITESPACE_RE : regex := [Plus CSpace; Eol].   (* r'\s+$' *)

(** [text.replace(old, new)] for single characters. *)
Definition replace (old new : char) (text : str) : str :=
  map (fun c => if (c =? old)%N then new else c) text.

(** [text.split('\n')]: never empty; the empty string splits into one empty
    line. *)
Fixpoint split (text : str) : list str :=
  match text with
  | [] => [[]]
  | c :: text' =>
      if (c =? NL)%N then [] :: split text'
      else match split text' with
           | line :: lines => (c :: line) :: lines
           | [] => [[c]]
           end
  end.

(** ['\n'.join(lines)]. *)
Fixpoint join (lines : list str) : str :=
  match lines with
  | [] => []
  | [line] => line
  | line :: lines' => line ++ NL :: join lines'
  end.

Section CleanText.
(** [ftfy.fix_text], an external library function. *)
Variable fix_text : str -> str.

(** helpers.py, lines 103-135. *)
Definition clean_text (text : str)
    (fix_encoding normalise_nbsp remove_non_standard_ccs
     remove_unnecessary_whitespace : bool) : str :=
  let text := if fix_encoding then fix_text text else text in
  let text := if normalise_nbsp then replace NBSP SPACE text else text in
  let text := if remove_non_standard_ccs
              then sub_empty NON_STANDARD_CONTROL_CHARS_RE text else text in
  if remove_unnecessary_whitespace then
    let text := join (map (sub_empty TRAILING_WHITESPACE_RE) (split text)) in
    let text := sub_empty START_OF_TEXT_THAT_IS_ONLY_WHITESPACE_FOLLOWED_BY_A_NEWLINE_RE text in
    let text := sub_empty END_OF_TEXT_THAT_IS_ONLY_WHITESPACE_PRECEDED_BY_A_NEWLINE_RE text in
    text
  else text.
End CleanText.

End Helpers.

(* --------------------------------------------------------------------- *)
(** ** scraper.py *)

Module Engine.

Local Open Scope Q_scope.

Definition bytes : Type := list Byte.byte.

(** [data.py] is not among the sources: the records below carry the fields
    that [scraper.py] and the scrapers read and write. *)
Record Request : Type := mk_Request {
  path : string;
  method : string;
  encoding : option string;
  args : list (string * string)
}.

Record Response : Type := mk_Response {
  content : bytes;
  resp_encoding : option string;
  resp_type : option string;
  resp_status : option Z
}.

Record Entry : Type := mk_Entry {
  entry_request : Request;
  version_id : string;
  entry_source : string;
  entry_type : option string;
  jurisdiction : string;
  date : option string;
  title : string
}.

Record Document : Type := mk_Document {
  doc_version_id : string;
  doc_url : string;
  doc_mime : string;
  doc_text : string
}.

(** What [self.semaphore] can hold: an [asyncio.Semaphore] or, after a
    subclass has taken the semaphore away, a [contextlib.nullcontext]. *)
Inductive gate : Type :=
| Semaphore (capacity : nat)
| Nullcontext.

(** The attributes of a [Scraper] that [get] and [get_doc] read.  A session
    is identified by a number; whether it is closed is part of the world. *)
Record Scraper : Type := mk_Scraper {
  source : string;
  semaphore : gate;
  session : option nat;
  retry_exceptions : list exc_class;
  retry_statuses : list Z;
  stop_after_waiting : Q;
  max_wait : Q;
  wait_base : Q;
  max_extra_jitter : Q
}.

Definition default_retry_exceptions : list exc_class :=
  [TimeoutError; ClientConnectorError; ServerDisconnectedError;
   ClientOSError; ClientPayloadError; ClientResponseError].

(** scraper.py, lines 20-91.  [None] stands for an argument left out. *)
Definition Scraper_init (source : string) (semaphore : option gate)
    (session : option nat) (retry_exceptions : option (list exc_class))
    (retry_statuses : option (list Z)) : Scraper :=
  {| source := source;
     semaphore := match semaphore with Some g => g | None => Semaphore 30 end;
     session := session;
     retry_exceptions :=
       match retry_exceptions with Some l => l | None => default_retry_exceptions end;
     retry_statuses := match retry_statuses with Some l => l | None => [429%Z] end;
     stop_after_waiting := 15 * 60;
     max_wait := 2.5 * 60;
     wait_base := 1.25;
     max_extra_jitter := 0.05 |}.

(** *** The outside world *)

(** The effects a run performs, in order. *)
Inductive event : Type :=
| EvEnter (g : gate)                 (* [async with self.semaphore]: acquire *)
| EvExit (g : gate)                  (* ... and release *)
| EvSessionCreate (sid : nat)        (* [aiohttp.ClientSession()] *)
| EvSessionClose (sid : nat)         (* the [async with] closes its session *)
| EvRequest (sid : nat) (req : Request)   (* [session.request] with [req.args]: sent *)
| EvResponse (sid : nat)             (* ... and answered, or failed *)
| EvSleep (seconds : Q)              (* [asyncio.sleep(wait)] *)
| EvFileOpen (path : string)
| EvFileClose (path : string)
| EvExtract (entry : Entry)          (* one call of [self._get_doc(entry)] *)
| EvWarning (message : string).      (* [warning(...)] of helpers.py *)

(** How one network exchange goes: [session.request] raises after some
    seconds, or a response arrives whose body can be read or fails to. *)
Inductive exchange : Type :=
| RequestRaises (e : exn) (seconds : Q)
| Responds (status : Z) (reason : string) (content_type : option string)
           (body : exn + bytes) (seconds : Q).

(** How one call of the source's [_get_doc] goes. *)
Definition extraction : Type := (exn + option Document)%type.

(** The script of the outside world: the file system, the n-th network
    exchange, the n-th call of [_get_doc], the n-th value of
    [random.random()].  Of the file system: for each path, the exception
    that [open(path, 'rb')] raises ([FileNotFoundError] for a path that does
    not exist, [IsADirectoryError] for a directory, [PermissionError] for a
    file that may not be read) or the bytes of the file that it opens. *)
Record environment : Type := mk_environment {
  files : string -> exn + bytes;
  transport : nat -> exchange;
  extract : nat -> extraction;
  random : nat -> Q
}.

(** A machine on which no path exists. *)
Definition no_files (path : string) : exn + bytes :=
  inl (mk_exn FileNotFoundError None "No such file or directory").

(** A call of [get] that [asyncio.gather] has left running when another of
    its calls raised: the address the call was given, the request that is in
    flight, whether the session is the call's own, and the session. *)
Definition left_call : Type := (string * Request * bool * nat)%type.

(** The state a run threads: the effects so far, the wall clock, how far the
    scripts have been consumed, the sessions that exist, and the calls that
    were left running. *)
Record world : Type := mk_world {
  w_trace : list event;
  w_clock : Q;
  w_requests : nat;
  w_extractions : nat;
  w_draws : nat;
  w_closed : list nat;               (* the sessions that have been closed *)
  w_next_session : nat;
  w_left_running : list left_call
}.

Definition emit (e : event) (w : world) : world :=
  mk_world (w_trace w ++ [e]) (w_clock w) (w_requests w) (w_extractions w)
           (w_draws w) (w_closed w) (w_next_session w) (w_left_running w).

Definition tick (seconds : Q) (w : world) : world :=
  mk_world (w_trace w) (w_clock w + seconds) (w_requests w) (w_extractions w)
           (w_draws w) (w_closed w) (w_next_session w) (w_left_running w).

(** [random.random()]. *)
Definition next_random (env : environment) (w : world) : Q * world :=
  (random env (w_draws w),
   mk_world (w_trace w) (w_clock w) (w_requests w) (w_extractions w)
            (S (w_draws w)) (w_closed w) (w_next_session w) (w_left_running w)).

(** [random.uniform(a, b)] is [a + (b - a) * random.random()]. *)
Definition uniform (a b : Q) (env : environment) (w : world) : Q * world :=
  let (u, w) := next_random env w in (a + (b - a) * u, w).

(** [asyncio.sleep(seconds)]. *)
Definition sleep (seconds : Q) (w : world) : world :=
  tick seconds (emit (EvSleep seconds) w).

(** [aiohttp.ClientSession()]: a new, open session. *)
Definition create_session (w : world) : nat * world :=
  let sid := w_next_session w in
  (sid,
   emit (EvSessionCreate sid)
     (mk_world (w_trace w) (w_clock w) (w_requests w) (w_extractions w) (w_draws w)
        (filter (fun i => negb (Nat.eqb i sid)) (w_closed w)) (S sid)
        (w_left_running w))).

Definition close_session (sid : nat) (w : world) : world :=
  emit (EvSessionClose sid)
    (mk_world (w_trace w) (w_clock w) (w_requests w) (w_extractions w) (w_draws w)
       (sid :: w_closed w) (w_next_session w) (w_left_running w)).

(** The exchange on session [sid] completes: the next one of the script. *)
Definition receive (env : environment) (sid : nat) (w : world) : exchange * world :=
  let x := transport env (w_requests w) in
  let seconds := match x with RequestRaises _ s => s | Responds _ _ _ _ s => s end in
  (x,
   emit (EvResponse sid)
     (tick seconds
        (mk_world (w_trace w) (w_clock w) (S (w_requests w)) (w_extractions w)
           (w_draws w) (w_closed w) (w_next_session w) (w_left_running w)))).

(** [session.closed]. *)
Definition is_closed (w : world) (sid : nat) : bool := existsb (Nat.eqb sid) (w_closed w).

(** [x > y] on seconds. *)
Definition Qgt_bool (x y : Q) : bool := negb (Qle_bool x y).

(** *** [await] *)

(** The operand of an [await]: an awaitable that completes with a value or
    an exception, or an object that is not awaitable. *)
Inductive operand (A : Type) : Type :=
| Awaitable (outcome : exn + A)
| PlainBytes (b : bytes).
Arguments Awaitable {A} outcome.
Arguments PlainBytes {A} b.

(** [await x]: awaiting an object without [__await__] raises [TypeError]. *)
Definition await {A : Type} (x : operand A) : exn + A :=
  match x with
  | Awaitable outcome => outcome
  | PlainBytes _ =>
      inl (mk_exn TypeError None "object bytes can't be used in 'await' expression")
  end.

(** *** The backoff (lines 196-210; the same lines stand at 127-141 and in
    [FederalRegisterOfLegislation.get]) *)

(** The wait for attempt number [attempt], given the two values that
    [random.random()] returns. *)
Definition backoff_wait (self : Scraper) (attempt : Z) (u1 u2 : Q) : Q :=
  let wait := wait_base self ^ attempt / 2 in
  let jitter := 0 + (wait - 0) * u1 in               (* random.uniform(0, wait) *)
  let wait := wait + jitter in
  let wait := Qmin wait (max_wait self) in
  let wait := wait + (0 + (max_extra_jitter self - 0) * u2) in
  wait.

(** The same, drawing from the world's random source. *)
Definition backoff (env : environment) (self : Scraper) (attempt : Z) (w : world)
  : Q * world :=
  let wait := wait_base self ^ attempt / 2 in
  let (jitter, w) := uniform 0 wait env w in
  let wait := wait + jitter in
  let wait := Qmin wait (max_wait self) in
  let (extra, w) := uniform 0 (max_extra_jitter self) env w in
  let wait := wait + extra in
  (wait, w).

(** *** Outcomes of a coroutine *)

(** A coroutine returns a value, raises, or is still running when the bound
    on the iterations of its loop is reached (the world then holds the
    effects of the iterations made so far). *)
Inductive outcome (A : Type) : Type :=
| Returned (a : A)
| Raised (e : exn)
| Running.
Arguments Returned {A} a.
Arguments Raised {A} e.
Arguments Running {A}.

Definition of_result {A : Type} (r : exn + A) : outcome A :=
  match r with
  | inl e => Raised e
  | inr a => Returned a
  end.

(** *** The [@log] decorator (helpers.py, lines 22-61) *)

(** [async_wrapper]: an [Exception] that escapes the wrapped coroutine is
    reported with [warning] and raised again; a [BaseException] that is not
    an [Exception] passes through unreported. *)
Definition log (A : Type) (func : string) (r : outcome A * world) : outcome A * world :=
  match r with
  | (Raised e, w) =>
      if issubclass (exn_class e) Exception_
      then (Raised e, emit (EvWarning (func ++ ": " ++ exn_message e)) w)
      else (Raised e, w)
  | other => other
  end.

Section Scraper.
Variable env : environment.

(** [Request(req)] for a [str]: the constructor of [data.py]. *)
Variable Request_of_str : string -> Request.

Variable self : Scraper.

(** *** [Scraper.get], lines 148-215 *)

(** The body of the [try] (lines 172-190) up to the point where the
    request has been sent and the coroutine waits for the answer: the
    contexts are entered.  Returns whether the session is the engine's own,
    and the session. *)
Definition attempt_begin (req : Request) (w : world) : (bool * nat) * world :=
  (* async with self.semaphore, ... *)
  let w := emit (EvEnter (semaphore self)) w in
  (* ... (nullcontext() if self.session and not self.session.closed
          else aiohttp.ClientSession()) as session *)
  let '(own, sid, w) :=
    match session self with
    | Some s =>
        if negb (is_closed w s) then (false, s, w)   (* session or self.session *)
        else let (sid, w) := create_session w in (true, sid, w)
    | None => let (sid, w) := create_session w in (true, sid, w)
    end in
  (* async with session.request(...) as response *)
  ((own, sid), emit (EvRequest sid req) w).

(** The rest of the body, from the answer on: the result is the response,
    or the exception that reaches the [except] clause; the contexts are
    left, innermost first, on every path. *)
Definition attempt_end (req : Request) (own : bool) (sid : nat) (w : world)
  : (exn + Response) * world :=
  let (x, w) := receive env sid w in
  let r :=
    match x with
    | RequestRaises e _ => inl e
    | Responds status reason content_type body _ =>
        if existsb (Z.eqb status) (retry_statuses self)
        then inl (mk_exn ClientResponseError (Some status) reason)
        else
          match await (Awaitable body) with        (* await response.read() *)
          | inl e => inl e
          | inr b => inr (mk_Response b (encoding req) content_type (Some status))
          end
    end in
  let w := if own then close_session sid w else w in
  let w := emit (EvExit (semaphore self)) w in
  (r, w).

Definition attempt_fetch (req : Request) (w : world) : (exn + Response) * world :=
  let '((own, sid), w) := attempt_begin req w in
  attempt_end req own sid w.

(** The [while True] loop of lines 168-215, for at most [fuel]
    iterations. *)
Fixpoint get_loop (fuel : nat) (req : Request) (attempt : Z) (elapsed : Q)
    (w : world) : outcome Response * world :=
  match fuel with
  | O => (Running, w)
  | S fuel' =>
      match attempt_fetch req w with
      | (inr response, w) => (Returned response, w)
      | (inl e, w) =>
          if isinstance e (retry_exceptions self) then
            if Qgt_bool elapsed (stop_after_waiting self) then (Raised e, w)
            else
              let attempt := (attempt + 1)%Z in
              let (wait, w) := backoff env self attempt w in
              let w := sleep wait w in
              get_loop fuel' req attempt (elapsed + wait) w
          else (Raised e, w)
      end
  end.

(** A call of [get] on the network path whose first request is in flight
    ([asyncio.gather] starts every coroutine before any of them is
    resumed): the rest of the first iteration and the iterations after
    it. *)
Definition get_resume (fuel : nat) (req : Request) (own : bool) (sid : nat) (w : world)
  : outcome Response * world :=
  match attempt_end req own sid w with
  | (inr response, w) => (Returned response, w)
  | (inl e, w) =>
      if isinstance e (retry_exceptions self) then
        if Qgt_bool 0 (stop_after_waiting self) then (Raised e, w)
        else
          let attempt := (0 + 1)%Z in
          let (wait, w) := backoff env self attempt w in
          let w := sleep wait w in
          get_loop fuel req attempt (0 + wait) w
      else (Raised e, w)
  end.

(** Lines 156-162: the request method [open]. *)
Definition get_open (req : Request) (w : world) : outcome Response * world :=
  match files env (path req) with
  | inl e => (Raised e, w)
  | inr data =>
      let w := emit (EvFileOpen (path req)) w in        (* with open(req.path, 'rb') *)
      let r :=
        match await (PlainBytes data) with               (* await reader.read() *)
        | inl e => Raised e
        | inr b => Returned (mk_Response b (encoding req) None None)
        end in
      (r, emit (EvFileClose (path req)) w)
  end.

Definition get_undecorated (fuel : nat) (req : Request + string) (w : world)
  : outcome Response * world :=
  let req := match req with inl r => r | inr s => Request_of_str s end in
  if String.eqb (method req) "open" then get_open req w
  else get_loop fuel req 0%Z 0 w.

Definition get (fuel : nat) (req : Request + string) (w : world)
  : outcome Response * world :=
  log "get" (get_undecorated fuel req w).

(** A coroutine of [get] as [asyncio.gather] drives it: started, it runs
    to its first suspension (a request in flight) or, for the method
    [open], to its end; resumed, it runs the rest. *)
Inductive started : Type :=
| Finished (r : outcome Response)
| InFlight (req : Request) (own : bool) (sid : nat).

Definition get_begin (req : Request + string) (w : world) : started * world :=
  let req := match req with inl r => r | inr s => Request_of_str s end in
  if String.eqb (method req) "open"
  then let (r, w) := log "get" (get_open req w) in (Finished r, w)
  else let '((own, sid), w) := attempt_begin req w in (InFlight req own sid, w).

Definition get_finish (fuel : nat) (st : started) (w : world) : outcome Response * world :=
  match st with
  | Finished r => (r, w)
  | InFlight req own sid => log "get" (get_resume fuel req own sid w)
  end.

(** [asyncio.gather] raises the first exception of its calls to the
    coroutine that awaits it and does not cancel the others: those whose
    request is in flight are left running. *)
Definition in_flight (sts : list (string * started)) : list left_call :=
  flat_map (fun st => match st with
                      | (u, InFlight req own sid) => [(u, req, own, sid)]
                      | (_, Finished _) => []
                      end) sts.

Definition leave_running (sts : list (string * started)) (w : world) : world :=
  mk_world (w_trace w) (w_clock w) (w_requests w) (w_extractions w) (w_draws w)
           (w_closed w) (w_next_session w) (w_left_running w ++ in_flight sts).

Definition forget_left_running (w : world) : world :=
  mk_world (w_trace w) (w_clock w) (w_requests w) (w_extractions w) (w_draws w)
           (w_closed w) (w_next_session w) [].

(** *** [Scraper.get_doc], lines 112-146 *)

(** One call of the source's [_get_doc], which the base class leaves
    abstract: the script says how it goes. *)
Definition _get_doc (entry : Entry) (w : world) : extraction * world :=
  (extract env (w_extractions w),
   emit (EvExtract entry)
     (mk_world (w_trace w) (w_clock w) (w_requests w) (S (w_extractions w))
        (w_draws w) (w_closed w) (w_next_session w) (w_left_running w))).

Fixpoint get_doc_loop (fuel : nat) (entry : Entry) (attempt : Z) (elapsed : Q)
    (w : world) : outcome (option Document) * world :=
  match fuel with
  | O => (Running, w)
  | S fuel' =>
      match _get_doc entry w with
      | (inr doc, w) => (Returned doc, w)
      | (inl e, w) =>
          if isinstance e [ParseError] then
            if Qgt_bool elapsed (stop_after_waiting self) then (Raised e, w)
            else
              let attempt := (attempt + 1)%Z in
              let (wait, w) := backoff env self attempt w in
              let w := sleep wait w in
              get_doc_loop fuel' entry attempt (elapsed + wait) w
          else (Raised e, w)
      end
  end.

Definition get_doc (fuel : nat) (entry : Entry) (w : world)
  : outcome (option Document) * world :=
  log "get_doc" (get_doc_loop fuel entry 0%Z 0 w).

End Scraper.

(** A world in which nothing has happened yet.  Session 0 is the one a
    caller may have made before constructing the scraper; [closed0] tells
    whether the caller has closed it. *)
Definition initial_world (closed0 : bool) : world :=
  mk_world [] 0 O O O (if closed0 then [O] else []) 1 [].

End Engine.

(* --------------------------------------------------------------------- *)
(** ** The scrapers *)

Module Sources.
Import Engine.
Local Open Scope Q_scope.

(** [async with gate:] around a body.  A body that is still running has not
    left the context. *)
Definition with_gate {A : Type} (g : gate) (body : world -> outcome A * world)
    (w : world) : outcome A * world :=
  let w := emit (EvEnter g) w in
  match body w with
  | (Running, w) => (Running, w)
  | (r, w) => (r, emit (EvExit g) w)
  end.

(** [needle in response], for a byte string.  [data.py] is not among the
    sources: a response holds a byte string when its content does. *)
Fixpoint starts_with (needle hay : bytes) : bool :=
  match needle, hay with
  | [], _ => true
  | b :: needle', c :: hay' => Byte.eqb b c && starts_with needle' hay'
  | _ :: _, [] => false
  end.

Fixpoint bytes_in (needle hay : bytes) : bool :=
  starts_with needle hay ||
  match hay with
  | [] => false
  | _ :: hay' => bytes_in needle hay'
  end.

Definition contains (needle : string) (response : Response) : bool :=
  bytes_in (list_byte_of_string needle) (content response).

(** ['acts' in req.path]. *)
Definition string_in (needle hay : string) : bool :=
  bytes_in (list_byte_of_string needle) (list_byte_of_string hay).

(** A Python [set], kept as the list of the elements added to it: an
    element is in the set exactly when it is in the list, and the set is
    empty exactly when the list is.  The order of the list and the number of
    times an element occurs in it mean nothing; what is stated of a set is
    stated of its elements. *)
Definition pyset (A : Type) : Type := list A.

(** A comprehension whose element expression can raise: the first exception
    ends it. *)
Fixpoint comprehension {A B : Type} (f : A -> exn + B) (l : list A) : exn + list B :=
  match l with
  | [] => inr []
  | x :: l' =>
      match f x with
      | inl e => inl e
      | inr y =>
          match comprehension f l' with
          | inl e => inl e
          | inr ys => inr (y :: ys)
          end
      end
  end.

(** *** federal_register_of_legislation.py *)

Record FederalRegisterOfLegislation : Type := mk_FRL {
  frl_scraper : Scraper;            (* the attributes of the base class *)
  frl_semaphore : gate;             (* [self._semaphore] *)
  docs_per_serp : Z;                (* [self._docs_per_serp] *)
  collections : list (string * (option string * string))   (* [self._collections] *)
}.

(** Lines 31-84. *)
Definition FederalRegisterOfLegislation_init (semaphore : option gate)
    (session : option nat) : FederalRegisterOfLegislation :=
  let base := Scraper_init "federal_register_of_legislation" semaphore session None None in
  (* self._semaphore = self.semaphore; self.semaphore = nullcontext() *)
  let taken := Engine.semaphore base in
  (* self.retry_statuses += (502, 400,) *)
  mk_FRL
    (mk_Scraper (source base) Nullcontext (Engine.session base) (retry_exceptions base)
       (retry_statuses base ++ [502; 400]%Z) (stop_after_waiting base) (max_wait base)
       (wait_base base) (max_extra_jitter base))
    taken 100
    [("Constitution", (Some "primary_legislation", "commonwealth"));
     ("Act", (Some "primary_legislation", "commonwealth"));
     ("LegislativeInstrument", (Some "secondary_legislation", "commonwealth"));
     ("NotifiableInstrument", (Some "secondary_legislation", "commonwealth"));
     ("AdministrativeArrangementsOrder", (Some "secondary_legislation", "commonwealth"));
     ("PrerogativeInstrument", (Some "secondary_legislation", "commonwealth"));
     ("ContinuedLaw", (None, "norfolk_island"))]%string.

(** One element of [resp.json['value']], with the fields [get_index] reads. *)
Record frl_item : Type := mk_frl_item {
  item_id : string;
  item_name : string;
  item_collection : string;
  item_register_id : string;        (* ['searchContexts']['fullTextVersion']['registerId'] *)
  item_start : string               (* ['searchContexts']['fullTextVersion']['start'] *)
}.

Inductive download_format : Type := Word | Pdf.

(** [dict[key]]. *)
Fixpoint lookup {V : Type} (key : string) (d : list (string * V)) : exn + V :=
  match d with
  | [] => inl (mk_exn KeyError None key)
  | (k, v) :: d' => if String.eqb k key then inr v else lookup key d'
  end.

(** *** [ceil(a / b)] on integers

    [a / b] is the double nearest to the quotient.  A double is written
    [(m, s)] for [m * 2^s]: a significand of at most 53 bits and the
    exponent of its last place, which is at least -1074. *)

(** The quotient of [n] by [d] rounded to the nearest integer, a tie to the
    even one. *)
Definition round_half_even (n d : Z) : Z :=
  let q := (n / d)%Z in
  let r := (n mod d)%Z in
  if (2 * r <? d)%Z then q
  else if (d <? 2 * r)%Z then (q + 1)%Z
  else if Z.even q then q else (q + 1)%Z.

(** [2^k <= n / d], for positive [n] and [d]. *)
Definition quotient_reaches (n d k : Z) : bool :=
  if (0 <=? k)%Z then (d * 2 ^ k <=? n)%Z else (d <=? n * 2 ^ (- k))%Z.

(** The double nearest to [n / d], for positive [n] and [d]: [k] is the
    exponent of the leading bit of the quotient. *)
Definition nearest_double (n d : Z) : Z * Z :=
  let e := (Z.log2 n - Z.log2 d)%Z in
  let k := if quotient_reaches n d e then e else (e - 1)%Z in
  let s := Z.max (k - 52) (-1074) in
  (if (0 <=? s)%Z then round_half_even n (d * 2 ^ s)
   else round_half_even (n * 2 ^ (- s)) d, s).

(** [a / b] (true division of [int]s): correctly rounded; a quotient that
    rounds beyond the largest double raises [OverflowError]. *)
Definition true_divide (a b : Z) : exn + (Z * Z) :=
  if (b =? 0)%Z then inl (mk_exn ZeroDivisionError None "division by zero")
  else if (a =? 0)%Z then inr (0, 0)%Z
  else
    let (m, s) := nearest_double (Z.abs a) (Z.abs b) in
    if ((0 <=? s) && (2 ^ 1024 <=? m * 2 ^ s))%Z
    then inl (mk_exn OverflowError None "integer division result too large for a float")
    else inr (Z.sgn a * Z.sgn b * m, s)%Z.

(** [math.ceil] of a double. *)
Definition ceil_double (x : Z * Z) : Z :=
  let (m, s) := x in
  if (0 <=? s)%Z then (m * 2 ^ s)%Z else (- ((- m) / 2 ^ (- s)))%Z.

(** [range(n)]. *)
Definition range (n : Z) : list Z := map Z.of_nat (seq 0 (Z.to_nat n)).

Section FederalRegisterOfLegislation.
Variable env : environment.
Variable Request_of_str : string -> Request.
Variable self : FederalRegisterOfLegislation.

(** What the code gets out of a response with [orjson], [lxml], regular
    expressions, [mammoth], [inscriptis] and the OCR pipeline; and
    [make_doc] of [data.py]. *)
Variable odata_count : Response -> exn + Z.            (* [.json['@odata.count']] *)
Variable json_value : Response -> exn + list frl_item. (* [.json['value']] *)
Variable first_serp_url : string.                      (* the url of lines 91-99 *)
Variable serp_url : Z -> Z -> string.                  (* lines 109-126, by top and skip *)
Variable is_norfolk_act : string -> bool.              (* the pattern of line 202 *)
Variable part_urls : Response -> list string.          (* lines 215-221 *)
Variable html_texts : list Response -> exn + list string.      (* lines 231-234 *)
Variable has_downloads : Response -> bool.             (* lines 243-248 *)
Variable part_links : Response -> download_format -> list string.  (* lines 254-265 *)
Variable docx_texts : list Response -> exn + list string.      (* lines 287-291 *)
Variable pdf_texts : list Response -> exn + list string.       (* line 319 *)
Variable make_doc : Entry -> string -> string -> string -> string -> Document.

(** The handling of the outcome of [await super().get(req)] in one
    iteration of [get] (lines 163-194); [again] is the next iteration. *)
Definition frl_handle (again : Z -> Q -> world -> outcome Response * world)
    (attempt : Z) (elapsed : Q) (r : outcome Response * world)
  : outcome Response * world :=
  let on_error (e : exn) (w : world) :=
    if isinstance e [ParseError] then
      if Qgt_bool elapsed (stop_after_waiting (frl_scraper self)) then (Raised e, w)
      else
        let attempt := (attempt + 1)%Z in
        let (wait, w) := backoff env (frl_scraper self) attempt w in
        let w := sleep wait w in
        again attempt (elapsed + wait) w
    else (Raised e, w) in
  match r with
  | (Returned content, w) =>
      if contains "The service is unavailable." content
      then on_error
             (mk_exn ParseError None
                "The Federal Register of Legislation's servers are currently overloaded.") w
      else (Returned content, w)
  | (Raised e, w) => on_error e w
  | (Running, w) => (Running, w)
  end.

(** Lines 157-194: [FederalRegisterOfLegislation.get]. *)
Fixpoint frl_get_loop (fuel : nat) (req : Request + string) (attempt : Z) (elapsed : Q)
    (w : world) : outcome Response * world :=
  match fuel with
  | O => (Running, w)
  | S fuel' =>
      frl_handle (frl_get_loop fuel' req) attempt elapsed
        (Engine.get env Request_of_str (frl_scraper self) fuel' req w)
  end.

Definition frl_get (fuel : nat) (req : Request + string) (w : world)
  : outcome Response * world :=
  log "get" (frl_get_loop fuel req 0%Z 0 w).

(** The same call as [asyncio.gather] drives it. *)
Definition frl_get_begin (req : Request + string) (w : world) : started * world :=
  get_begin env Request_of_str (frl_scraper self) req w.

Definition frl_get_finish (fuel : nat) (req : Request + string) (st : started) (w : world)
  : outcome Response * world :=
  log "get"
    (frl_handle (frl_get_loop fuel req) 0%Z 0
       (get_finish env (frl_scraper self) fuel st w)).

(** [await asyncio.gather] over [self.get(u)] for the urls: every call is
    started before any is resumed; the first exception ends the wait, and
    the calls not yet resumed are left running. *)
Fixpoint begin_all (urls : list string) (w : world) : list (string * started) * world :=
  match urls with
  | [] => ([], w)
  | u :: urls' =>
      let (st, w) := frl_get_begin (inr u) w in
      let (sts, w) := begin_all urls' w in
      ((u, st) :: sts, w)
  end.

Fixpoint finish_all (fuel : nat) (sts : list (string * started)) (w : world)
  : outcome (list Response) * world :=
  match sts with
  | [] => (Returned [], w)
  | (u, st) :: sts' =>
      match frl_get_finish fuel (inr u) st w with
      | (Returned r, w) =>
          match finish_all fuel sts' w with
          | (Returned rs, w) => (Returned (r :: rs), w)
          | other => other
          end
      | (Raised e, w) => (Raised e, leave_running sts' w)
      | (Running, w) => (Running, w)
      end
  end.

(** The calls that were left running go on to their end, one after the
    other; nobody awaits what they return or raise. *)
Fixpoint resume_calls (fuel : nat) (calls : list left_call) (w : world) : world :=
  match calls with
  | [] => w
  | (u, req, own, sid) :: calls' =>
      resume_calls fuel calls'
        (snd (frl_get_finish fuel (inr u) (InFlight req own sid) w))
  end.

Definition resume_left_running (fuel : nat) (w : world) : world :=
  resume_calls fuel (w_left_running w) (forget_left_running w).

Definition gather_get (fuel : nat) (urls : list string) (w : world)
  : outcome (list Response) * world :=
  let (sts, w) := begin_all urls w in
  finish_all fuel sts w.

(** Lines 86-130. *)
Definition frl_get_index_reqs (fuel : nat) (w : world) : outcome (pyset Request) * world :=
  log "get_index_reqs"
    (with_gate (frl_semaphore self)
       (fun w =>
          match frl_get fuel (inr first_serp_url) w with
          | (Returned first_page, w) =>
              match odata_count first_page with
              | inl e => (Raised e, w)
              | inr total_docs =>
                  match true_divide total_docs (docs_per_serp self) with
                  | inl e => (Raised e, w)
                  | inr quotient =>
                      let total_pages := ceil_double quotient in
                      (Returned
                         (map (fun page =>
                                 Request_of_str
                                   (serp_url (docs_per_serp self)
                                      (docs_per_serp self * page)))
                              (range total_pages)), w)
                  end
              end
          | (Raised e, w) => (Raised e, w)
          | (Running, w) => (Running, w)
          end) w).

(** The [Entry(...)] of lines 144-152. *)
Definition frl_entry (item : frl_item) : exn + Entry :=
  match lookup (item_collection item) (collections self) with
  | inl e => inl e
  | inr (type, jurisdiction) =>
      inr (mk_Entry
             (Request_of_str ("https://www.legislation.gov.au/" ++ item_id item))
             (item_register_id item)
             (source (frl_scraper self))
             type jurisdiction
             (Some (String.substring 0 10 (item_start item)))
             (item_name item))
  end.

(** Lines 132-155. *)
Definition frl_get_index (fuel : nat) (req : Request) (w : world)
  : outcome (pyset Entry) * world :=
  log "get_index"
    (with_gate (frl_semaphore self)
       (fun w =>
          match frl_get fuel (inl req) w with
          | (Returned resp, w) =>
              match json_value resp with
              | inl e => (Raised e, w)
              | inr value =>
                  if Nat.eqb (length value) 0
                  then (Raised (mk_exn Exception_ None
                                  "No entries were found for the request"), w)
                  else (of_result (comprehension frl_entry value), w)
              end
          | (Raised e, w) => (Raised e, w)
          | (Running, w) => (Running, w)
          end) w).

(** The first format of [('word', 'pdf')] with links (lines 252-272). *)
Definition first_format (page : Response) : option (download_format * list string) :=
  match part_links page Word with
  | (_ :: _) as links => Some (Word, links)
  | [] =>
      match part_links page Pdf with
      | (_ :: _) as links => Some (Pdf, links)
      | [] => None
      end
  end.

Definition single_or {A : Type} (l : list A) (default : A) : A :=
  match l with
  | [x] => x
  | _ => default
  end.

(** Lines 316-328: the parts are PDFs. *)
Definition frl_from_pdf (entry : Entry) (type url : string) (resps : list Response)
    (w : world) : outcome (option Document) * world :=
  match pdf_texts resps with
  | inl e =>
      if isinstance e [PdfiumError]
      then (Returned None, emit (EvWarning "not a valid PDF") w)
      else (Raised e, w)
  | inr texts =>
      (Returned (Some (make_doc entry type "application/pdf" url
                         (String.concat (String (Ascii.ascii_of_nat 10) "") texts))), w)
  end.

(** Lines 282-314: the parts are Word files; a part that turns out to be
    a .DOC file sends the scraper to the PDF version. *)
Definition frl_from_word (fuel : nat) (entry : Entry) (type url : string)
    (downloads_page : Response) (part_resps : list Response) (w : world)
  : outcome (option Document) * world :=
  match docx_texts part_resps with
  | inr texts =>
      (Returned
         (Some (make_doc entry type
                  "application/vnd.openxmlformats-officedocument.wordprocessingml.document"
                  url (String.concat (String (Ascii.ascii_of_nat 10) "") texts))), w)
  | inl e =>
      if isinstance e [BadZipFile; ParserError] then
        let w := emit (EvWarning "stored as a .DOC file") w in
        match part_links downloads_page Pdf with
        | [] => (Returned None, emit (EvWarning "No valid version found") w)
        | (_ :: _) as links =>
            let url := single_or links url in
            match gather_get fuel links w with
            | (Raised e, w) => (Raised e, w)
            | (Running, w) => (Running, w)
            | (Returned part_resps, w) => frl_from_pdf entry type url part_resps w
            end
        end
      else (Raised e, w)
  end.

(** Lines 239-328: no HTML text; the versions of the downloads page. *)
Definition frl_from_downloads (fuel : nat) (entry : Entry) (type : string) (w : world)
  : outcome (option Document) * world :=
  let url := (path (entry_request entry) ++ "/latest/downloads")%string in
  match frl_get fuel (inr url) w with
  | (Raised e, w) => (Raised e, w)
  | (Running, w) => (Running, w)
  | (Returned downloads_page, w) =>
      if negb (has_downloads downloads_page)
      then (Returned None, emit (EvWarning "No valid version found") w)
      else
        match first_format downloads_page with
        | None => (Returned None, emit (EvWarning "No valid version found") w)
        | Some (format, links) =>
            let url := single_or links url in
            match gather_get fuel links w with
            | (Raised e, w) => (Raised e, w)
            | (Running, w) => (Running, w)
            | (Returned part_resps, w) =>
                match format with
                | Pdf => frl_from_pdf entry type url part_resps w
                | Word => frl_from_word fuel entry type url downloads_page part_resps w
                end
            end
        end
  end.

(** Lines 196-344, inside [async with self._semaphore]. *)
Definition frl_get_doc_body (fuel : nat) (entry : Entry) (w : world)
  : outcome (option Document) * world :=
  let type :=
    match entry_type entry with
    | None => if is_norfolk_act (title entry)
              then "primary_legislation" else "secondary_legislation"
    | Some t => t
    end%string in
  match frl_get fuel (inl (entry_request entry)) w with
  | (Raised e, w) => (Raised e, w)
  | (Running, w) => (Running, w)
  | (Returned status_page, w) =>
      match part_urls status_page with
      | (_ :: _) as urls =>
          let url := single_or urls (path (entry_request entry)) in
          match gather_get fuel urls w with
          | (Raised e, w) => (Raised e, w)
          | (Running, w) => (Running, w)
          | (Returned resps, w) =>
              match html_texts resps with
              | inl e => (Raised e, w)
              | inr texts =>
                  (Returned
                     (Some (make_doc entry type "text/html" url
                              (String.concat (String (Ascii.ascii_of_nat 10) "") texts))),
                   w)
              end
          end
      | [] => frl_from_downloads fuel entry type w
      end
  end.

Definition frl_get_doc_gated (fuel : nat) (entry : Entry) (w : world)
  : outcome (option Document) * world :=
  log "_get_doc" (with_gate (frl_semaphore self) (frl_get_doc_body fuel entry) w).

(** Lines 196-344.  When [_get_doc] is over, with the semaphore released,
    the calls that a gather in it has left running go on. *)
Definition frl_get_doc (fuel : nat) (entry : Entry) (w : world)
  : outcome (option Document) * world :=
  let (r, w) := frl_get_doc_gated fuel entry w in
  (r, resume_left_running fuel w).

End FederalRegisterOfLegislation.

(** *** high_court_of_australia.py *)

Record HighCourtOfAustralia : Type := mk_HCA {
  hca_scraper : Scraper;            (* the attributes of the base class *)
  hca_semaphore : gate;             (* [self._semaphore] *)
  hca_type : string;                (* [self._type] *)
  hca_jurisdiction : string         (* [self._jurisdiction] *)
}.

(** Lines 29-76. *)
Definition HighCourtOfAustralia_init (semaphore : option gate) (session : option nat)
  : HighCourtOfAustralia :=
  let base :=
    Scraper_init "high_court_of_australia"
      (Some (match semaphore with Some g => g | None => Semaphore 4 end))
      session None None in
  (* self._semaphore = self.semaphore; self.semaphore = nullcontext() *)
  let taken := Engine.semaphore base in
  mk_HCA
    (mk_Scraper (source base) Nullcontext (Engine.session base) (retry_exceptions base)
       (retry_statuses base)
       (stop_after_waiting base + 30 * 60)      (* self.stop_after_waiting += 30 * 60 *)
       (max_wait base + 5 * 60)                 (* self.max_wait += 5 * 60 *)
       (wait_base base + 2)                     (* self.wait_base += 2 *)
       (max_extra_jitter base))
    taken "decision" "commonwealth".

Section HighCourtOfAustralia.
Variable env : environment.
Variable Request_of_str : string -> Request.
Variable self : HighCourtOfAustralia.

(** The [text] view of a response ([data.py]), the regular expressions of
    lines 119, 122, 135 and 139, the conversions of lines 160-215 and
    [make_doc]. *)
Variable text : Response -> Helpers.str.
Variable find_cases : Helpers.str -> list (string * Helpers.str)%type.
Variable case_title : Helpers.str -> option string.
Variable find_date : Response -> option string.
Variable last_download : Response -> option (string * string)%type.
Variable convert : string -> Response -> exn + (string * string)%type.
Variable make_doc : Entry -> option string -> string -> string -> string -> Document.

(** Line 152. *)
Definition is_missing (resp : Response) : bool :=
  contains "Document could not be found" resp ||
  contains "There were no matching cases." resp.

(** The [Entry(...)] of lines 113-120: [re.search(...)] is [None] for a
    link without the expected title markup, and [None.groups()] raises. *)
Definition hca_entry (found : string * Helpers.str) : exn + Entry :=
  let (slug, title_html) := found in
  match case_title title_html with
  | None => inl (mk_exn AttributeError None "'NoneType' object has no attribute 'groups'")
  | Some title =>
      inr (mk_Entry (Request_of_str ("https://eresources.hcourt.gov.au" ++ slug)) slug
             (source (hca_scraper self)) (Some (hca_type self)) (hca_jurisdiction self)
             None title)
  end.

(** Lines 106-123. *)
Definition hca_get_index (fuel : nat) (req : Request) (w : world)
  : outcome (pyset Entry) * world :=
  log "get_index"
    match Engine.get env Request_of_str (hca_scraper self) fuel (inl req) w with
    | (Returned resp, w) => (of_result (comprehension hca_entry (find_cases (text resp))), w)
    | (Raised e, w) => (Raised e, w)
    | (Running, w) => (Running, w)
    end.

(** Lines 125-228. *)
Definition hca_get_doc (fuel : nat) (entry : Entry) (w : world)
  : outcome (option Document) * world :=
  log "_get_doc"
    (with_gate (hca_semaphore self)
       (fun w =>
          match Engine.get env Request_of_str (hca_scraper self) fuel
                  (inl (entry_request entry)) w with
          | (Raised e, w) => (Raised e, w)
          | (Running, w) => (Running, w)
          | (Returned resp, w) =>
              let date := find_date resp in
              let finish (type url : string) (resp : Response) (w : world) :=
                match convert type resp with
                | inl e => (Raised e, w)
                | inr (text, mime) => (Returned (Some (make_doc entry date mime url text)), w)
                end in
              match last_download resp with
              | Some (slug, type) =>
                  let url := ("https://eresources.hcourt.gov.au" ++ slug)%string in
                  match Engine.get env Request_of_str (hca_scraper self) fuel (inr url) w with
                  | (Raised e, w) => (Raised e, w)
                  | (Running, w) => (Running, w)
                  | (Returned resp, w) =>
                      if is_missing resp
                      then (Returned None, emit (EvWarning "appears to be missing") w)
                      else finish type url resp w
                  end
              | None => finish "HTML"%string (path (entry_request entry)) resp w
              end
          end) w).

End HighCourtOfAustralia.

(** *** western_australian_legislation.py *)

(** Lines 26-56: the base class is left as it is. *)
Definition WesternAustralianLegislation_init (semaphore : option gate)
    (session : option nat) : Scraper :=
  Scraper_init "western_australian_legislation" semaphore session None None.

(** [re.findall(r"<tr>((?:.|\n)*?)</tr>", resp)]: the rows, each the
    shortest text between an opening and the next closing tag. *)
Section FindAll.
Local Open Scope N_scope.

Definition TR_OPEN : Helpers.str := [60; 116; 114; 62].         (* "<tr>" *)
Definition TR_CLOSE : Helpers.str := [60; 47; 116; 114; 62].    (* "</tr>" *)

Fixpoint strip_prefix (p s : Helpers.str) : option Helpers.str :=
  match p with
  | [] => Some s
  | c :: p' =>
      match s with
      | x :: s' => if x =? c then strip_prefix p' s' else None
      | [] => None
      end
  end.

(** The lazy [(?:.|\n)*?] followed by the closing tag: the group and what
    is left after the tag. *)
Fixpoint until_close (s : Helpers.str) : option (Helpers.str * Helpers.str) :=
  match strip_prefix TR_CLOSE s with
  | Some rest => Some ([], rest)
  | None =>
      match s with
      | [] => None
      | x :: s' =>
          match until_close s' with
          | Some (group, rest) => Some (x :: group, rest)
          | None => None
          end
      end
  end.

Fixpoint findall_tr_from (fuel : nat) (s : Helpers.str) : list Helpers.str :=
  match fuel with
  | O => []
  | S fuel' =>
      match s with
      | [] => []
      | _ :: s' =>
          match strip_prefix TR_OPEN s with
          | Some body =>
              match until_close body with
              | Some (group, rest) => group :: findall_tr_from fuel' rest
              | None => findall_tr_from fuel' s'
              end
          | None => findall_tr_from fuel' s'
          end
      end
  end.

(** A match takes at least one character, so the length of the text bounds
    the scan. *)
Definition findall_tr (s : Helpers.str) : list Helpers.str :=
  findall_tr_from (length s) s.
End FindAll.

Section WesternAustralianLegislation.
Variable env : environment.
Variable Request_of_str : string -> Request.
Variable self : Scraper.

(** The [text] view of a response ([data.py]) and [_get_entry] (lines
    83-124), which may fetch the status page of the document. *)
Variable text : Response -> Helpers.str.
Variable _get_entry : Helpers.str -> string -> world -> outcome Entry * world.

(** [{await self._get_entry(row, type) for row in rows}]. *)
Fixpoint wal_entries (rows : list Helpers.str) (type : string) (w : world)
  : outcome (pyset Entry) * world :=
  match rows with
  | [] => (Returned [], w)
  | row :: rows' =>
      match _get_entry row type w with
      | (Returned entry, w) =>
          match wal_entries rows' type w with
          | (Returned entries, w) => (Returned (entry :: entries), w)
          | other => other
          end
      | (Raised e, w) => (Raised e, w)
      | (Running, w) => (Running, w)
      end
  end.

(** Lines 69-81. *)
Definition wal_get_index (fuel : nat) (req : Request) (w : world)
  : outcome (pyset Entry) * world :=
  log "get_index"
    (let type :=
       if string_in "acts" (path req)
       then "primary_legislation"%string else "secondary_legislation"%string in
     match Engine.get env Request_of_str self fuel (inl req) w with
     | (Returned resp, w) =>
         let rows := tl (findall_tr (text resp)) in
         wal_entries rows type w
     | (Raised e, w) => (Raised e, w)
     | (Running, w) => (Running, w)
     end).

End WesternAustralianLegislation.

End Sources.

(* --------------------------------------------------------------------- *)
(** ** Coroutines that run at once *)

(** The event loop interleaves the coroutines it runs.  Each task is the
    sequence of effects of one coroutine; they share one semaphore.  A task
    about to acquire the semaphore can take its step only while a permit is
    free; every other step is always possible. *)
Module Scheduler.
Import Engine.

Record task : Type := mk_task {
  holding : nat;               (* permits of the semaphore the task holds *)
  in_flight : nat;             (* its requests sent and not yet answered *)
  todo : list event            (* its effects still to come *)
}.

Definition system : Type := (nat * list task)%type.     (* free permits, tasks *)

Definition task_step (free : nat) (t : task) : option (nat * task) :=
  match todo t with
  | [] => None
  | ev :: rest =>
      match ev with
      | EvEnter (Semaphore _) =>
          match free with
          | O => None
          | S free' => Some (free', mk_task (S (holding t)) (in_flight t) rest)
          end
      | EvExit (Semaphore _) => Some (S free, mk_task (pred (holding t)) (in_flight t) rest)
      | EvRequest _ _ => Some (free, mk_task (holding t) (S (in_flight t)) rest)
      | EvResponse _ => Some (free, mk_task (holding t) (pred (in_flight t)) rest)
      | _ => Some (free, mk_task (holding t) (in_flight t) rest)
      end
  end.

Inductive step : system -> system -> Prop :=
| step_task (free free' : nat) (before after : list task) (t t' : task) :
    task_step free t = Some (free', t') ->
    step (free, before ++ t :: after) (free', before ++ t' :: after).

Inductive reachable (init : system) : system -> Prop :=
| reachable_init : reachable init init
| reachable_step (s s' : system) : reachable init s -> step s s' -> reachable init s'.

(** The tasks at the start, with a semaphore of the given capacity. *)
Definition start (capacity : nat) (traces : list (list event)) : system :=
  (capacity, map (mk_task 0 0) traces).

Definition requests_in_flight (s : system) : nat :=
  fold_right (fun t n => (in_flight t + n)%nat) O (snd s).

Definition holders (s : system) : nat :=
  length (filter (fun t => negb (Nat.eqb (holding t) 0)) (snd s)).

(** The step of the [i]-th task, for writing down a schedule. *)
Fixpoint step_nth (i : nat) (free : nat) (tasks : list task) : option system :=
  match tasks with
  | [] => None
  | t :: tasks' =>
      match i with
      | O =>
          match task_step free t with
          | Some (free', t') => Some (free', t' :: tasks')
          | None => None
          end
      | S i' =>
          match step_nth i' free tasks' with
          | Some (free', tasks'') => Some (free', t :: tasks'')
          | None => None
          end
      end
  end.

Fixpoint run_schedule (schedule : list nat) (s : system) : option system :=
  match schedule with
  | [] => Some s
  | i :: schedule' =>
      match step_nth i (fst s) (snd s) with
      | Some s' => run_schedule schedule' s'
      | None => None
      end
  end.

(** Every request of the trace is sent at a moment when the task holds the
    semaphore, [depth] being the permits held at the start. *)
Fixpoint scoped (depth : nat) (evs : list event) : bool :=
  match evs with
  | [] => true
  | ev :: evs' =>
      match ev with
      | EvEnter (Semaphore _) => scoped (S depth) evs'
      | EvExit (Semaphore _) =>
          match depth with
          | O => false
          | S depth' => scoped depth' evs'
          end
      | EvRequest _ _ =>
          match depth with
          | O => false
          | S _ => scoped depth evs'
          end
      | _ => scoped depth evs'
      end
  end.

(** The largest number of requests of one trace that are in flight at once. *)
Fixpoint peak_in_flight (now : nat) (evs : list event) : nat :=
  match evs with
  | [] => now
  | EvRequest _ _ :: evs' => Nat.max now (peak_in_flight (S now) evs')
  | EvResponse _ :: evs' => Nat.max now (peak_in_flight (pred now) evs')
  | _ :: evs' => peak_in_flight now evs'
  end.

End Scheduler.

(* --------------------------------------------------------------------- *)
(** ** helpers.py: the JSON files *)

Module Storage.
Import Engine.

(** The files of the machine: the content of every path that is a file. *)
Definition disk : Type := string -> option bytes.

(** Closing a file that was opened with ['wb'] leaves [data] in it. *)
Definition write_file (path : string) (data : bytes) (d : disk) : disk :=
  fun p => if String.eqb p path then Some data else d p.

(** Iterating over a file opened with ['rb']: the lines, each with the
    newline that ends it; the last one may lack it. *)
Fixpoint readlines (data : bytes) : list bytes :=
  match data with
  | [] => []
  | b :: data' =>
      if Byte.eqb b x0a then [b] :: readlines data'
      else match readlines data' with
           | line :: lines => (b :: line) :: lines
           | [] => [[b]]
           end
  end.

Section Json.
Variables A B : Type.

(** What [open(path, 'wb')] raises, if it raises: the directory is missing,
    the path is a directory, permission is denied.  An opened file is
    created or truncated at once, and accepts what is written to it. *)
Variable open_wb : string -> option exn.

(** [open(path, 'rb')] and [reader.read()]. *)
Definition open_rb (path : string) (d : disk) : exn + bytes :=
  match d path with
  | Some data => inr data
  | None => inl (mk_exn FileNotFoundError None "No such file or directory")
  end.

(** helpers.py, lines 63-67. *)
Definition save_json (path : string) (content : A) (encoder : A -> exn + bytes)
    (d : disk) : (exn + unit) * disk :=
  match open_wb path with
  | Some e => (inl e, d)
  | None =>
      let d := write_file path [] d in            (* with open(path, 'wb') as writer *)
      match encoder content with
      | inl e => (inl e, d)
      | inr data => (inr tt, write_file path data d)      (* writer.write(...) *)
      end
  end.

(** helpers.py, lines 69-73. *)
Definition load_json (path : string) (decoder : bytes -> exn + B) (d : disk) : exn + B :=
  match open_rb path d with
  | inl e => inl e
  | inr data => decoder data
  end.

(** helpers.py, lines 75-79. *)
Definition load_jsonl (path : string) (decoder : bytes -> exn + B) (d : disk)
  : exn + list B :=
  match open_rb path d with
  | inl e => inl e
  | inr data => Sources.comprehension decoder (readlines data)
  end.

(** The loop of lines 85-87: what has been written when it ends, and the
    exception that ended it, if one did. *)
Fixpoint write_entries (content : list A) (encoder : A -> exn + bytes) (written : bytes)
  : (exn + unit) * bytes :=
  match content with
  | [] => (inr tt, written)
  | entry :: content' =>
      match encoder entry with
      | inl e => (inl e, written)
      | inr data => write_entries content' encoder (written ++ data ++ [x0a])
      end
  end.

(** helpers.py, lines 81-87. *)
Definition save_jsonl (path : string) (content : list A) (encoder : A -> exn + bytes)
    (d : disk) : (exn + unit) * disk :=
  match open_wb path with
  | Some e => (inl e, d)
  | None =>
      let (r, written) := write_entries content encoder [] in
      (r, write_file path written d)
  end.

End Json.
End Storage.

(* --------------------------------------------------------------------- *)
(** ** The scrapers: index requests and index rows *)

Module Indexing.
Import Engine Sources.

(** [f'{n}'] for an integer [n]. *)
Definition decimal (n : Z) : string := NilZero.string_of_int (Z.to_int n).

(** ['NoneType' object has no attribute ...]: what [re.search(...)] that
    found nothing raises when the code asks it for its groups. *)
Definition none_has_no (attribute : string) : exn :=
  mk_exn AttributeError None ("'NoneType' object has no attribute '" ++ attribute ++ "'").

(** *** western_australian_legislation.py *)

(** [string.ascii_lowercase], letter by letter. *)
Definition ascii_lowercase : list string :=
  ["a"; "b"; "c"; "d"; "e"; "f"; "g"; "h"; "i"; "j"; "k"; "l"; "m";
   "n"; "o"; "p"; "q"; "r"; "s"; "t"; "u"; "v"; "w"; "x"; "y"; "z"]%string.

(** Line 44: [self._jurisdiction]. *)
Definition wal_jurisdiction : string := "western_australia".

Section WesternAustralianIndex.
Variable env : environment.
Variable Request_of_str : string -> Request.
Variable self : Scraper.

Definition wal_index_url (type letter : string) : string :=
  "https://www.legislation.wa.gov.au/legislation/statutes.nsf/"
  ++ type ++ "if_" ++ letter ++ ".html".

(** Lines 58-67: [itertools.product({'acts', 'subs'}, string.ascii_lowercase)]. *)
Definition wal_get_index_reqs (w : world) : outcome (pyset Request) * world :=
  log "get_index_reqs"
    (Returned
       (flat_map
          (fun type =>
             map (fun letter => Request_of_str (wal_index_url type letter)) ascii_lowercase)
          ["acts"; "subs"]%string), w).

(** The [text] view of a response ([data.py]); the regular expressions of
    lines 86, 89, 92, 100 and 106, each with what it captures; and the date
    conversion of line 108, which raises for a date it cannot read. *)
Variable text : Response -> Helpers.str.
Variable entry_link : Helpers.str -> option (string * string).   (* doc_id, title *)
Variable docx_link : Helpers.str -> option string.               (* version_id *)
Variable row_date : Helpers.str -> option string.
Variable publication_date : Helpers.str -> option string.
Variable current_date : Helpers.str -> option string.
Variable reformat_date : string -> exn + string.

(** Lines 83-124. *)
Definition wal_get_entry (fuel : nat) (row : Helpers.str) (type : string) (w : world)
  : outcome Entry * world :=
  log "_get_entry"
    match entry_link row with
    | None => (Raised (none_has_no "groups"), w)
    | Some (doc_id, title) =>
        match docx_link row with
        | None => (Raised (none_has_no "group"), w)
        | Some version_id =>
            let finish (date : string) (w : world) : outcome Entry * world :=
              match reformat_date date with
              | inl e => (Raised e, w)
              | inr date =>
                  let req :=
                    Request_of_str
                      ("https://www.legislation.wa.gov.au/legislation/statutes.nsf/RedirectURL?OpenAgent&query="
                       ++ version_id ++ ".docx")%string in
                  let version_id := (version_id ++ "/" ++ doc_id)%string in
                  (Returned
                     (mk_Entry req version_id (source self) (Some type) wal_jurisdiction
                        (Some date) title), w)
              end in
            match row_date row with
            | Some date => finish date w
            | None =>
                (* the date isn't available: grab the document's status page *)
                match Engine.get env Request_of_str self fuel
                        (inr ("https://www.legislation.wa.gov.au/legislation/statutes.nsf/"
                              ++ doc_id ++ ".html")%string) w with
                | (Returned resp, w) =>
                    match publication_date (text resp) with
                    | Some date => finish date w
                    | None =>
                        match current_date (text resp) with
                        | Some date => finish date w
                        | None => (Raised (none_has_no "group"), w)
                        end
                    end
                | (Raised e, w) => (Raised e, w)
                | (Running, w) => (Running, w)
                end
            end
        end
    end.

End WesternAustralianIndex.

(** *** high_court_of_australia.py *)

Section HighCourtIndex.
Variable env : environment.
Variable Request_of_str : string -> Request.
Variable self : HighCourtOfAustralia.

(** The year in Canberra when [get_index_reqs] is called (line 81); the
    [text] view of a response ([data.py]); and the number that the pattern
    of line 101 finds in a page ([None] when it finds none). *)
Variable year : string.
Variable text : Response -> Helpers.str.
Variable last_item : Helpers.str -> option Z.

(** Line 85. *)
Definition base_serps : list string :=
  map (fun dataset_id =>
         ("https://eresources.hcourt.gov.au/search?col=" ++ decimal dataset_id
          ++ "&filter_4=0+TO+" ++ year)%string)
      (range 3)
  ++ [("https://eresources.hcourt.gov.au/historical/search?col=0&filter_4=0+TO+"
       ++ year)%string].

(** [range(1, pages + 1)]. *)
Definition page_numbers (pages : Z) : list Z := map (fun i => (1 + i)%Z) (range pages).

(** Lines 93-104, as [asyncio.gather] drives the coroutine: started, it
    runs until the request for the base page is in flight; resumed, it runs
    the rest. *)
Definition hca_base_serp_begin (base_serp : string) (w : world) : started * world :=
  get_begin env Request_of_str (hca_scraper self) (inr base_serp) w.

Definition hca_base_serp_finish (fuel : nat) (base_serp : string) (st : started) (w : world)
  : outcome (pyset Request) * world :=
  log "_get_index_reqs_from_base_serp"
    match get_finish env (hca_scraper self) fuel st w with
    | (Returned resp, w) =>
        match last_item (text resp) with
        | None => (Raised (none_has_no "group"), w)
        | Some pages =>
            (Returned
               (map (fun page => Request_of_str (base_serp ++ "&page=" ++ decimal page)%string)
                    (page_numbers pages)), w)
        end
    | (Raised e, w) => (Raised e, w)
    | (Running, w) => (Running, w)
    end.

(** A call on its own. *)
Definition hca_get_index_reqs_from_base_serp (fuel : nat) (base_serp : string) (w : world)
  : outcome (pyset Request) * world :=
  let (st, w) := hca_base_serp_begin base_serp w in
  hca_base_serp_finish fuel base_serp st w.

Fixpoint hca_begin_all (serps : list string) (w : world)
  : list (string * started) * world :=
  match serps with
  | [] => ([], w)
  | serp :: serps' =>
      let (st, w) := hca_base_serp_begin serp w in
      let (sts, w) := hca_begin_all serps' w in
      ((serp, st) :: sts, w)
  end.

Fixpoint hca_finish_all (fuel : nat) (sts : list (string * started)) (w : world)
  : outcome (list (pyset Request)) * world :=
  match sts with
  | [] => (Returned [], w)
  | (serp, st) :: sts' =>
      match hca_base_serp_finish fuel serp st w with
      | (Returned reqs, w) =>
          match hca_finish_all fuel sts' w with
          | (Returned rest, w) => (Returned (reqs :: rest), w)
          | other => other
          end
      | (Raised e, w) => (Raised e, leave_running sts' w)
      | (Running, w) => (Running, w)
      end
  end.

(** The calls that the gather has left running go on to their end; nobody
    awaits what they return or raise. *)
Fixpoint hca_resume_calls (fuel : nat) (calls : list left_call) (w : world) : world :=
  match calls with
  | [] => w
  | (serp, req, own, sid) :: calls' =>
      hca_resume_calls fuel calls'
        (snd (hca_base_serp_finish fuel serp (InFlight req own sid) w))
  end.

Definition hca_resume_left_running (fuel : nat) (w : world) : world :=
  hca_resume_calls fuel (w_left_running w) (forget_left_running w).

(** Lines 78-91: the four base pages are fetched at once
    ([asyncio.gather]), and the sets of requests united.  When the gather
    has raised, the calls it left running go on once [get_index_reqs] is
    over. *)
Definition hca_get_index_reqs (fuel : nat) (w : world) : outcome (pyset Request) * world :=
  let (r, w) :=
    log "get_index_reqs"
      (let (sts, w) := hca_begin_all base_serps w in
       match hca_finish_all fuel sts w with
       | (Returned index_reqs, w) => (Returned (concat index_reqs), w)
       | (Raised e, w) => (Raised e, w)
       | (Running, w) => (Running, w)
       end) in
  (r, hca_resume_left_running fuel w).

End HighCourtIndex.

End Indexing.

(* ===================================================================== *)
(** * Part II. Theorems                                                    *)
(* ===================================================================== *)

Module HelpersSpec.
Import Helpers.

Example batch_generator_ex :
  batch_generator [1; 2; 3; 4; 5; 6; 7]%nat 3 = ([[1; 2; 3]; [4; 5; 6]; [7]]%nat, None).
Proof. reflexivity. Qed.

(** With a batch size below one the first [islice] call raises. *)
Example batch_generator_zero :
  let r := batch_generator [1; 2]%nat 0 in
  fst r = [] /\ option_map exn_class (snd r) = Some ValueError.
Proof. split; reflexivity. Qed.

(** [islice] takes the items when [stop] is an index, and raises
    [ValueError] when it is not. *)
Lemma islice_index (A : Type) (iterator : list A) (stop : Z) :
  (0 <= stop <= sys_maxsize)%Z ->
  islice iterator stop = inr (firstn (Z.to_nat stop) iterator, skipn (Z.to_nat stop) iterator).
Proof.
  intros Hs. unfold islice.
  replace (stop =? -1)%Z with false by (symmetry; apply Z.eqb_neq; lia).
  replace (stop <? - sys_maxsize - 1)%Z with false by (symmetry; apply Z.ltb_ge; lia).
  replace (sys_maxsize <? stop)%Z with false by (symmetry; apply Z.ltb_ge; lia).
  replace (stop <? 0)%Z with false by (symmetry; apply Z.ltb_ge; lia).
  reflexivity.
Qed.

Lemma islice_no_index (A : Type) (iterator : list A) (stop : Z) :
  (stop < 0 \/ sys_maxsize < stop)%Z ->
  exists e, islice iterator stop = inl e /\ exn_class e = ValueError.
Proof.
  intros Hs. unfold islice.
  destruct ((stop =? -1) || (stop <? - sys_maxsize - 1) || (sys_maxsize <? stop))%Z eqn:E;
    [eexists; split; reflexivity|].
  apply orb_false_elim in E as [E E3]. apply orb_false_elim in E as [E1 E2].
  apply Z.ltb_ge in E3. replace (stop <? 0)%Z with true by (symmetry; apply Z.ltb_lt; lia).
  eexists; split; reflexivity.
Qed.

(** The unfolding equation of the generator for a batch size of at least
    one for which [batch_size - 1] is an index. *)
Lemma batch_generator_cons (A : Type) (first : A) (iterator : list A) (batch_size : Z) :
  (1 <= batch_size <= sys_maxsize + 1)%Z ->
  batch_generator (first :: iterator) batch_size =
  let k := Z.to_nat (batch_size - 1) in
  let r := batch_generator (skipn k iterator) batch_size in
  ((first :: firstn k iterator) :: fst r, snd r).
Proof.
  intros Hb. simp batch_generator.
  destruct (inspect (islice iterator (batch_size - 1))) as [[e|p] Hs];
    pose proof Hs as Hs'; rewrite islice_index in Hs' by lia; [discriminate|].
  injection Hs' as <-. reflexivity.
Qed.

(** When [batch_size - 1] is no index, nothing is yielded: an empty
    iterable ends the generator at once, any other makes [islice] raise. *)
Lemma batch_generator_no_index (A : Type) (iterable : list A) (batch_size : Z) :
  (batch_size < 1 \/ sys_maxsize + 1 < batch_size)%Z ->
  fst (batch_generator iterable batch_size) = [] /\
  match iterable with
  | [] => snd (batch_generator iterable batch_size) = None
  | _ :: _ => exists e, snd (batch_generator iterable batch_size) = Some e /\
                        exn_class e = ValueError
  end.
Proof.
  intros Hb. destruct iterable as [|first iterator].
  - simp batch_generator. split; reflexivity.
  - simp batch_generator.
    destruct (@islice_no_index A iterator (batch_size - 1)) as (e0 & He0 & Hc); [lia|].
    destruct (inspect (islice iterator (batch_size - 1))) as [[e|p] Hs];
      pose proof Hs as Hs'; rewrite He0 in Hs'; [|discriminate].
    injection Hs' as <-. simpl. split; [reflexivity|]. exists e0. split; [reflexivity | exact Hc].
Qed.

(** *** [clean_text]: what each regular expression does *)

Section RegexFacts.
Local Open Scope N_scope.

Definition all_ws (s : str) : bool := forallb is_space s.

(** Removal of the maximal run of whitespace at the end of a string. *)
Fixpoint rstrip (s : str) : str :=
  match s with
  | [] => []
  | x :: s' => if all_ws s then [] else x :: rstrip s'
  end.

(** Removal of everything from the first newline that only whitespace
    follows. *)
Fixpoint rstrip_blank (s : str) : str :=
  match s with
  | [] => []
  | x :: s' => if (x =? NL) && all_ws s' then [] else x :: rstrip_blank s'
  end.

(** The length of the match of [\s*\n] at the start of a string, if any. *)
Definition leading_blank (s : str) : option nat :=
  star CSpace (match_here [One (CLit NL)]) true s.

Lemma is_space_NL : is_space NL = true.
Proof. reflexivity. Qed.

Lemma sub_skip_all (pat : regex) (s : str) :
  forall (skip : nat) (at0 : bool),
    (length s <= skip)%nat -> sub_empty_from pat skip at0 s = [].
Proof.
  induction s as [|x s IH]; intros skip at0 Hlen; [reflexivity|].
  destruct skip as [|skip]; simpl in *; [lia|]. apply IH. lia.
Qed.

Lemma sub_skip_bol (pat : regex) (s : str) :
  forall skip : nat, sub_empty_from (Bol :: pat) skip false s = skipn skip s.
Proof.
  induction s as [|x s IH]; intros [|skip]; simpl; auto.
  f_equal. apply (IH O).
Qed.

(** [\s*$] from a given position: it matches exactly when only whitespace
    is left, and then it takes all of it. *)
Lemma star_ws_eol (s : str) :
  forall at0 : bool,
    star CSpace (match_here [Eol]) at0 s =
    if all_ws s then Some (length s) else None.
Proof.
  induction s as [|x s IH]; intros at0; [reflexivity|].
  simpl star. unfold all_ws in *. simpl forallb.
  destruct (is_space x) eqn:Hx; simpl.
  - rewrite IH. destruct (forallb is_space s) eqn:Hs; [reflexivity|].
    destruct s; [discriminate|reflexivity].
  - destruct s; [|reflexivity].
    destruct (x =? NL) eqn:E; [|reflexivity].
    apply N.eqb_eq in E. subst x. discriminate.
Qed.

(** [re.sub(r'\s+$', '', s)] strips the whitespace at the end of [s]. *)
Lemma sub_trailing_whitespace (s : str) :
  forall at0 : bool, sub_empty_from TRAILING_WHITESPACE_RE O at0 s = rstrip s.
Proof.
  induction s as [|x s IH]; intros at0; [reflexivity|].
  unfold TRAILING_WHITESPACE_RE in *. simpl sub_empty_from. simpl rstrip.
  unfold all_ws; simpl forallb. rewrite star_ws_eol. fold (all_ws s).
  destruct (is_space x); simpl.
  - destruct (all_ws s); simpl; [apply sub_skip_all; lia | f_equal; apply IH].
  - f_equal. apply IH.
Qed.

(** [END_..._RE.sub('', s)] cuts [s] at the first newline that only
    whitespace follows. *)
Lemma sub_end_blank (s : str) :
  forall at0 : bool,
    sub_empty_from END_OF_TEXT_THAT_IS_ONLY_WHITESPACE_PRECEDED_BY_A_NEWLINE_RE O at0 s
    = rstrip_blank s.
Proof.
  induction s as [|x s IH]; intros at0; [reflexivity|].
  unfold END_OF_TEXT_THAT_IS_ONLY_WHITESPACE_PRECEDED_BY_A_NEWLINE_RE in *.
  simpl sub_empty_from. simpl rstrip_blank. rewrite star_ws_eol.
  destruct (x =? NL); simpl.
  - destruct (all_ws s); simpl; [apply sub_skip_all; lia | f_equal; apply IH].
  - f_equal. apply IH.
Qed.

(** [START_..._RE.sub('', s)] deletes the match at the start of [s], the
    only place where [^] holds. *)
Lemma sub_start_blank (s : str) :
  sub_empty START_OF_TEXT_THAT_IS_ONLY_WHITESPACE_FOLLOWED_BY_A_NEWLINE_RE s =
  match leading_blank s with
  | Some n => skipn n s
  | None => s
  end.
Proof.
  unfold sub_empty, START_OF_TEXT_THAT_IS_ONLY_WHITESPACE_FOLLOWED_BY_A_NEWLINE_RE, leading_blank.
  destruct s as [|x s]; [simpl; reflexivity|].
  cbn [sub_empty_from].
  change (match_here [Bol; Star CSpace; One (CLit NL)] true (x :: s))
    with (star CSpace (match_here [One (CLit NL)]) true (x :: s)).
  destruct (star CSpace (match_here [One (CLit NL)]) true (x :: s)) as [[|n]|].
  - simpl. f_equal. apply (sub_skip_bol _ s O).
  - simpl. apply sub_skip_bol.
  - f_equal. apply (sub_skip_bol _ s O).
Qed.

(** [NON_STANDARD_CONTROL_CHARS_RE.sub('', s)] filters the five control
    characters out. *)
Definition is_non_standard_cc (c : char) : bool :=
  existsb (N.eqb c) [BEL; BS; FF; CR; VT].

Lemma sub_control_chars (s : str) :
  forall at0 : bool,
    sub_empty_from NON_STANDARD_CONTROL_CHARS_RE O at0 s =
    filter (fun c => negb (is_non_standard_cc c)) s.
Proof.
  induction s as [|x s IH]; intros at0; [reflexivity|].
  unfold NON_STANDARD_CONTROL_CHARS_RE in *. cbn [sub_empty_from filter].
  change (match_here [One (CSet [BEL; BS; FF; CR; VT])] at0 (x :: s))
    with (if is_non_standard_cc x then option_map S (Some O) else None).
  destruct (is_non_standard_cc x); simpl.
  - apply IH.
  - f_equal. apply IH.
Qed.

End RegexFacts.

(** *** [clean_text]: lines *)

Section LineFacts.
Local Open Scope N_scope.

Definition nl_free (line : str) : Prop := Forall (fun c => c <> NL) line.

(** A line does not end with a whitespace character. *)
Definition no_trailing_ws (line : str) : Prop :=
  forall (p : str) (c : char), line = p ++ [c] -> is_space c = false.

Definition good_line (line : str) : Prop := nl_free line /\ no_trailing_ws line.

Definition null (line : str) : bool :=
  match line with [] => true | _ => false end.

(** The lines without the empty lines at the front, and at the back. *)
Fixpoint drop_blank (lines : list str) : list str :=
  match lines with
  | [] => []
  | line :: lines' => if null line then drop_blank lines' else lines
  end.

Fixpoint drop_blank_end (lines : list str) : list str :=
  match lines with
  | [] => []
  | line :: lines' => if forallb null lines then [] else line :: drop_blank_end lines'
  end.

Lemma join_cons (line : str) (lines : list str) :
  lines <> [] -> join (line :: lines) = line ++ NL :: join lines.
Proof. destruct lines; [congruence|reflexivity]. Qed.

Lemma split_not_nil (t : str) : split t <> [].
Proof.
  induction t as [|c t IH]; simpl; [discriminate|].
  destruct (c =? NL); [discriminate|]. destruct (split t); discriminate.
Qed.

Lemma split_nl_free (t : str) : Forall nl_free (split t).
Proof.
  induction t as [|c t IH]; simpl.
  - repeat constructor.
  - destruct (c =? NL) eqn:E.
    + constructor; [constructor | exact IH].
    + apply N.eqb_neq in E. destruct (split t) as [|l ls].
      * repeat constructor. exact E.
      * inversion IH; subst. constructor; [constructor|]; assumption.
Qed.

Lemma split_app_nl (line t : str) :
  nl_free line -> split (line ++ NL :: t) = line :: split t.
Proof.
  induction 1 as [|c line Hc _ IH]; simpl; [reflexivity|].
  apply N.eqb_neq in Hc. rewrite Hc, IH. reflexivity.
Qed.

Lemma split_line (line : str) : nl_free line -> split line = [line].
Proof.
  induction 1 as [|c line Hc _ IH]; simpl; [reflexivity|].
  apply N.eqb_neq in Hc. rewrite Hc, IH. reflexivity.
Qed.

Lemma split_join (lines : list str) :
  lines <> [] -> Forall nl_free lines -> split (join lines) = lines.
Proof.
  induction lines as [|l [|l2 ls] IH]; intros Hne Hall; [congruence| |].
  - simpl. inversion Hall; subst. apply split_line. assumption.
  - inversion Hall; subst. rewrite join_cons by discriminate.
    rewrite split_app_nl by assumption. f_equal. apply IH; [discriminate|assumption].
Qed.

Lemma no_trailing_tail (x : char) (line : str) :
  no_trailing_ws (x :: line) -> no_trailing_ws line.
Proof. intros H p c ->. apply (H (x :: p) c). reflexivity. Qed.

Lemma all_ws_no_trailing (line : str) :
  no_trailing_ws line -> all_ws line = true -> line = [].
Proof.
  intros Hnt Hws. destruct line as [|x l]; [reflexivity|].
  destruct (exists_last (l := x :: l)) as [p [c Heq]]; [discriminate|].
  unfold all_ws in Hws. rewrite Heq, forallb_app in Hws.
  apply andb_true_iff in Hws as [_ Hc]. simpl in Hc.
  rewrite (Hnt p c Heq) in Hc. discriminate.
Qed.

Lemma all_ws_good (line : str) : good_line line -> all_ws line = null line.
Proof.
  intros [_ Hnt]. destruct (all_ws line) eqn:E.
  - rewrite (all_ws_no_trailing Hnt E). reflexivity.
  - destruct line; [discriminate|reflexivity].
Qed.

Lemma rstrip_nil (s : str) : rstrip s = [] -> all_ws s = true.
Proof.
  destruct s as [|x s]; [reflexivity|]. cbn [rstrip].
  destruct (all_ws (x :: s)); intros H; [reflexivity | discriminate H].
Qed.

Lemma rstrip_no_trailing (s : str) : no_trailing_ws (rstrip s).
Proof.
  induction s as [|x s IH]; intros p c Heq.
  - destruct p; discriminate.
  - cbn [rstrip] in Heq. destruct (all_ws (x :: s)) eqn:E.
    + destruct p; discriminate.
    + destruct p as [|y p]; simpl in Heq; injection Heq as Hx Hrest.
      * subst c. apply rstrip_nil in Hrest.
        unfold all_ws in *. simpl in E. rewrite Hrest, andb_true_r in E. exact E.
      * exact (IH p c Hrest).
Qed.

Lemma rstrip_fix (line : str) : no_trailing_ws line -> rstrip line = line.
Proof.
  induction line as [|x l IH]; intros Hnt; [reflexivity|].
  cbn [rstrip]. destruct (all_ws (x :: l)) eqn:E.
  - apply (all_ws_no_trailing Hnt) in E. discriminate.
  - f_equal. apply IH. exact (no_trailing_tail Hnt).
Qed.

Lemma rstrip_Forall (Q : char -> Prop) (s : str) : Forall Q s -> Forall Q (rstrip s).
Proof.
  induction 1 as [|x s Hx _ IH]; cbn [rstrip]; [constructor|].
  destruct (all_ws (x :: s)); constructor; assumption.
Qed.

Lemma rstrip_good (line : str) : nl_free line -> good_line (rstrip line).
Proof. intros H. split; [apply rstrip_Forall; exact H | apply rstrip_no_trailing]. Qed.

(** [\s*\n] finds nothing at the start of a non-empty line that ends in a
    character that is not whitespace. *)
Lemma leading_none (line t : str) :
  good_line line -> line <> [] -> (t = [] \/ exists t', t = NL :: t') ->
  forall at0 : bool, star CSpace (match_here [One (CLit NL)]) at0 (line ++ t) = None.
Proof.
  intros [Hnl Hnt] Hne Ht. induction line as [|x l IH]; [congruence|]. intros at0.
  inversion Hnl as [|? ? Hx Hl]; subst. apply N.eqb_neq in Hx.
  assert (Hk : match_here [One (CLit NL)] at0 ((x :: l) ++ t) = None).
  { simpl. rewrite Hx. reflexivity. }
  change ((x :: l) ++ t) with (x :: (l ++ t)) in *. cbn [star].
  destruct (cls_mem CSpace x) eqn:Hs; [|exact Hk].
  destruct l as [|y l].
  - simpl in Hs. rewrite (Hnt [] x eq_refl) in Hs. discriminate.
  - rewrite IH; [exact Hk | exact Hl | exact (no_trailing_tail Hnt) | discriminate].
Qed.

Lemma leading_join (lines : list str) :
  Forall good_line lines ->
  forall at0 : bool,
    match star CSpace (match_here [One (CLit NL)]) at0 (join lines) with
    | Some n => skipn n (join lines)
    | None => join lines
    end = join (drop_blank lines).
Proof.
  induction lines as [|line lines IH]; intros Hall at0; [reflexivity|].
  inversion Hall as [|? ? Hg Hrest]; subst. destruct line as [|x l].
  - destruct lines as [|l2 ls]; [reflexivity|].
    rewrite join_cons by discriminate. cbn [app drop_blank null star cls_mem].
    rewrite is_space_NL. specialize (IH Hrest false).
    destruct (star CSpace (match_here [One (CLit NL)]) false (join (l2 :: ls))) as [n|].
    + exact IH.
    + simpl. exact IH.
  - cbn [drop_blank null]. destruct lines as [|l2 ls].
    + cbn [join]. rewrite <- (app_nil_r (x :: l)) at 1.
      rewrite leading_none; auto; discriminate.
    + rewrite join_cons by discriminate.
      rewrite leading_none; eauto; discriminate.
Qed.

Lemma all_ws_join (lines : list str) :
  Forall good_line lines -> all_ws (join lines) = forallb null lines.
Proof.
  induction lines as [|line [|l2 ls] IH]; intros Hall; [reflexivity| |];
    inversion Hall as [|? ? Hg Hrest]; subst.
  - simpl. rewrite andb_true_r. apply all_ws_good. exact Hg.
  - rewrite join_cons by discriminate. unfold all_ws in *.
    rewrite forallb_app. cbn [forallb]. rewrite is_space_NL, IH by exact Hrest.
    fold (all_ws line). rewrite (all_ws_good Hg). reflexivity.
Qed.

Lemma rstrip_blank_app (line t : str) :
  nl_free line -> rstrip_blank (line ++ t) = line ++ rstrip_blank t.
Proof.
  induction 1 as [|c line Hc _ IH]; simpl; [reflexivity|].
  apply N.eqb_neq in Hc. rewrite Hc. simpl. f_equal. exact IH.
Qed.

Lemma drop_blank_end_nil (lines : list str) :
  forallb null lines = true -> drop_blank_end lines = [].
Proof. destruct lines; simpl; [reflexivity|]. intros ->. reflexivity. Qed.

Lemma drop_blank_end_not_nil (lines : list str) :
  forallb null lines = false -> drop_blank_end lines <> [].
Proof. destruct lines; simpl; [discriminate|]. intros ->. discriminate. Qed.

Lemma rstrip_blank_join (lines : list str) :
  Forall good_line lines -> rstrip_blank (join lines) = join (drop_blank_end lines).
Proof.
  induction lines as [|line [|l2 ls] IH]; intros Hall; [reflexivity| |];
    inversion Hall as [|? ? Hg Hrest]; subst.
  - cbn [join]. rewrite <- (app_nil_r line) at 1.
    rewrite rstrip_blank_app by apply Hg. simpl. rewrite app_nil_r.
    destruct line; reflexivity.
  - rewrite join_cons by discriminate. rewrite rstrip_blank_app by apply Hg.
    cbn [rstrip_blank]. rewrite N.eqb_refl, (all_ws_join Hrest). cbn [andb].
    change (drop_blank_end (line :: l2 :: ls))
      with (if null line && forallb null (l2 :: ls) then []
            else line :: drop_blank_end (l2 :: ls)).
    destruct (forallb null (l2 :: ls)) eqn:E.
    + rewrite app_nil_r. rewrite (drop_blank_end_nil _ E).
      destruct line; reflexivity.
    + rewrite andb_false_r.
      rewrite (@join_cons line (drop_blank_end (l2 :: ls)))
        by (apply drop_blank_end_not_nil; exact E).
      rewrite IH by exact Hrest. reflexivity.
Qed.

Lemma drop_blank_Forall (Q : str -> Prop) (lines : list str) :
  Forall Q lines -> Forall Q (drop_blank lines).
Proof.
  induction 1 as [|l ls Hl Hls IH]; simpl; [constructor|].
  destruct (null l); [exact IH | constructor; assumption].
Qed.

Lemma drop_blank_end_Forall (Q : str -> Prop) (lines : list str) :
  Forall Q lines -> Forall Q (drop_blank_end lines).
Proof.
  induction 1 as [|l ls Hl Hls IH]; [constructor|].
  cbn [drop_blank_end]. destruct (forallb null (l :: ls)); constructor; assumption.
Qed.

Lemma drop_blank_length (lines : list str) :
  (length (drop_blank lines) <= length lines)%nat.
Proof.
  induction lines as [|l ls IH]; simpl; [lia|]. destruct (null l); simpl; lia.
Qed.

Lemma drop_blank_idem (lines : list str) :
  drop_blank (drop_blank lines) = drop_blank lines.
Proof.
  induction lines as [|l ls IH]; [reflexivity|]. simpl.
  destruct (null l) eqn:E; [exact IH|]. simpl. rewrite E. reflexivity.
Qed.

Lemma forallb_null_drop_blank_end (lines : list str) :
  forallb null (drop_blank_end lines) = forallb null lines.
Proof.
  induction lines as [|l ls IH]; [reflexivity|]. cbn [drop_blank_end].
  destruct (forallb null (l :: ls)) eqn:E; [reflexivity|].
  cbn [forallb] in *. rewrite IH. exact E.
Qed.

Lemma drop_blank_end_idem (lines : list str) :
  drop_blank_end (drop_blank_end lines) = drop_blank_end lines.
Proof.
  induction lines as [|l ls IH]; [reflexivity|]. cbn [drop_blank_end].
  destruct (forallb null (l :: ls)) eqn:E; [reflexivity|].
  cbn [drop_blank_end]. cbn [forallb] in *.
  rewrite forallb_null_drop_blank_end, E, IH. reflexivity.
Qed.

Lemma drop_blank_of_end (lines : list str) :
  drop_blank lines = lines -> drop_blank (drop_blank_end lines) = drop_blank_end lines.
Proof.
  destruct lines as [|l ls]; [reflexivity|]. intros Hfix.
  assert (Hl : null l = false).
  { destruct (null l) eqn:E; [|reflexivity]. simpl in Hfix. rewrite E in Hfix.
    pose proof (drop_blank_length ls) as Hlen. rewrite Hfix in Hlen. simpl in Hlen. lia. }
  cbn [drop_blank_end forallb]. rewrite Hl. simpl. rewrite Hl. reflexivity.
Qed.

(** The lines of the cleaned text. *)
Definition canonical (t : str) : list str :=
  drop_blank_end (drop_blank (map rstrip (split t))).

Lemma rstrip_lines_good (t : str) : Forall good_line (map rstrip (split t)).
Proof.
  apply Forall_map. eapply Forall_impl; [|apply split_nl_free].
  intros line. apply rstrip_good.
Qed.

Lemma canonical_good (t : str) : Forall good_line (canonical t).
Proof.
  apply drop_blank_end_Forall, drop_blank_Forall, rstrip_lines_good.
Qed.

Lemma canonical_trimmed (t : str) :
  drop_blank (canonical t) = canonical t /\ drop_blank_end (canonical t) = canonical t.
Proof.
  unfold canonical. split.
  - apply drop_blank_of_end, drop_blank_idem.
  - apply drop_blank_end_idem.
Qed.

(** The three whitespace steps of [clean_text] (lines 127-133). *)
Lemma whitespace_steps (t : str) :
  sub_empty END_OF_TEXT_THAT_IS_ONLY_WHITESPACE_PRECEDED_BY_A_NEWLINE_RE
    (sub_empty START_OF_TEXT_THAT_IS_ONLY_WHITESPACE_FOLLOWED_BY_A_NEWLINE_RE
       (join (map (sub_empty TRAILING_WHITESPACE_RE) (split t))))
  = join (canonical t).
Proof.
  rewrite (map_ext (sub_empty TRAILING_WHITESPACE_RE) rstrip)
    by (intros; apply sub_trailing_whitespace).
  rewrite sub_start_blank. unfold leading_blank.
  rewrite (leading_join (rstrip_lines_good t)).
  unfold sub_empty. rewrite sub_end_blank.
  apply rstrip_blank_join, drop_blank_Forall, rstrip_lines_good.
Qed.

Definition no_nbsp (c : char) : Prop := c <> NBSP.
Definition ok_char (c : char) : Prop := c <> NBSP /\ is_non_standard_cc c = false.

Lemma replace_no_nbsp (t : str) : Forall no_nbsp (replace NBSP SPACE t).
Proof.
  induction t as [|c t IH]; simpl; constructor; auto.
  unfold no_nbsp. destruct (c =? NBSP) eqn:E; [discriminate|]. apply N.eqb_neq. exact E.
Qed.

Lemma replace_id (t : str) : Forall no_nbsp t -> replace NBSP SPACE t = t.
Proof.
  induction 1 as [|c t Hc _ IH]; simpl; [reflexivity|].
  apply N.eqb_neq in Hc. rewrite Hc, IH. reflexivity.
Qed.

Lemma filter_cc_ok (t : str) :
  Forall no_nbsp t -> Forall ok_char (filter (fun c => negb (is_non_standard_cc c)) t).
Proof.
  induction 1 as [|c t Hc _ IH]; simpl; [constructor|].
  destruct (is_non_standard_cc c) eqn:E; simpl; [exact IH|].
  constructor; [split; assumption | exact IH].
Qed.

Lemma filter_cc_id (t : str) :
  Forall ok_char t -> filter (fun c => negb (is_non_standard_cc c)) t = t.
Proof.
  induction 1 as [|c t [_ Hc] _ IH]; simpl; [reflexivity|].
  rewrite Hc. simpl. rewrite IH. reflexivity.
Qed.

Lemma split_Forall (Q : char -> Prop) (t : str) :
  Forall Q t -> Forall (Forall Q) (split t).
Proof.
  induction 1 as [|c t Hc _ IH]; simpl; [repeat constructor|].
  destruct (c =? NL); [constructor; [constructor | exact IH]|].
  destruct (split t) as [|l ls]; [repeat constructor; exact Hc|].
  inversion IH; subst. constructor; [constructor|]; assumption.
Qed.

Lemma join_Forall (Q : char -> Prop) (lines : list str) :
  Q NL -> Forall (Forall Q) lines -> Forall Q (join lines).
Proof.
  intros HNL. induction lines as [|l [|l2 ls] IH]; intros Hall;
    inversion Hall; subst; [constructor | assumption |].
  rewrite join_cons by discriminate. apply Forall_app. split; [assumption|].
  constructor; [exact HNL | apply IH; assumption].
Qed.

Lemma canonical_Forall (Q : char -> Prop) (t : str) :
  Forall Q t -> Forall (Forall Q) (canonical t).
Proof.
  intros H. apply drop_blank_end_Forall, drop_blank_Forall, Forall_map.
  eapply Forall_impl; [|apply split_Forall; exact H].
  intros line. apply rstrip_Forall.
Qed.

(** The cleaned text in closed form. *)
Lemma clean_text_canonical (fix_text : str -> str) (s : str) :
  clean_text fix_text s false true true true =
  join (canonical (filter (fun c => negb (is_non_standard_cc c)) (replace NBSP SPACE s))).
Proof.
  unfold clean_text. rewrite whitespace_steps.
  unfold sub_empty. rewrite sub_control_chars. reflexivity.
Qed.

(** A whitespace-only prefix that ends in a newline is found by [^\s*\n]. *)
Lemma leading_some (w r : str) :
  all_ws w = true ->
  forall at0 : bool, star CSpace (match_here [One (CLit NL)]) at0 (w ++ NL :: r) <> None.
Proof.
  induction w as [|x w IH]; intros Hws at0.
  - cbn [app star cls_mem]. rewrite is_space_NL.
    destruct (star CSpace (match_here [One (CLit NL)]) false r); discriminate.
  - unfold all_ws in *. simpl in Hws. apply andb_true_iff in Hws as [Hx Hw].
    change ((x :: w) ++ NL :: r) with (x :: (w ++ NL :: r)). cbn [star cls_mem].
    rewrite Hx. specialize (IH Hw false).
    destruct (star CSpace (match_here [One (CLit NL)]) false (w ++ NL :: r));
      [discriminate | congruence].
Qed.

(** A newline that only whitespace follows is cut by [\n\s*$]. *)
Lemma rstrip_blank_cut (r w : str) :
  all_ws w = true -> (length (rstrip_blank (r ++ NL :: w)) <= length r)%nat.
Proof.
  intros Hws. induction r as [|x r IH].
  - cbn [app rstrip_blank]. rewrite N.eqb_refl, Hws. simpl. lia.
  - change ((x :: r) ++ NL :: w) with (x :: (r ++ NL :: w)). cbn [rstrip_blank].
    destruct ((x =? NL) && all_ws (r ++ NL :: w)); simpl; lia.
Qed.

Lemma map_fix_Forall (A : Type) (f : A -> A) (l : list A) :
  Forall (fun x => f x = x) l -> map f l = l.
Proof. induction 1 as [|x l Hx _ IH]; simpl; [reflexivity|]. rewrite Hx, IH. reflexivity. Qed.

(** The cleaned text is a fixed point of the closed form. *)
Lemma canonical_join_fix (t : str) : canonical (join (canonical t)) = canonical t.
Proof.
  destruct (canonical_trimmed t) as [Hd He].
  pose proof (canonical_good t) as Hg.
  destruct (canonical t) as [|l ls] eqn:E; [reflexivity|].
  unfold canonical at 1. rewrite split_join; [|discriminate|].
  - rewrite map_fix_Forall.
    + rewrite Hd. exact He.
    + eapply Forall_impl; [|exact Hg]. intros line [_ Hnt]. apply rstrip_fix. exact Hnt.
  - eapply Forall_impl; [|exact Hg]. intros line [Hnl _]. exact Hnl.
Qed.

Lemma drop_blank_fix_head (line : str) (lines : list str) :
  drop_blank (line :: lines) = line :: lines -> null line = false.
Proof.
  intros Hfix. destruct (null line) eqn:E; [|reflexivity].
  simpl in Hfix. rewrite E in Hfix.
  pose proof (drop_blank_length lines) as Hlen. rewrite Hfix in Hlen. simpl in Hlen. lia.
Qed.

Lemma leading_none_join (lines : list str) :
  Forall good_line lines -> drop_blank lines = lines ->
  forall at0 : bool, star CSpace (match_here [One (CLit NL)]) at0 (join lines) = None.
Proof.
  intros Hg Hfix at0. destruct lines as [|l ls]; [reflexivity|].
  apply drop_blank_fix_head in Hfix. inversion Hg; subst.
  assert (Hne : l <> []) by (destruct l; [discriminate|discriminate]).
  destruct ls as [|l2 ls].
  - cbn [join]. rewrite <- (app_nil_r l). apply leading_none; auto.
  - rewrite join_cons by discriminate. apply leading_none; eauto.
Qed.

Lemma not_cc_not_in (c : char) :
  is_non_standard_cc c = false -> ~ In c [BEL; BS; FF; CR; VT].
Proof.
  intros H Hin. unfold is_non_standard_cc in H.
  assert (Ht : existsb (N.eqb c) [BEL; BS; FF; CR; VT] = true).
  { apply existsb_exists. exists c. split; [exact Hin | apply N.eqb_refl]. }
  congruence.
Qed.

(** C10.  With [fix_encoding=False] (and the other switches at their default
    [True]) the text [clean_text] returns holds no non-breaking space and none
    of the control characters BEL, BS, FF, CR and VT; none of its lines (as
    [split('\n')] cuts them) ends in whitespace; it does not start with a
    whitespace-only prefix that ends in a newline, nor end with a newline that
    only whitespace follows; and cleaning it again returns it unchanged. *)
Theorem clean_text_normal_form (fix_text : str -> str) (s : str) :
  let t := clean_text fix_text s false true true true in
  (forall c, In c t -> c <> NBSP /\ ~ In c [BEL; BS; FF; CR; VT]) /\
  (forall line, In line (split t) -> no_trailing_ws line) /\
  ~ (exists w r, t = w ++ NL :: r /\ all_ws w = true) /\
  ~ (exists r w, t = r ++ NL :: w /\ all_ws w = true) /\
  clean_text fix_text t false true true true = t.
Proof.
  cbn zeta. rewrite !clean_text_canonical.
  set (t2 := filter (fun c => negb (is_non_standard_cc c)) (replace NBSP SPACE s)).
  assert (Ht2 : Forall ok_char t2) by apply filter_cc_ok, replace_no_nbsp.
  assert (Hok : Forall ok_char (join (canonical t2))).
  { apply join_Forall; [split; [discriminate|reflexivity]|].
    apply canonical_Forall. exact Ht2. }
  pose proof (canonical_good t2) as Hg.
  destruct (canonical_trimmed t2) as [Hd He].
  split; [|split; [|split; [|split]]].
  - intros c Hin. rewrite Forall_forall in Hok. destruct (Hok c Hin) as [H1 H2].
    split; [exact H1 | apply not_cc_not_in; exact H2].
  - intros line Hin. destruct (canonical t2) as [|l ls] eqn:E.
    + simpl in Hin. destruct Hin as [<-|[]]. intros [|? ?] ? Heq; discriminate.
    + rewrite split_join in Hin; [|discriminate|].
      * rewrite Forall_forall in Hg. apply (Hg line Hin).
      * eapply Forall_impl; [|exact Hg]. intros ? [Hnl _]. exact Hnl.
  - intros (w & r & Heq & Hws).
    apply (@leading_some w r Hws true). rewrite <- Heq.
    apply leading_none_join; assumption.
  - intros (r & w & Heq & Hws).
    pose proof (@rstrip_blank_cut r w Hws) as Hcut. rewrite <- Heq in Hcut.
    rewrite (rstrip_blank_join Hg), He in Hcut.
    rewrite Heq in Hcut at 1. rewrite length_app in Hcut. simpl in Hcut. lia.
  - rewrite replace_id.
    + rewrite filter_cc_id by exact Hok. rewrite canonical_join_fix. reflexivity.
    + eapply Forall_impl; [|exact Hok]. intros c [H _]. exact H.
Qed.

(** The cleaning at work on [" \n  a \xa0\nb\r  \n\n \n"]. *)
Example clean_text_ex :
  clean_text (fun t => t)
    [32; 10; 32; 32; 97; 32; 160; 10; 98; 13; 32; 32; 10; 10; 32; 10] false true true true
  = [32; 32; 97; 10; 98].
Proof. reflexivity. Qed.

End LineFacts.

(** What a run of the generator must satisfy to be a partition of its input
    into batches of [batch_size]. *)
Definition is_partition (A : Type) (iterable : list A) (batch_size : Z)
    (batches : list (list A)) : Prop :=
  concat batches = iterable /\
  Forall (fun b => b <> [] /\ (Z.of_nat (length b) <= batch_size)%Z) batches /\
  (forall init final, batches = init ++ [final] ->
     Forall (fun b => Z.of_nat (length b) = batch_size) init) /\
  (iterable = [] -> batches = []).

Lemma batch_generator_partition_aux (A : Type) (batch_size : Z) :
  (1 <= batch_size <= sys_maxsize + 1)%Z ->
  forall (n : nat) (iterable : list A), (length iterable <= n)%nat ->
    snd (batch_generator iterable batch_size) = None /\
    is_partition iterable batch_size (fst (batch_generator iterable batch_size)).
Proof.
  intros Hb. induction n as [|n IH]; intros [|first iterator] Hlen; simpl in Hlen; try lia.
  1,2: simp batch_generator; repeat split; auto; simpl;
       intros [|? ?] ? Heq; simpl in Heq; discriminate.
  rewrite (batch_generator_cons _ _ Hb). cbn zeta.
  set (k := Z.to_nat (batch_size - 1)).
  destruct (IH (skipn k iterator)) as (Hnone & Hcat & Hall & Hfull & _).
  { rewrite length_skipn. lia. }
  set (r := batch_generator (skipn k iterator) batch_size) in *.
  simpl. split; [exact Hnone|]. repeat split.
  - simpl. rewrite Hcat. f_equal. apply firstn_skipn.
  - constructor; [|exact Hall]. split; [discriminate|].
    simpl length. pose proof (firstn_le_length k iterator). lia.
  - intros init final Heq. destruct init as [|b init]; [constructor|].
    simpl in Heq. injection Heq as Hb1 Hrest. constructor.
    + (* a batch that is followed by another one is full *)
      subst b. simpl length.
      destruct (Nat.le_gt_cases k (length iterator)) as [Hk|Hk].
      * rewrite firstn_length_le by exact Hk. lia.
      * (* the iterator ran dry: nothing is left for a further batch *)
        exfalso. rewrite skipn_all2 in Hcat by lia.
        pose proof (f_equal (@length _) Hcat) as Hl. rewrite Hrest in Hl.
        rewrite concat_app, length_app in Hl. simpl in Hl.
        rewrite Hrest in Hall. apply Forall_app in Hall as [_ Hfin].
        inversion Hfin as [|? ? [Hne _] _]; subst.
        destruct final; [congruence|]. simpl in Hl. lia.
    + eapply Hfull. exact Hrest.
  - discriminate.
Qed.

(** C9 (amended).  For a finite iterable and a batch size of at least one
    and at most [sys.maxsize + 1] (so that [batch_size - 1], the stop that
    [islice] is given, is an index), [batch_generator] runs to completion
    without raising and yields a partition of its input: the batches
    concatenate to the input in order, every batch is non-empty and holds at
    most [batch_size] items, every batch but the last holds exactly
    [batch_size] items, and an empty input yields no batch. *)
Theorem batch_generator_partition (A : Type) (iterable : list A) (batch_size : Z) :
  (1 <= batch_size <= sys_maxsize + 1)%Z ->
  snd (batch_generator iterable batch_size) = None /\
  is_partition iterable batch_size (fst (batch_generator iterable batch_size)).
Proof.
  intros Hb. apply batch_generator_partition_aux with (n := length iterable); auto.
Qed.

(** C9, as stated, fails for a batch size above [sys.maxsize + 1]: [islice]
    refuses the stop, so the generator raises [ValueError] before it has
    yielded anything, and the batches, none, are no partition of the
    input. *)
Lemma batch_generator_above_maxsize :
  let batch_size := 9223372036854775809%Z in
  let r := batch_generator [1; 2; 3]%nat batch_size in
  (1 <= batch_size)%Z /\ batch_size = (sys_maxsize + 2)%Z /\
  fst r = [] /\ option_map exn_class (snd r) = Some ValueError /\
  ~ is_partition [1; 2; 3]%nat batch_size (fst r).
Proof.
  cbn zeta. split; [lia|]. split; [reflexivity|].
  assert (E : fst (batch_generator [1; 2; 3]%nat 9223372036854775809) = [])
    by (vm_compute; reflexivity).
  split; [exact E|]. split; [vm_compute; reflexivity|].
  rewrite E. intros [Hcat _]. discriminate.
Qed.

Lemma batch_generator_partition_witness :
  snd (batch_generator [10; 20; 30; 40; 50]%Z 2) = None /\
  is_partition [10; 20; 30; 40; 50]%Z 2 (fst (batch_generator [10; 20; 30; 40; 50]%Z 2)).
Proof.
  apply (@batch_generator_partition Z [10; 20; 30; 40; 50]%Z 2). unfold sys_maxsize. lia.
Defined.

End HelpersSpec.

(* --------------------------------------------------------------------- *)
(** ** The backoff *)

Module BackoffSpec.
Import Engine.
Local Open Scope Q_scope.

(** The wait as the specification writes it (section 4.1), from the two
    random values already drawn. *)
Definition backoff_formula (b : Q) (n : Z) (maxWait maxJitter jitter extraJitter : Q) : Q :=
  Qmin (b ^ n / 2 + jitter) maxWait + extraJitter.

(** The two values [random.uniform] returns for the draws [u1] and [u2]. *)
Definition jitter_of (self : Scraper) (n : Z) (u1 : Q) : Q := (wait_base self ^ n / 2) * u1.
Definition extra_jitter_of (self : Scraper) (u2 : Q) : Q := max_extra_jitter self * u2.

(** A distribution of the pair of draws with finitely many outcomes, each
    with its probability.  ([random.random()] has 2^53 equally likely
    outcomes.) *)
Definition distribution : Type := list (Q * (Q * Q)).

Fixpoint total_weight (d : distribution) : Q :=
  match d with
  | [] => 0
  | (p, _) :: d' => p + total_weight d'
  end.

Definition is_distribution (d : distribution) : Prop :=
  Forall (fun o => 0 <= fst o /\ (0 <= fst (snd o) <= 1) /\ (0 <= snd (snd o) <= 1)) d /\
  total_weight d == 1.

Fixpoint expectation (d : distribution) (f : Q -> Q -> Q) : Q :=
  match d with
  | [] => 0
  | (p, (u1, u2)) :: d' => p * f u1 u2 + expectation d' f
  end.

(** The draws 0, 1/2 and 1 for each of the two values, equally likely. *)
Definition grid : distribution :=
  flat_map (fun u1 => map (fun u2 => (1 # 9, (u1, u2))) [0; 1 # 2; 1]) [0; 1 # 2; 1].

(** The loop draws its two values from the random source, in this order. *)
Lemma backoff_draws (env : environment) (self : Scraper) (attempt : Z) (w : world) :
  backoff env self attempt w =
  (backoff_wait self attempt (random env (w_draws w)) (random env (S (w_draws w))),
   mk_world (w_trace w) (w_clock w) (w_requests w) (w_extractions w)
            (S (S (w_draws w))) (w_closed w) (w_next_session w) (w_left_running w)).
Proof. reflexivity. Qed.

Lemma backoff_wait_formula (self : Scraper) (n : Z) (u1 u2 : Q) :
  backoff_wait self n u1 u2 ==
  backoff_formula (wait_base self) n (max_wait self) (max_extra_jitter self)
    (jitter_of self n u1) (extra_jitter_of self u2).
Proof.
  unfold backoff_wait, backoff_formula, jitter_of, extra_jitter_of.
  apply Qplus_comp; [|ring].
  assert (E : wait_base self ^ n / 2 + (0 + (wait_base self ^ n / 2 - 0) * u1)
              == wait_base self ^ n / 2 + wait_base self ^ n / 2 * u1) by ring.
  rewrite E. reflexivity.
Qed.

Lemma jitter_range (self : Scraper) (n : Z) (u1 : Q) :
  0 <= wait_base self ^ n -> 0 <= u1 <= 1 ->
  0 <= jitter_of self n u1 <= wait_base self ^ n / 2 /\
  wait_base self ^ n / 2 + jitter_of self n u1 <= wait_base self ^ n.
Proof.
  unfold jitter_of. generalize (wait_base self ^ n). intros a Ha [H0 H1].
  assert (Hh : a / 2 == a * (1 # 2)) by (unfold Qdiv; reflexivity).
  rewrite !Hh. repeat split; nra.
Qed.

Lemma backoff_wait_le_cap (self : Scraper) (n : Z) (u1 u2 : Q) :
  0 <= max_extra_jitter self -> 0 <= u2 <= 1 ->
  backoff_wait self n u1 u2 <= max_wait self + max_extra_jitter self.
Proof.
  intros HJ [H0 H1]. unfold backoff_wait.
  apply Qplus_le_compat; [apply Q.le_min_r|].
  generalize dependent (max_extra_jitter self). intros J HJ. nra.
Qed.

Lemma backoff_wait_mono (self : Scraper) (n : Z) (u1 u2 : Q) :
  1 <= wait_base self -> 0 <= u1 ->
  backoff_wait self n u1 u2 <= backoff_wait self (n + 1) u1 u2.
Proof.
  intros Hb Hu. unfold backoff_wait.
  apply Qplus_le_compat; [|apply Qle_refl].
  apply Q.min_le_compat_r.
  pose proof (@Qpower_le_compat_l (wait_base self) n (n + 1) ltac:(lia) Hb) as Hpow.
  revert Hpow. generalize (wait_base self ^ n) (wait_base self ^ (n + 1)). intros a a' Ha.
  assert (Hh : forall x, x / 2 == x * (1 # 2)) by (intros; unfold Qdiv; reflexivity).
  rewrite !Hh. nra.
Qed.

Lemma expectation_mono (d : distribution) (f g : Q -> Q -> Q) :
  Forall (fun o => 0 <= fst o /\ f (fst (snd o)) (snd (snd o)) <= g (fst (snd o)) (snd (snd o))) d ->
  expectation d f <= expectation d g.
Proof.
  induction 1 as [|[p [u1 u2]] d [Hp Hfg] _ IH]; simpl in *; [apply Qle_refl|].
  apply Qplus_le_compat; [|exact IH].
  rewrite !(Qmult_comm p). apply Qmult_le_compat_r; assumption.
Qed.

(** No draw is capped at attempt [n]: the cap has not been hit yet. *)
Definition uncapped (self : Scraper) (n : Z) : Prop :=
  wait_base self ^ n <= max_wait self.

(** A scraper whose backoff base has been set below one. *)
Definition shrinking : Scraper :=
  mk_Scraper "source" (Semaphore 30) None default_retry_exceptions [429%Z]
             (15 * 60) (2.5 * 60) 0.5 0.05.

(** C3, as stated, fails for a base below one: with base 0.5 the cap of 150
    seconds is never hit, and the expected wait falls from 0.4 seconds at the
    first attempt to 0.2125 seconds at the second. *)
Lemma backoff_expectation_decreases :
  is_distribution grid /\
  uncapped shrinking 1 /\ uncapped shrinking 2 /\
  expectation grid (backoff_wait shrinking 1) == 4 # 10 /\
  expectation grid (backoff_wait shrinking 2) == 2125 # 10000 /\
  ~ expectation grid (backoff_wait shrinking 1) <= expectation grid (backoff_wait shrinking (1 + 1)).
Proof.
  split; [split; [repeat constructor; simpl; discriminate | reflexivity]|].
  repeat split; try (vm_compute; discriminate); try reflexivity.
  vm_compute. intros H. apply H. reflexivity.
Qed.

(** C3 (amended).  For every attempt number [n >= 1], base, caps and draws
    [u1], [u2] in the unit interval, the wait is
    [min(b^n/2 + jitter, maxWait) + extraJitter] with [jitter = u1 * b^n/2]
    and [extraJitter = u2 * maxJitter], the latter added after the cap.  When
    [b^n >= 0], the jitter lies in [[0, b^n/2]] and [b^n/2 + jitter <= b^n].
    When [maxJitter >= 0], the extra jitter lies in [[0, maxJitter]] and the
    wait is at most [maxWait + maxJitter].  When the base is at least one,
    the wait does not decrease from attempt [n] to [n + 1] for equal draws,
    and so neither does its expectation under any distribution of the
    draws. *)
Theorem backoff_wait_spec (self : Scraper) (n : Z) (u1 u2 : Q) :
  (1 <= n)%Z -> 0 <= u1 <= 1 -> 0 <= u2 <= 1 ->
  backoff_wait self n u1 u2 ==
    backoff_formula (wait_base self) n (max_wait self) (max_extra_jitter self)
      (jitter_of self n u1) (extra_jitter_of self u2) /\
  (0 <= wait_base self ^ n ->
     0 <= jitter_of self n u1 <= wait_base self ^ n / 2 /\
     wait_base self ^ n / 2 + jitter_of self n u1 <= wait_base self ^ n) /\
  (0 <= max_extra_jitter self ->
     0 <= extra_jitter_of self u2 <= max_extra_jitter self /\
     backoff_wait self n u1 u2 <= max_wait self + max_extra_jitter self) /\
  (1 <= wait_base self ->
     backoff_wait self n u1 u2 <= backoff_wait self (n + 1) u1 u2 /\
     forall d : distribution, is_distribution d ->
       expectation d (backoff_wait self n) <= expectation d (backoff_wait self (n + 1))).
Proof.
  intros Hn Hu1 Hu2. split; [apply backoff_wait_formula|]. split; [|split].
  - intros Hb. apply jitter_range; assumption.
  - intros HJ. split; [|apply backoff_wait_le_cap; assumption].
    unfold extra_jitter_of. destruct Hu2 as [H0 H1].
    generalize dependent (max_extra_jitter self). intros J HJ. split; nra.
  - intros Hb. split; [apply backoff_wait_mono; tauto|].
    intros d [Hd _]. apply expectation_mono.
    eapply Forall_impl; [|exact Hd]. intros [p [v1 v2]] (Hp & [Hv1 _] & _). simpl in *.
    split; [exact Hp | apply backoff_wait_mono; assumption].
Qed.

Lemma backoff_wait_spec_witness :
  let self := Scraper_init "source" None None None None in
  wait_base self ^ 1 / 2 + jitter_of self 1 (1 # 2) <= wait_base self ^ 1 /\
  backoff_wait self 1 (1 # 2) (1 # 2) <= max_wait self + max_extra_jitter self /\
  expectation grid (backoff_wait self 1) <= expectation grid (backoff_wait self (1 + 1)).
Proof.
  cbn zeta.
  destruct (@backoff_wait_spec (Scraper_init "source" None None None None) 1 (1 # 2) (1 # 2))
    as (_ & H2 & H3 & H4).
  - lia.
  - split; discriminate.
  - split; discriminate.
  - split; [apply H2; discriminate|].
    split; [apply H3; discriminate|].
    apply H4; [discriminate|].
    split; [repeat constructor; simpl; discriminate | reflexivity].
Defined.

End BackoffSpec.

(* --------------------------------------------------------------------- *)
(** ** The fetch engine: [get] and [get_doc] *)

Module EngineSpec.
Import Engine BackoffSpec.
Local Open Scope Q_scope.

(** The scrapers the constructors of the sources build. *)
Definition constructed (self : Scraper) : Prop :=
  (exists source semaphore session retry_exceptions retry_statuses,
      self = Scraper_init source semaphore session retry_exceptions retry_statuses) \/
  (exists semaphore session,
      self = Sources.frl_scraper (Sources.FederalRegisterOfLegislation_init semaphore session)) \/
  (exists semaphore session,
      self = Sources.hca_scraper (Sources.HighCourtOfAustralia_init semaphore session)).

(** The seconds slept, in order. *)
Definition sleeps_of (evs : list event) : list Q :=
  flat_map (fun e => match e with EvSleep s => [s] | _ => [] end) evs.

Definition Qsum (l : list Q) : Q := fold_right Qplus 0 l.

Definition requests_of (evs : list event) : list nat :=
  flat_map (fun e => match e with EvRequest sid _ => [sid] | _ => [] end) evs.

Definition extractions_of (evs : list event) : nat :=
  length (filter (fun e => match e with EvExtract _ => true | _ => false end) evs).

Lemma sleeps_of_app (a b : list event) : sleeps_of (a ++ b) = sleeps_of a ++ sleeps_of b.
Proof. apply flat_map_app. Qed.

Lemma Qgt_bool_true (x y : Q) : Qgt_bool x y = true <-> y < x.
Proof.
  unfold Qgt_bool. rewrite negb_true_iff. split.
  - intros H. apply Qnot_le_lt. intros Hle. apply Qle_bool_iff in Hle. congruence.
  - intros H. destruct (Qle_bool x y) eqn:E; [|reflexivity].
    apply Qle_bool_iff in E. exfalso. exact (Qlt_not_le _ _ H E).
Qed.

Lemma Qgt_bool_false (x y : Q) : Qgt_bool x y = false <-> x <= y.
Proof.
  unfold Qgt_bool. rewrite negb_false_iff. apply Qle_bool_iff.
Qed.

Section Runs.
Variable env : environment.
Variable Request_of_str : string -> Request.
Variable self : Scraper.

(** What one exchange hands to the loop: the response, or the exception
    that reaches the [except] clause. *)
Definition exchange_result (req : Request) (x : exchange) : exn + Response :=
  match x with
  | RequestRaises e _ => inl e
  | Responds status reason content_type body _ =>
      if existsb (Z.eqb status) (retry_statuses self)
      then inl (mk_exn ClientResponseError (Some status) reason)
      else match body with
           | inl e => inl e
           | inr b => inr (mk_Response b (encoding req) content_type (Some status))
           end
  end.

Definition exchange_seconds (x : exchange) : Q :=
  match x with RequestRaises _ s => s | Responds _ _ _ _ s => s end.

(** The session the next attempt uses when it does not make its own. *)
Definition reused_session (w : world) : option nat :=
  match session self with
  | Some s => if is_closed w s then None else Some s
  | None => None
  end.

(** The effects of one attempt. *)
Definition attempt_events (req : Request) (w : world) : list event :=
  match reused_session w with
  | Some s =>
      [EvEnter (semaphore self); EvRequest s req; EvResponse s; EvExit (semaphore self)]
  | None =>
      let sid := w_next_session w in
      [EvEnter (semaphore self); EvSessionCreate sid; EvRequest sid req;
       EvResponse sid; EvSessionClose sid; EvExit (semaphore self)]
  end.

Lemma attempt_fetch_spec (req : Request) (w : world) :
  let x := transport env (w_requests w) in
  let w' := snd (attempt_fetch env self req w) in
  fst (attempt_fetch env self req w) = exchange_result req x /\
  w_trace w' = w_trace w ++ attempt_events req w /\
  w_clock w' = w_clock w + exchange_seconds x /\
  w_requests w' = S (w_requests w) /\
  w_extractions w' = w_extractions w /\
  w_draws w' = w_draws w /\
  match reused_session w with
  | Some s => w_closed w' = w_closed w /\ w_next_session w' = w_next_session w
  | None =>
      w_closed w' =
        w_next_session w
        :: filter (fun i => negb (Nat.eqb i (w_next_session w))) (w_closed w) /\
      w_next_session w' = S (w_next_session w)
  end.
Proof.
  unfold attempt_fetch, attempt_begin, attempt_end, attempt_events, reused_session,
    exchange_result.
  destruct (session self) as [s|];
    [change (is_closed (emit (EvEnter (semaphore self)) w) s) with (is_closed w s);
     destruct (is_closed w s)|]; simpl;
    repeat split; try reflexivity;
    try (rewrite <- ?app_assoc; reflexivity);
    destruct (transport env (w_requests w)) as [e ?|st reason ct [e|b] ?]; reflexivity.
Qed.

(** The world after [asyncio.sleep(wait)], two draws later. *)
Definition after_sleep (wait : Q) (w : world) : world :=
  mk_world (w_trace w ++ [EvSleep wait]) (w_clock w + wait) (w_requests w)
           (w_extractions w) (S (S (w_draws w))) (w_closed w) (w_next_session w)
           (w_left_running w).

(** The wait that follows the failure of attempt number [attempt]. *)
Definition next_wait (attempt : Z) (w : world) : Q :=
  backoff_wait self (attempt + 1) (random env (w_draws w)) (random env (S (w_draws w))).

(** The waits of [n] successive retries. *)
Fixpoint waits_from (n : nat) (attempt : Z) (draw : nat) : list Q :=
  match n with
  | O => []
  | S n' =>
      backoff_wait self (attempt + 1) (random env draw) (random env (S draw))
      :: waits_from n' (attempt + 1) (S (S draw))
  end.

(** *** The retry loop of the specification (section 4.3, step 3) *)

Section Retry.
Context {A : Type}.

(** One attempt, and the failures that are retried. *)
Variable action : world -> (exn + A) * world.
Variable retryable : exn -> bool.

Fixpoint retry_loop (fuel : nat) (attempt : Z) (elapsed : Q) (w : world)
  : outcome A * world :=
  match fuel with
  | O => (Running, w)
  | S fuel' =>
      let (r, w1) := action w in
      match r with
      | inr a => (Returned a, w1)
      | inl e =>
          if retryable e then
            if Qgt_bool elapsed (stop_after_waiting self) then (Raised e, w1)
            else
              let wait := next_wait attempt w1 in
              retry_loop fuel' (attempt + 1) (elapsed + wait) (after_sleep wait w1)
          else (Raised e, w1)
      end
  end.

(** An attempt adds effects, none of them a sleep, and leaves the random
    source alone.  Its result is the next entry of a script, [counter]
    telling how far the script has been read. *)
Variable script : nat -> exn + A.
Variable counter : world -> nat.

Hypothesis action_quiet : forall w,
  w_draws (snd (action w)) = w_draws w /\
  exists evs, w_trace (snd (action w)) = w_trace w ++ evs /\ sleeps_of evs = [].
Hypothesis action_script : forall w,
  fst (action w) = script (counter w) /\ counter (snd (action w)) = S (counter w).
Hypothesis counter_sleep : forall s w, counter (after_sleep s w) = counter w.

Definition finished (r : outcome A) : bool :=
  match r with Running => false | _ => true end.

(** The run of the loop, read off the waits it made.  Every retry was
    decided while the waits made before it added up to at most the
    ceiling; a retryable failure is raised only once they add up to more;
    the waits are the backoffs of attempts 1, 2, ... in order; there is
    one wait for each of the first attempts, all of which failed with a
    retryable failure; and the outcome of a finished run is that of the
    attempt after them. *)
Lemma retry_loop_run (fuel : nat) :
  forall (attempt : Z) (elapsed : Q) (w : world),
  exists evs,
    w_trace (snd (retry_loop fuel attempt elapsed w)) = w_trace w ++ evs /\
    (forall pre s post, sleeps_of evs = pre ++ s :: post ->
       elapsed + Qsum pre <= stop_after_waiting self) /\
    (forall e, fst (retry_loop fuel attempt elapsed w) = Raised e ->
       retryable e = true ->
       stop_after_waiting self < elapsed + Qsum (sleeps_of evs)) /\
    sleeps_of evs = waits_from (length (sleeps_of evs)) attempt (w_draws w) /\
    (forall i, (i < length (sleeps_of evs))%nat ->
       exists e, script (counter w + i) = inl e /\ retryable e = true) /\
    (if finished (fst (retry_loop fuel attempt elapsed w))
     then fst (retry_loop fuel attempt elapsed w)
            = of_result (script (counter w + length (sleeps_of evs))) /\
          counter (snd (retry_loop fuel attempt elapsed w))
            = S (counter w + length (sleeps_of evs))
     else length (sleeps_of evs) = fuel).
Proof.
  induction fuel as [|fuel IH]; intros attempt elapsed w.
  - exists []. simpl. rewrite app_nil_r. repeat split; try discriminate.
    + intros [|? ?] ? ? H; discriminate.
    + intros i Hi. lia.
  - cbn [retry_loop]. destruct (action_quiet w) as (Hdraws & evs0 & Htr & Hquiet).
    destruct (action_script w) as (Hres & Hcnt).
    destruct (action w) as [[e|a] w1] eqn:Ha; simpl in Htr, Hdraws, Hres, Hcnt.
    + destruct (retryable e) eqn:Hr.
      * destruct (Qgt_bool elapsed (stop_after_waiting self)) eqn:Hgt.
        -- exists evs0. simpl. rewrite Hquiet. simpl. rewrite Nat.add_0_r, <- Hres.
           repeat split; auto.
           ++ intros [|? ?] ? ? H; discriminate.
           ++ intros ? _ _. apply Qgt_bool_true in Hgt. simpl. lra.
           ++ intros i Hi. lia.
        -- apply Qgt_bool_false in Hgt.
           destruct (IH (attempt + 1)%Z (elapsed + next_wait attempt w1)
                        (after_sleep (next_wait attempt w1) w1))
             as (evs & Htr' & Hpre & Hraise & Hwaits & Hfail & Hfin).
           exists (evs0 ++ EvSleep (next_wait attempt w1) :: evs).
           assert (Hsl : sleeps_of (evs0 ++ EvSleep (next_wait attempt w1) :: evs)
                         = next_wait attempt w1 :: sleeps_of evs).
           { rewrite sleeps_of_app, Hquiet. reflexivity. }
           rewrite Hsl. rewrite counter_sleep, Hcnt in Hfail, Hfin.
           split; [|split; [|split; [|split; [|split]]]].
           ++ rewrite Htr'. simpl. rewrite Htr, <- !app_assoc. reflexivity.
           ++ intros [|p pre] s post Heq.
              ** simpl. lra.
              ** injection Heq as Hp Heq. subst p.
                 specialize (Hpre _ _ _ Heq). simpl. lra.
           ++ intros e' He' Hr'. specialize (Hraise e' He' Hr'). simpl. lra.
           ++ simpl. f_equal.
              ** unfold next_wait. rewrite Hdraws. reflexivity.
              ** rewrite Hwaits at 1. simpl. rewrite Hdraws. reflexivity.
           ++ intros [|i] Hi; simpl in Hi.
              ** exists e. rewrite Nat.add_0_r, <- Hres. auto.
              ** destruct (Hfail i ltac:(lia)) as (e' & He' & Hr').
                 exists e'. rewrite <- Nat.add_succ_comm. auto.
           ++ simpl length. rewrite <- Nat.add_succ_comm.
              destruct (finished _); [exact Hfin | f_equal; exact Hfin].
      * exists evs0. simpl. rewrite Hquiet. simpl. rewrite Nat.add_0_r, <- Hres.
        repeat split; auto.
        -- intros [|? ?] ? ? H; discriminate.
        -- intros e' He'. injection He' as <-. congruence.
        -- intros i Hi. lia.
    + exists evs0. simpl. rewrite Hquiet. simpl. rewrite Nat.add_0_r, <- Hres.
      repeat split; auto; try discriminate.
      * intros [|? ?] ? ? H; discriminate.
      * intros i Hi. lia.
Qed.

End Retry.

(** [get] and [get_doc] run this loop, each on its own attempts. *)
Lemma get_loop_retry_loop (fuel : nat) :
  forall (req : Request) (attempt : Z) (elapsed : Q) (w : world),
    get_loop env self fuel req attempt elapsed w =
    retry_loop (attempt_fetch env self req)
      (fun e => isinstance e (retry_exceptions self)) fuel attempt elapsed w.
Proof.
  induction fuel as [|fuel IH]; intros; [reflexivity|].
  cbn [get_loop retry_loop].
  destruct (attempt_fetch env self req w) as [[e|a] w1]; [|reflexivity].
  destruct (isinstance e (retry_exceptions self)); [|reflexivity].
  destruct (Qgt_bool elapsed (stop_after_waiting self)); [reflexivity|].
  rewrite backoff_draws. cbn zeta. apply IH.
Qed.

Lemma get_doc_loop_retry_loop (fuel : nat) :
  forall (entry : Entry) (attempt : Z) (elapsed : Q) (w : world),
    get_doc_loop env self fuel entry attempt elapsed w =
    retry_loop (_get_doc env entry) (fun e => isinstance e [ParseError])
      fuel attempt elapsed w.
Proof.
  induction fuel as [|fuel IH]; intros; [reflexivity|].
  cbn [get_doc_loop retry_loop].
  destruct (_get_doc env entry w) as [[e|a] w1]; [|reflexivity].
  destruct (isinstance e [ParseError]); [|reflexivity].
  destruct (Qgt_bool elapsed (stop_after_waiting self)); [reflexivity|].
  rewrite backoff_draws. cbn zeta. apply IH.
Qed.

Lemma attempt_fetch_quiet (req : Request) (w : world) :
  w_draws (snd (attempt_fetch env self req w)) = w_draws w /\
  exists evs, w_trace (snd (attempt_fetch env self req w)) = w_trace w ++ evs /\
              sleeps_of evs = [].
Proof.
  destruct (attempt_fetch_spec req w) as (_ & Htr & _ & _ & _ & Hd & _).
  split; [exact Hd|]. exists (attempt_events req w). split; [exact Htr|].
  unfold attempt_events. destruct (reused_session w); reflexivity.
Qed.

Lemma _get_doc_quiet (entry : Entry) (w : world) :
  w_draws (snd (_get_doc env entry w)) = w_draws w /\
  exists evs, w_trace (snd (_get_doc env entry w)) = w_trace w ++ evs /\
              sleeps_of evs = [].
Proof. split; [reflexivity|]. exists [EvExtract entry]. split; reflexivity. Qed.

(** The runs of the two loops. *)
Definition get_loop_run (fuel : nat) (req : Request) :=
  @retry_loop_run _ (attempt_fetch env self req)
    (fun e => isinstance e (retry_exceptions self))
    (fun n => exchange_result req (transport env n)) w_requests
    (attempt_fetch_quiet req)
    (fun w => conj (proj1 (attempt_fetch_spec req w))
                   (proj1 (proj2 (proj2 (proj2 (attempt_fetch_spec req w))))))
    (fun _ _ => eq_refl) fuel.

Definition get_doc_loop_run (fuel : nat) (entry : Entry) :=
  @retry_loop_run _ (_get_doc env entry) (fun e => isinstance e [ParseError])
    (extract env) w_extractions
    (_get_doc_quiet entry) (fun _ => conj eq_refl eq_refl) (fun _ _ => eq_refl) fuel.

(** The decorator changes neither the outcome nor the waits. *)
Lemma log_spec (A : Type) (func : string) (r : outcome A * world) :
  fst (log func r) = fst r /\
  exists evs, w_trace (snd (log func r)) = w_trace (snd r) ++ evs /\
              sleeps_of evs = [] /\ requests_of evs = [] /\
              Forall (fun ev => exists m, ev = EvWarning m) evs /\
              w_closed (snd (log func r)) = w_closed (snd r) /\
              w_extractions (snd (log func r)) = w_extractions (snd r).
Proof.
  destruct r as [[a|e|] w]; simpl.
  - split; [reflexivity|]. exists []. rewrite app_nil_r. repeat split. constructor.
  - destruct (issubclass (exn_class e) Exception_); simpl.
    + split; [reflexivity|]. exists [EvWarning (func ++ ": " ++ exn_message e)]. repeat split.
      constructor; [eauto | constructor].
    + split; [reflexivity|]. exists []. rewrite app_nil_r. repeat split. constructor.
  - split; [reflexivity|]. exists []. rewrite app_nil_r. repeat split. constructor.
Qed.

Lemma get_network (fuel : nat) (req : Request) (w : world) :
  String.eqb (method req) "open" = false ->
  get env Request_of_str self fuel (inl req) w =
  log "get" (get_loop env self fuel req 0%Z 0 w).
Proof. intros H. unfold get, get_undecorated. rewrite H. reflexivity. Qed.

(** Seconds are doubles in the code and exact rationals here.  Each wait
    and each [elapsed += wait] of the code is rounded, by at most one part
    in 2^53; for the scrapers that the constructors build (waits of at most
    150.05 s, at most 28 of them) the sum that the code keeps differs from
    the exact sum by less than a nanosecond.  What is stated about the
    ceiling is stated with a margin of a millisecond on either side, within
    which the rounding decides. *)
Definition rounding_margin : Q := 1 # 1000.


(** *** [get_doc] *)




End Runs.

(** *** [get_doc]: the retry on unparseable content *)



(** *** [get]: statuses, exception classes, sessions, local files *)

Section Get.
Variable env : environment.
Variable Request_of_str : string -> Request.
Variable self : Scraper.

Lemma get_loop_step (fuel : nat) (req : Request) (attempt : Z) (elapsed : Q) (w : world) :
  get_loop env self (S fuel) req attempt elapsed w =
  let w1 := snd (attempt_fetch env self req w) in
  match fst (attempt_fetch env self req w) with
  | inr response => (Returned response, w1)
  | inl e =>
      if isinstance e (retry_exceptions self) then
        if Qgt_bool elapsed (stop_after_waiting self) then (Raised e, w1)
        else get_loop env self fuel req (attempt + 1)
               (elapsed + next_wait env self attempt w1)
               (after_sleep (next_wait env self attempt w1) w1)
      else (Raised e, w1)
  end.
Proof.
  cbn [get_loop]. destruct (attempt_fetch env self req w) as [[e|a] w1]; [|reflexivity].
  cbn [fst snd]. destruct (isinstance e (retry_exceptions self)); [|reflexivity].
  destruct (Qgt_bool elapsed (stop_after_waiting self)); [reflexivity|].
  rewrite backoff_draws. reflexivity.
Qed.

(** A response that is handed to the loop does not have a retryable
    status. *)
Lemma exchange_result_status (req : Request) (x : exchange) (resp : Response) :
  exchange_result self req x = inr resp ->
  exists status, resp_status resp = Some status /\
                 existsb (Z.eqb status) (retry_statuses self) = false.
Proof.
  destruct x as [e secs|status reason ct [e|b] secs]; simpl; try discriminate.
  - destruct (existsb (Z.eqb status) (retry_statuses self)); discriminate.
  - destruct (existsb (Z.eqb status) (retry_statuses self)) eqn:E; [discriminate|].
    intros H. injection H as <-. exists status. split; [reflexivity | exact E].
Qed.

(** What the network path of [get] does with statuses and exceptions: a
    response whose status is in [retry_statuses] is never returned; the
    attempt raises a [ClientResponseError] that carries the status, and this
    error is handled like any other exception of the attempt, so it is
    retried exactly when [ClientResponseError] or one of its base classes is
    in [retry_exceptions], as it is unless the caller passes another tuple.
    An exception that is an instance of a class in [retry_exceptions] is
    retried (until the ceiling); every other exception is raised to the
    caller by the attempt that met it, after as many waits as there were
    retryable failures before it: none when it is the first. *)
Theorem get_retries_by_exception_class (fuel : nat) (req : Request) (w : world) :
  String.eqb (method req) "open" = false ->
  (forall resp, fst (get env Request_of_str self fuel (inl req) w) = Returned resp ->
     exists status, resp_status resp = Some status /\
                    existsb (Z.eqb status) (retry_statuses self) = false) /\
  (forall w0 status reason content_type body seconds,
     transport env (w_requests w0) = Responds status reason content_type body seconds ->
     existsb (Z.eqb status) (retry_statuses self) = true ->
     fst (attempt_fetch env self req w0)
       = inl (mk_exn ClientResponseError (Some status) reason)) /\
  (forall status reason,
     isinstance (mk_exn ClientResponseError (Some status) reason) (retry_exceptions self)
       = existsb (issubclass ClientResponseError) (retry_exceptions self)) /\
  (forall source semaphore session statuses,
     existsb (issubclass ClientResponseError)
       (retry_exceptions (Scraper_init source semaphore session None statuses)) = true) /\
  (forall attempt elapsed w0 e,
     fst (attempt_fetch env self req w0) = inl e ->
     let w1 := snd (attempt_fetch env self req w0) in
     get_loop env self (S fuel) req attempt elapsed w0 =
     if isinstance e (retry_exceptions self) then
       if Qgt_bool elapsed (stop_after_waiting self) then (Raised e, w1)
       else get_loop env self fuel req (attempt + 1)
              (elapsed + next_wait env self attempt w1)
              (after_sleep (next_wait env self attempt w1) w1)
     else (Raised e, w1)) /\
  exists evs,
    w_trace (snd (get env Request_of_str self fuel (inl req) w)) = w_trace w ++ evs /\
    (forall i, (i < length (sleeps_of evs))%nat ->
       exists e, exchange_result self req (transport env (w_requests w + i)) = inl e /\
                 isinstance e (retry_exceptions self) = true) /\
    (if finished (fst (get env Request_of_str self fuel (inl req) w))
     then fst (get env Request_of_str self fuel (inl req) w)
            = of_result (exchange_result self req
                           (transport env (w_requests w + length (sleeps_of evs))))
     else length (sleeps_of evs) = fuel).
Proof.
  intros Hm.
  assert (Hrun : exists evs,
    w_trace (snd (get env Request_of_str self fuel (inl req) w)) = w_trace w ++ evs /\
    (forall i, (i < length (sleeps_of evs))%nat ->
       exists e, exchange_result self req (transport env (w_requests w + i)) = inl e /\
                 isinstance e (retry_exceptions self) = true) /\
    (if finished (fst (get env Request_of_str self fuel (inl req) w))
     then fst (get env Request_of_str self fuel (inl req) w)
            = of_result (exchange_result self req
                           (transport env (w_requests w + length (sleeps_of evs))))
     else length (sleeps_of evs) = fuel)).
  { rewrite (get_network env Request_of_str self fuel req w Hm).
    destruct (log_spec "get" (get_loop env self fuel req 0%Z 0 w))
      as (Hfst & wevs & Htr & Hws & _).
    rewrite Hfst, Htr. rewrite get_loop_retry_loop.
    destruct (get_loop_run env self fuel req 0%Z 0 w)
      as (evs & Htr' & _ & _ & _ & Hfail & Hfin).
    exists (evs ++ wevs). rewrite Htr', <- app_assoc, sleeps_of_app, Hws, app_nil_r.
    split; [reflexivity|]. split; [exact Hfail|].
    destruct (finished _); [exact (proj1 Hfin) | exact Hfin]. }
  split; [|split; [|split; [|split; [|split]]]].
  - intros resp Hret. destruct Hrun as (evs & _ & _ & Hfin).
    rewrite Hret in Hfin. simpl in Hfin.
    destruct (exchange_result self req _) as [e|r] eqn:E; [discriminate|].
    injection Hfin as ->. exact (exchange_result_status _ _ E).
  - intros w0 status reason ct body secs Hx Hst.
    rewrite (proj1 (attempt_fetch_spec env self req w0)), Hx. simpl. rewrite Hst.
    reflexivity.
  - reflexivity.
  - reflexivity.
  - intros attempt elapsed w0 e He. rewrite get_loop_step. cbn zeta. rewrite He.
    reflexivity.
  - exact Hrun.
Qed.

(** C4.  A status that the caller lists in [retry_statuses] is retried only
    if the caller's [retry_exceptions] also cover [ClientResponseError]: the
    status check of lines 175-183 raises that error for the [except] clause
    to catch, and the clause catches [retry_exceptions] alone.  When they do
    not cover it, the first response with such a status ends the call: the
    error is raised to the caller after one request and no wait. *)
Theorem get_status_needs_exception_class (fuel : nat) (req : Request) (w : world)
    (status : Z) (reason : string) (content_type : option string) (body : exn + bytes)
    (seconds : Q) :
  String.eqb (method req) "open" = false ->
  transport env (w_requests w) = Responds status reason content_type body seconds ->
  existsb (Z.eqb status) (retry_statuses self) = true ->
  existsb (issubclass ClientResponseError) (retry_exceptions self) = false ->
  let r := get env Request_of_str self (S fuel) (inl req) w in
  fst r = Raised (mk_exn ClientResponseError (Some status) reason) /\
  w_requests (snd r) = S (w_requests w) /\
  exists evs, w_trace (snd r) = w_trace w ++ evs /\ sleeps_of evs = [].
Proof.
  intros Hm Hx Hst Hcls. cbn zeta.
  rewrite (get_network env Request_of_str self (S fuel) req w Hm).
  rewrite get_loop_step. cbn zeta.
  destruct (attempt_fetch_spec env self req w) as (Hres & _ & _ & Hreq & _).
  destruct (attempt_fetch_quiet env self req w) as (_ & evs & Htr & Hquiet).
  rewrite Hres, Hx. cbn [exchange_result]. rewrite Hst.
  change (isinstance (mk_exn ClientResponseError (Some status) reason) (retry_exceptions self))
    with (existsb (issubclass ClientResponseError) (retry_exceptions self)).
  rewrite Hcls.
  set (w1 := snd (attempt_fetch env self req w)) in *.
  split; [reflexivity|]. split; [exact Hreq|].
  exists (evs ++ [EvWarning ("get" ++ ": " ++ reason)]). split.
  - simpl. rewrite Htr, <- app_assoc. reflexivity.
  - rewrite sleeps_of_app, Hquiet. reflexivity.
Qed.

(** C5: what the method [open] does.  When the file exists, [get] opens it,
    reads it, closes it and raises a [TypeError], because [reader.read()]
    of a file opened with the built-in [open] returns the bytes themselves
    and [await] refuses them.  Nothing else happens: no gate, no session, no
    request, no wait. *)
Theorem get_open_raises_type_error (fuel : nat) (req : Request) (w : world)
    (data : bytes) :
  String.eqb (method req) "open" = true ->
  files env (path req) = inr data ->
  exists e m,
    exn_class e = TypeError /\
    fst (get env Request_of_str self fuel (inl req) w) = Raised e /\
    w_trace (snd (get env Request_of_str self fuel (inl req) w)) =
      w_trace w ++ [EvFileOpen (path req); EvFileClose (path req); EvWarning m].
Proof.
  intros Hm Hf. unfold get, get_undecorated, get_open. rewrite Hm, Hf. simpl.
  eexists. eexists. split; [|split]; [| reflexivity |];
    [reflexivity | rewrite <- !app_assoc; reflexivity].
Qed.

(** *** Sessions *)










End Get.

(** *** Examples and counterexamples *)

Definition example_request : Request := mk_Request "https://example.org/index" "get" None [].
Definition request_of_str (s : string) : Request := mk_Request s "get" None [].
Definition base_scraper : Scraper := Scraper_init "source" None None None None.
Definition timeout : exn := mk_exn TimeoutError None "".
Definition ok_body : bytes := [x68; x69]%byte.

(** The ceiling is 900 seconds unless a subclass changes it. *)
Lemma default_ceiling : stop_after_waiting base_scraper == 900.
Proof. reflexivity. Qed.

(** A server that lets four requests in a row time out after 300 seconds
    (the default total timeout of aiohttp) and then answers. *)
Definition four_timeouts : environment :=
  mk_environment no_files
    (fun n => if (n <? 4)%nat then RequestRaises timeout 300
              else Responds 200 "OK" None (inr ok_body) 1)
    (fun _ => inr None)
    (fun _ => 1 # 2).



(** **** [get_doc] *)

Definition example_entry : Entry :=
  mk_Entry example_request "C2004A00001" "source" (Some "primary_legislation"%string)
           "commonwealth" (Some "2004-01-01"%string) "An Act".



(** **** Statuses and exception classes *)

(** A scraper that is told to retry on timeouts only, and on status 429. *)
Definition timeouts_only : Scraper :=
  Scraper_init "source" None None (Some [TimeoutError]) (Some [429%Z]).

Definition too_many_requests : environment :=
  mk_environment no_files
    (fun _ => Responds 429 "Too Many Requests" None (inr ok_body) 1)
    (fun _ => inr None) (fun _ => 1 # 2).

(** The scraper is told to retry on status 429, and the first 429 it meets
    goes to the caller at once, after one request and no wait. *)
Lemma get_status_needs_exception_class_witness :
  let r := get too_many_requests request_of_str timeouts_only 5 (inl example_request)
             (initial_world false) in
  existsb (Z.eqb 429) (retry_statuses timeouts_only) = true /\
  fst r = Raised (mk_exn ClientResponseError (Some 429%Z) "Too Many Requests") /\
  w_requests (snd r) = 1%nat /\
  exists evs, w_trace (snd r) = [] ++ evs /\ sleeps_of evs = [].
Proof.
  split; [reflexivity|].
  exact (@get_status_needs_exception_class too_many_requests request_of_str timeouts_only 4
           example_request (initial_world false) 429%Z "Too Many Requests" None (inr ok_body) 1
           eq_refl eq_refl eq_refl eq_refl).
Defined.

Lemma get_retries_by_exception_class_witness :
  String.eqb (method example_request) "open" = false /\
  exists status,
    resp_status (mk_Response ok_body None None (Some 200%Z)) = Some status /\
    existsb (Z.eqb status) (retry_statuses base_scraper) = false.
Proof.
  split; [reflexivity|].
  destruct (@get_retries_by_exception_class four_timeouts request_of_str base_scraper 5
              example_request (initial_world false) eq_refl) as [Hret _].
  apply Hret. vm_compute. reflexivity.
Defined.

(** **** Local files *)

Definition fixture_request : Request := mk_Request "/tmp/fixture.html" "open" (Some "utf-8"%string) [].

Definition with_fixture : environment :=
  mk_environment
    (fun p => if String.eqb p "/tmp/fixture.html" then inr ok_body else no_files p)
    (fun _ => Responds 200 "OK" None (inr ok_body) 1)
    (fun _ => inr None) (fun _ => 1 # 2).

Lemma get_open_raises_type_error_witness :
  exists e m,
    exn_class e = TypeError /\
    fst (get with_fixture request_of_str base_scraper 5 (inl fixture_request)
           (initial_world false)) = Raised e /\
    w_trace (snd (get with_fixture request_of_str base_scraper 5 (inl fixture_request)
                    (initial_world false))) =
      [EvFileOpen "/tmp/fixture.html"; EvFileClose "/tmp/fixture.html"; EvWarning m].
Proof.
  exact (@get_open_raises_type_error with_fixture request_of_str base_scraper 5
           fixture_request (initial_world false) ok_body eq_refl eq_refl).
Defined.

(** **** Sessions *)

(** A scraper that was given session 0 by its caller. *)
Definition with_session : Scraper := Scraper_init "source" None (Some 0%nat) None None.


(** With the caller's session closed, or none, each attempt has its own. *)
Example get_makes_own_sessions :
  requests_of (w_trace (snd (get four_timeouts request_of_str with_session 5
                               (inl example_request) (initial_world true))))
    = [1; 2; 3; 4; 5]%nat /\
  w_closed (snd (get four_timeouts request_of_str with_session 5
                   (inl example_request) (initial_world true)))
    = [5; 4; 3; 2; 1; 0]%nat.
Proof. split; reflexivity. Qed.

End EngineSpec.

(* --------------------------------------------------------------------- *)
(** ** The scrapers: empty index pages *)

Module SourcesSpec.
Import Engine EngineSpec Sources Scheduler.
Local Open Scope Q_scope.

Lemma log_fst (A : Type) (func : string) (r : outcome A * world) :
  fst (log func r) = fst r.
Proof. apply log_spec. Qed.

Lemma with_gate_fst (A : Type) (g : gate) (body : world -> outcome A * world) (w : world) :
  fst (with_gate g body w) = fst (body (emit (EvEnter g) w)).
Proof.
  unfold with_gate. destruct (body (emit (EvEnter g) w)) as [[a|e|] w1]; reflexivity.
Qed.

Lemma comprehension_not_nil (A B : Type) (f : A -> exn + B) (l : list A) (ys : list B) :
  l <> [] -> comprehension f l = inr ys -> ys <> [].
Proof.
  destruct l as [|x l]; [congruence|]. intros _. simpl.
  destruct (f x) as [e|y]; [discriminate|].
  destruct (comprehension f l) as [e|ys']; [discriminate|].
  intros H. injection H as <-. discriminate.
Qed.

(** The text of a response whose bytes are ASCII. *)
Definition ascii_text (resp : Response) : Helpers.str :=
  map (fun b => N.of_nat (Byte.to_nat b)) (content resp).

(** An index page of the Western Australian database on which no title is
    found: the table has its header row and nothing else. *)
Definition header_only_page : bytes :=
  list_byte_of_string "<table><tr><th>Title</th><th>Date</th></tr></table>".

Definition serves_header_only : environment :=
  mk_environment no_files
    (fun _ => Responds 200 "OK" (Some "text/html"%string) (inr header_only_page) 1)
    (fun _ => inr None) (fun _ => 1 # 2).

(** The index of the Acts whose titles begin with the letter a, one of the
    requests of [get_index_reqs] (lines 61-67). *)
Definition wal_index_request : Request :=
  mk_Request "https://www.legislation.wa.gov.au/legislation/statutes.nsf/actsif_a.html"
             "get" None [].

(** [_get_entry] is not reached on such a page; here it would raise. *)
Definition no_entry (row : Helpers.str) (type : string) (w : world) : outcome Entry * world :=
  (Raised (mk_exn AttributeError None "'NoneType' object has no attribute 'groups'"), w).

(** The check of the Federal Register: [get_index] raises an [Exception]
    when the page it fetched holds zero entries (lines 139-140), and a set
    it returns is never empty. *)
Lemma frl_get_index_on_empty_page
    (env : environment) (Request_of_str : string -> Request) (fuel : nat)
    (req : Request) (w : world) (self : FederalRegisterOfLegislation)
    (json_value : Response -> exn + list frl_item) :
  (forall resp w1,
     frl_get env Request_of_str self fuel (inl req)
       (emit (EvEnter (frl_semaphore self)) w) = (Returned resp, w1) ->
     json_value resp = inr [] ->
     exists e, fst (frl_get_index env Request_of_str self json_value fuel req w)
                 = Raised e /\ exn_class e = Exception_) /\
  (forall entries,
     fst (frl_get_index env Request_of_str self json_value fuel req w)
       = Returned entries -> entries <> []).
Proof.
  split.
  - intros resp w1 Hget Hjson. unfold frl_get_index.
    rewrite log_fst, with_gate_fst, Hget, Hjson. simpl. eexists. split; reflexivity.
  - intros entries. unfold frl_get_index. rewrite log_fst, with_gate_fst.
    destruct (frl_get env Request_of_str self fuel (inl req)
                (emit (EvEnter (frl_semaphore self)) w)) as [[resp|e|] w1];
      try discriminate.
    destruct (json_value resp) as [e|value]; [discriminate|].
    destruct value as [|item value]; [discriminate|]. cbn [length Nat.eqb fst].
    destruct (comprehension (frl_entry Request_of_str self) (item :: value))
      as [e|es] eqn:E; [discriminate|].
    intros H. injection H as <-.
    eapply comprehension_not_nil; [|exact E]. discriminate.
Qed.

(** A page of the Federal Register without results. *)
Definition serves_no_results : environment :=
  mk_environment no_files
    (fun _ => Responds 200 "OK" (Some "application/json"%string)
                (inr [x7b; x22; x76; x61; x6c; x75; x65; x22; x3a; x5b; x5d; x7d]%byte) 1)
    (fun _ => inr None) (fun _ => 1 # 2).

Example frl_get_index_on_empty_page_ex :
  exists e,
    fst (frl_get_index serves_no_results request_of_str
           (FederalRegisterOfLegislation_init None None) (fun _ => inr []) 5
           example_request (initial_world false)) = Raised e /\
    exn_class e = Exception_.
Proof.
  destruct (@frl_get_index_on_empty_page serves_no_results request_of_str 5 example_request
              (initial_world false) (FederalRegisterOfLegislation_init None None)
              (fun _ => inr [])) as (H1 & _).
  eapply H1; [|reflexivity]. vm_compute. reflexivity.
Qed.

(** C6.  The Western Australian and the High Court scrapers lack the check
    that the Federal Register makes: when the index page was fetched and
    holds no row after the header row, or no case link, their [get_index]
    returns the empty set; nothing is raised, and (the decorator reports
    exceptions only) nothing is logged. *)
Theorem get_index_returns_empty_set
    (env : environment) (Request_of_str : string -> Request) (fuel : nat)
    (req : Request) (w w1 : world) (resp : Response) (text : Response -> Helpers.str) :
  (forall (self : Scraper) _get_entry,
     Engine.get env Request_of_str self fuel (inl req) w = (Returned resp, w1) ->
     tl (findall_tr (text resp)) = [] ->
     wal_get_index env Request_of_str self text _get_entry fuel req w
       = (Returned [], w1)) /\
  (forall (self : HighCourtOfAustralia) find_cases case_title,
     Engine.get env Request_of_str (hca_scraper self) fuel (inl req) w
       = (Returned resp, w1) ->
     find_cases (text resp) = [] ->
     hca_get_index env Request_of_str self text find_cases case_title fuel req w
       = (Returned [], w1)).
Proof.
  split.
  - intros self _get_entry Hget Hrows. unfold wal_get_index.
    rewrite Hget, Hrows. reflexivity.
  - intros self find_cases case_title Hget Hnone. unfold hca_get_index.
    rewrite Hget, Hnone. reflexivity.
Qed.

(** The page fetched for the Acts under the letter a has one row, the
    header: no entry is found, and [get_index] returns the empty set. *)
Lemma get_index_returns_empty_set_witness :
  findall_tr (ascii_text (mk_Response header_only_page None None None))
    = [ascii_text (mk_Response (list_byte_of_string "<th>Title</th><th>Date</th>")
                     None None None)] /\
  fst (wal_get_index serves_header_only request_of_str
         (WesternAustralianLegislation_init None None) ascii_text no_entry 5
         wal_index_request (initial_world false))
    = Returned [].
Proof.
  split; [vm_compute; reflexivity|].
  destruct (@get_index_returns_empty_set serves_header_only request_of_str 5
              wal_index_request (initial_world false)
              (snd (Engine.get serves_header_only request_of_str
                      (WesternAustralianLegislation_init None None) 5
                      (inl wal_index_request) (initial_world false)))
              (mk_Response header_only_page None (Some "text/html"%string) (Some 200%Z))
              ascii_text)
    as [Hwal _].
  rewrite (Hwal (WesternAustralianLegislation_init None None) no_entry);
    [reflexivity | vm_compute; reflexivity | vm_compute; reflexivity].
Defined.

(* --------------------------------------------------------------------- *)
(** ** The scrapers: the taken gate *)

(** An effect that is not the acquiring or the releasing of a semaphore. *)
Definition no_permit (ev : event) : Prop :=
  match ev with
  | EvEnter (Semaphore _) | EvExit (Semaphore _) => False
  | _ => True
  end.

(** The world has gone from [w] to [w'] without touching a semaphore. *)
Definition grows (w w' : world) : Prop :=
  exists evs, w_trace w' = w_trace w ++ evs /\ Forall no_permit evs.

Lemma grows_refl (w : world) : grows w w.
Proof. exists []. rewrite app_nil_r. split; [reflexivity | constructor]. Qed.

Lemma grows_trans (w1 w2 w3 : world) : grows w1 w2 -> grows w2 w3 -> grows w1 w3.
Proof.
  intros (a & Ha & Pa) (b & Hb & Pb). exists (a ++ b).
  rewrite Hb, Ha, app_assoc. split; [reflexivity | apply Forall_app; auto].
Qed.

Lemma grows_emit (ev : event) (w : world) : no_permit ev -> grows w (emit ev w).
Proof. intros H. exists [ev]. split; [reflexivity | repeat constructor; exact H]. Qed.

Lemma grows_trace (w w' : world) : w_trace w' = w_trace w -> grows w w'.
Proof. intros H. exists []. rewrite app_nil_r. split; [exact H | constructor]. Qed.

Lemma grows_log (A : Type) (func : string) (r : outcome A * world) (w : world) :
  grows w (snd r) -> grows w (snd (log func r)).
Proof.
  intros H. eapply grows_trans; [exact H|].
  destruct (log_spec func r) as (_ & evs & Htr & _ & _ & Hw & _).
  exists evs. split; [exact Htr|]. eapply Forall_impl; [|exact Hw].
  intros ev [m ->]. exact I.
Qed.

Section UngatedEngine.
Variable env : environment.
Variable Request_of_str : string -> Request.
Variable self : Scraper.

(** The engine's own gate has been replaced by [nullcontext()]. *)
Hypothesis gate_taken : semaphore self = Nullcontext.

Lemma grows_attempt_begin (req : Request) (w : world) :
  grows w (snd (attempt_begin self req w)).
Proof.
  unfold attempt_begin. rewrite gate_taken.
  destruct (session self) as [s|];
    [destruct (negb (is_closed (emit (EvEnter Nullcontext) w) s))|];
    eexists; (split; [cbn; rewrite <- ?app_assoc; reflexivity | repeat constructor]).
Qed.

Lemma grows_attempt_end (req : Request) (own : bool) (sid : nat) (w : world) :
  grows w (snd (attempt_end env self req own sid w)).
Proof.
  unfold attempt_end. rewrite gate_taken. destruct own;
    eexists; (split; [cbn; rewrite <- ?app_assoc; reflexivity | repeat constructor]).
Qed.

Lemma grows_attempt_fetch (req : Request) (w : world) :
  grows w (snd (attempt_fetch env self req w)).
Proof.
  unfold attempt_fetch. pose proof (grows_attempt_begin req w) as Hb.
  destruct (attempt_begin self req w) as [[own sid] w1]. simpl in Hb.
  eapply grows_trans; [exact Hb | apply grows_attempt_end].
Qed.

Lemma grows_after_sleep (seconds : Q) (w : world) :
  grows w (after_sleep seconds w).
Proof. exists [EvSleep seconds]. split; [reflexivity | repeat constructor]. Qed.

Lemma grows_get_loop (fuel : nat) (req : Request) :
  forall (attempt : Z) (elapsed : Q) (w : world),
    grows w (snd (get_loop env self fuel req attempt elapsed w)).
Proof.
  induction fuel as [|fuel IH]; intros attempt elapsed w; [apply grows_refl|].
  rewrite get_loop_step. cbn zeta.
  pose proof (grows_attempt_fetch req w) as Ha.
  destruct (fst (attempt_fetch env self req w)) as [e|resp]; [|exact Ha].
  destruct (isinstance e (retry_exceptions self)); [|exact Ha].
  destruct (Qgt_bool elapsed (stop_after_waiting self)); [exact Ha|].
  eapply grows_trans; [exact Ha|].
  eapply grows_trans; [apply grows_after_sleep | apply IH].
Qed.

Lemma grows_get_resume (fuel : nat) (req : Request) (own : bool) (sid : nat) (w : world) :
  grows w (snd (get_resume env self fuel req own sid w)).
Proof.
  unfold get_resume. pose proof (grows_attempt_end req own sid w) as Ha.
  destruct (attempt_end env self req own sid w) as [[e|resp] w1]; [|exact Ha].
  simpl in Ha. destruct (isinstance e (retry_exceptions self)); [|exact Ha].
  destruct (Qgt_bool 0 (stop_after_waiting self)); [exact Ha|].
  rewrite BackoffSpec.backoff_draws. cbn zeta.
  eapply grows_trans; [exact Ha|].
  eapply grows_trans; [|apply grows_get_loop].
  eexists. split; [reflexivity | repeat constructor].
Qed.

Lemma grows_get_open (req : Request) (w : world) :
  grows w (snd (get_open env req w)).
Proof.
  unfold get_open. destruct (files env (path req)); [apply grows_refl|].
  eexists. split; [cbn; rewrite <- ?app_assoc; reflexivity | repeat constructor].
Qed.

Lemma grows_get (fuel : nat) (req : Request + string) (w : world) :
  grows w (snd (Engine.get env Request_of_str self fuel req w)).
Proof.
  unfold Engine.get, get_undecorated. apply grows_log.
  destruct (String.eqb _ _); [apply grows_get_open | apply grows_get_loop].
Qed.

Lemma grows_get_begin (req : Request + string) (w : world) :
  grows w (snd (get_begin env Request_of_str self req w)).
Proof.
  unfold get_begin.
  set (r := match req with inl r => r | inr s => Request_of_str s end).
  destruct (String.eqb _ _).
  - pose proof (grows_log "get" (get_open env r w) (grows_get_open r w)) as H.
    destruct (log "get" _) as [o w1]. exact H.
  - pose proof (grows_attempt_begin r w) as H.
    destruct (attempt_begin self r w) as [[own sid] w1]. exact H.
Qed.

Lemma grows_get_finish (fuel : nat) (st : started) (w : world) :
  grows w (snd (get_finish env self fuel st w)).
Proof.
  destruct st as [r|req own sid]; simpl; [apply grows_refl|].
  apply grows_log, grows_get_resume.
Qed.

End UngatedEngine.

(** Every request of the trace is sent while a permit is held, when at
    least one is held at the start and the trace touches no semaphore. *)
Lemma scoped_no_permit (inner : list event) :
  Forall no_permit inner ->
  forall (depth : nat) (rest : list event),
    scoped (S depth) (inner ++ rest) = scoped (S depth) rest.
Proof.
  induction 1 as [|ev inner Hev _ IH]; intros depth rest; [reflexivity|].
  simpl. destruct ev as [[c|]|[c|]| | | | | | | | |]; simpl in Hev; try contradiction;
    apply IH.
Qed.

Lemma scoped_warnings (evs wevs : list event) :
  Forall (fun ev => exists m, ev = EvWarning m) wevs ->
  forall depth, scoped depth evs = true -> scoped depth (evs ++ wevs) = true.
Proof.
  intros Hw. induction evs as [|ev evs IH]; intros depth H.
  - simpl. clear H. induction Hw as [|ev wevs [m ->] _ IHw]; [reflexivity|exact IHw].
  - simpl in *. destruct ev as [[c|]|[c|]| | | | | | | | |]; try (apply IH; exact H);
      destruct depth; try discriminate; apply IH; exact H.
Qed.

(** An operation wrapped in the taken semaphore, logged: all its requests
    are sent inside the scope. *)
Lemma with_gate_scoped (A : Type) (capacity : nat) (func : string)
    (body : world -> outcome A * world) (w : world) :
  (forall w0, grows w0 (snd (body w0))) ->
  exists evs,
    w_trace (snd (log func (with_gate (Semaphore capacity) body w))) = w_trace w ++ evs /\
    scoped 0 evs = true.
Proof.
  intros Hbody.
  destruct (log_spec func (with_gate (Semaphore capacity) body w))
    as (_ & wevs & Htr & _ & _ & Hw & _).
  rewrite Htr. unfold with_gate.
  destruct (Hbody (emit (EvEnter (Semaphore capacity)) w)) as (inner & Hin & Pin).
  destruct (body (emit (EvEnter (Semaphore capacity)) w)) as [r w1]. simpl in Hin.
  assert (Hs : exists tail, (tail = [] \/ tail = [EvExit (Semaphore capacity)]) /\
             w_trace (snd (match r with
                           | Running => (Running, w1)
                           | _ => (r, emit (EvExit (Semaphore capacity)) w1)
                           end))
             = w_trace w ++ (EvEnter (Semaphore capacity) :: inner ++ tail)).
  { destruct r; [exists [EvExit (Semaphore capacity)] | exists [EvExit (Semaphore capacity)]
                | exists []]; (split; [auto|]); simpl; rewrite Hin; simpl;
      rewrite <- ?app_assoc; simpl; rewrite ?app_nil_r; reflexivity. }
  destruct Hs as (tail & Htail & Hs).
  assert (Heq : w_trace (snd (let (r0, w0) := (r, w1) in
                   match r0 with
                   | Running => (Running, w0)
                   | _ => (r0, emit (EvExit (Semaphore capacity)) w0)
                   end))
                = w_trace w ++ (EvEnter (Semaphore capacity) :: inner ++ tail))
    by (destruct r; exact Hs).
  rewrite Heq. exists ((EvEnter (Semaphore capacity) :: inner ++ tail) ++ wevs).
  rewrite <- app_assoc. split; [reflexivity|].
  apply scoped_warnings; [exact Hw|]. simpl. rewrite scoped_no_permit by exact Pin.
  destruct Htail as [->| ->]; reflexivity.
Qed.

Section FederalRegisterGate.
Variable env : environment.
Variable Request_of_str : string -> Request.
Variable self : FederalRegisterOfLegislation.
Hypothesis gate_taken : semaphore (frl_scraper self) = Nullcontext.

Lemma grows_frl_handle (again : Z -> Q -> world -> outcome Response * world)
    (attempt : Z) (elapsed : Q) (r : outcome Response * world) (w : world) :
  (forall a e w0, grows w0 (snd (again a e w0))) ->
  grows w (snd r) ->
  grows w (snd (frl_handle env self again attempt elapsed r)).
Proof.
  intros Hagain Hr. unfold frl_handle.
  assert (Herr : forall e w1, grows w w1 ->
    grows w (snd (if isinstance e [ParseError]
                  then if Qgt_bool elapsed (stop_after_waiting (frl_scraper self))
                       then (Raised e, w1)
                       else let attempt0 := (attempt + 1)%Z in
                            let (wait, w0) := backoff env (frl_scraper self) attempt0 w1 in
                            let w2 := sleep wait w0 in
                            again attempt0 (elapsed + wait) w2
                  else (Raised e, w1)))).
  { intros e w1 H1. destruct (isinstance e [ParseError]); [|exact H1].
    destruct (Qgt_bool elapsed (stop_after_waiting (frl_scraper self))); [exact H1|].
    cbn zeta. rewrite BackoffSpec.backoff_draws.
    eapply grows_trans; [exact H1|].
    eapply grows_trans; [|apply Hagain].
    eexists. split; [reflexivity | repeat constructor]. }
  destruct r as [[content|e|] w1]; simpl in Hr.
  - destruct (contains _ content); [apply Herr; exact Hr | exact Hr].
  - apply Herr. exact Hr.
  - exact Hr.
Qed.

Lemma grows_frl_get_loop (fuel : nat) (req : Request + string) :
  forall (attempt : Z) (elapsed : Q) (w : world),
    grows w (snd (frl_get_loop env Request_of_str self fuel req attempt elapsed w)).
Proof.
  induction fuel as [|fuel IH]; intros attempt elapsed w; [apply grows_refl|].
  cbn [frl_get_loop]. apply grows_frl_handle; [exact IH|].
  apply grows_get. exact gate_taken.
Qed.

Lemma grows_frl_get (fuel : nat) (req : Request + string) (w : world) :
  grows w (snd (frl_get env Request_of_str self fuel req w)).
Proof. apply grows_log, grows_frl_get_loop. Qed.

Lemma grows_frl_get_finish (fuel : nat) (req : Request + string) (st : started)
    (w : world) :
  grows w (snd (frl_get_finish env Request_of_str self fuel req st w)).
Proof.
  apply grows_log, grows_frl_handle; [apply grows_frl_get_loop|].
  apply grows_get_finish. exact gate_taken.
Qed.

Lemma grows_begin_all (urls : list string) :
  forall w, grows w (snd (begin_all env Request_of_str self urls w)).
Proof.
  induction urls as [|u urls IH]; intros w; [apply grows_refl|]. cbn [begin_all].
  pose proof (@grows_get_begin env Request_of_str (frl_scraper self) gate_taken
                (inr u) w) as Hb.
  unfold frl_get_begin.
  destruct (get_begin env Request_of_str (frl_scraper self) (inr u) w) as [st w1].
  specialize (IH w1). destruct (begin_all env Request_of_str self urls w1) as [sts w2].
  eapply grows_trans; [exact Hb | exact IH].
Qed.

Lemma grows_finish_all (fuel : nat) (sts : list (string * started)) :
  forall w, grows w (snd (finish_all env Request_of_str self fuel sts w)).
Proof.
  induction sts as [|[u st] sts IH]; intros w; [apply grows_refl|]. cbn [finish_all].
  pose proof (grows_frl_get_finish fuel (inr u) st w) as Hf.
  destruct (frl_get_finish env Request_of_str self fuel (inr u) st w) as [[r|e|] w1];
    try exact Hf.
  specialize (IH w1).
  destruct (finish_all env Request_of_str self fuel sts w1) as [[rs|e|] w2];
    eapply grows_trans; eauto.
Qed.

Lemma grows_gather_get (fuel : nat) (urls : list string) (w : world) :
  grows w (snd (gather_get env Request_of_str self fuel urls w)).
Proof.
  unfold gather_get. pose proof (grows_begin_all urls w) as Hb.
  destruct (begin_all env Request_of_str self urls w) as [sts w1].
  eapply grows_trans; [exact Hb | apply grows_finish_all].
Qed.

Variable odata_count : Response -> exn + Z.
Variable json_value : Response -> exn + list frl_item.
Variable first_serp_url : string.
Variable serp_url : Z -> Z -> string.
Variable is_norfolk_act : string -> bool.
Variable part_urls : Response -> list string.
Variable html_texts : list Response -> exn + list string.
Variable has_downloads : Response -> bool.
Variable part_links : Response -> download_format -> list string.
Variable docx_texts : list Response -> exn + list string.
Variable pdf_texts : list Response -> exn + list string.
Variable make_doc : Entry -> string -> string -> string -> string -> Document.

Lemma grows_frl_from_pdf (entry : Entry) (type url : string) (resps : list Response)
    (w0 w : world) :
  grows w0 w ->
  grows w0 (snd (frl_from_pdf pdf_texts make_doc entry type url resps w)).
Proof.
  intros H. unfold frl_from_pdf. destruct (pdf_texts resps) as [e|texts]; [|exact H].
  destruct (isinstance e [PdfiumError]); [|exact H].
  eapply grows_trans; [exact H | apply grows_emit; exact I].
Qed.

Lemma grows_frl_from_word (fuel : nat) (entry : Entry) (type url : string)
    (page : Response) (resps : list Response) (w0 w : world) :
  grows w0 w ->
  grows w0 (snd (frl_from_word env Request_of_str self part_links docx_texts pdf_texts
                   make_doc fuel entry type url page resps w)).
Proof.
  intros H. unfold frl_from_word. destruct (docx_texts resps) as [e|texts]; [|exact H].
  destruct (isinstance e [BadZipFile; ParserError]); [|exact H]. cbn zeta.
  assert (H1 : grows w0 (emit (EvWarning "stored as a .DOC file") w))
    by (eapply grows_trans; [exact H | apply grows_emit; exact I]).
  destruct (part_links page Pdf) as [|l ls];
    [eapply grows_trans; [exact H1 | apply grows_emit; exact I]|].
  pose proof (grows_gather_get fuel (l :: ls) (emit (EvWarning "stored as a .DOC file") w))
    as H2.
  destruct (gather_get env Request_of_str self fuel (l :: ls) _) as [[resps'|e'|] w2];
    try (eapply grows_trans; [exact H1 | exact H2]).
  apply grows_frl_from_pdf. eapply grows_trans; [exact H1 | exact H2].
Qed.

Lemma grows_frl_from_downloads (fuel : nat) (entry : Entry) (type : string) (w0 w : world) :
  grows w0 w ->
  grows w0 (snd (frl_from_downloads env Request_of_str self has_downloads part_links
                   docx_texts pdf_texts make_doc fuel entry type w)).
Proof.
  intros H. unfold frl_from_downloads. cbn zeta.
  pose proof (grows_frl_get fuel
                (inr (path (entry_request entry) ++ "/latest/downloads")%string) w) as H1.
  destruct (frl_get env Request_of_str self fuel _ w) as [[page|e|] w1];
    try (eapply grows_trans; [exact H | exact H1]). simpl in H1.
  assert (H01 : grows w0 w1) by (eapply grows_trans; eauto).
  destruct (negb (has_downloads page));
    [eapply grows_trans; [exact H01 | apply grows_emit; exact I]|].
  destruct (first_format part_links page) as [[format links]|];
    [|eapply grows_trans; [exact H01 | apply grows_emit; exact I]].
  pose proof (grows_gather_get fuel links w1) as H2.
  destruct (gather_get env Request_of_str self fuel links w1) as [[resps|e|] w2];
    try (eapply grows_trans; [exact H01 | exact H2]). simpl in H2.
  assert (H02 : grows w0 w2) by (eapply grows_trans; eauto).
  destruct format; [apply grows_frl_from_word | apply grows_frl_from_pdf]; exact H02.
Qed.

Lemma grows_frl_get_doc_body (fuel : nat) (entry : Entry) (w : world) :
  grows w (snd (frl_get_doc_body env Request_of_str self is_norfolk_act part_urls
                  html_texts has_downloads part_links docx_texts pdf_texts make_doc
                  fuel entry w)).
Proof.
  unfold frl_get_doc_body. cbn zeta.
  pose proof (grows_frl_get fuel (inl (entry_request entry)) w) as H1.
  destruct (frl_get env Request_of_str self fuel (inl (entry_request entry)) w)
    as [[status_page|e|] w1]; try exact H1. simpl in H1.
  destruct (part_urls status_page) as [|u urls];
    [apply grows_frl_from_downloads; exact H1|].
  pose proof (grows_gather_get fuel (u :: urls) w1) as H2.
  destruct (gather_get env Request_of_str self fuel (u :: urls) w1) as [[resps|e|] w2];
    try (eapply grows_trans; [exact H1 | exact H2]).
  destruct (html_texts resps); eapply grows_trans; eauto.
Qed.

End FederalRegisterGate.

(** The effects of a run that started in [w]. *)
Definition events_since (w w' : world) : list event :=
  skipn (length (w_trace w)) (w_trace w').

Lemma events_since_app (w w' : world) (evs : list event) :
  w_trace w' = w_trace w ++ evs -> events_since w w' = evs.
Proof.
  intros H. unfold events_since. rewrite H, skipn_app, skipn_all, Nat.sub_diag. reflexivity.
Qed.

Lemma scoped_since (w w' : world) (evs : list event) :
  w_trace w' = w_trace w ++ evs -> scoped 0 evs = true ->
  scoped 0 (events_since w w') = true.
Proof. intros Htr Hsc. rewrite (@events_since_app w w' evs Htr). exact Hsc. Qed.

(** The source has taken the semaphore of the engine and left
    [nullcontext()] in its place. *)
Definition frl_taken (self : FederalRegisterOfLegislation) : Prop :=
  semaphore (frl_scraper self) = Nullcontext /\
  exists capacity, frl_semaphore self = Semaphore capacity.

Definition hca_taken (self : HighCourtOfAustralia) : Prop :=
  semaphore (hca_scraper self) = Nullcontext /\
  exists capacity, hca_semaphore self = Semaphore capacity.

(** The constructors do so, whatever semaphore they are given. *)
Lemma init_takes_gate (capacity : nat) (session : option nat) :
  frl_taken (FederalRegisterOfLegislation_init None session) /\
  frl_taken (FederalRegisterOfLegislation_init (Some (Semaphore capacity)) session) /\
  hca_taken (HighCourtOfAustralia_init None session) /\
  hca_taken (HighCourtOfAustralia_init (Some (Semaphore capacity)) session).
Proof. repeat split; eexists; reflexivity. Qed.

(** When no call was left running, nothing follows [_get_doc]. *)
Lemma resume_nothing (env : environment) (Request_of_str : string -> Request)
    (self : FederalRegisterOfLegislation) (fuel : nat) (w : world) :
  w_left_running w = [] ->
  w_trace (resume_left_running env Request_of_str self fuel w) = w_trace w.
Proof. intros H. unfold resume_left_running. rewrite H. reflexivity. Qed.

(** The operations that the two sources wrap in the semaphore they took;
    of the document retrievals of the Federal Register, those in which no
    gather has left a call running. *)
Inductive gated_operation : list event -> Prop :=
| gated_frl_get_index_reqs env Request_of_str self odata_count first_serp_url serp_url
    fuel w :
    frl_taken self ->
    gated_operation
      (events_since w
         (snd (frl_get_index_reqs env Request_of_str self odata_count first_serp_url
                 serp_url fuel w)))
| gated_frl_get_index env Request_of_str self json_value fuel req w :
    frl_taken self ->
    gated_operation
      (events_since w (snd (frl_get_index env Request_of_str self json_value fuel req w)))
| gated_frl_get_doc env Request_of_str self is_norfolk_act part_urls html_texts
    has_downloads part_links docx_texts pdf_texts make_doc fuel entry w :
    frl_taken self ->
    w_left_running
      (snd (frl_get_doc_gated env Request_of_str self is_norfolk_act part_urls html_texts
              has_downloads part_links docx_texts pdf_texts make_doc fuel entry w)) = [] ->
    gated_operation
      (events_since w
         (snd (frl_get_doc env Request_of_str self is_norfolk_act part_urls html_texts
                 has_downloads part_links docx_texts pdf_texts make_doc fuel entry w)))
| gated_hca_get_doc env Request_of_str self find_date last_download convert make_doc
    fuel entry w :
    hca_taken self ->
    gated_operation
      (events_since w
         (snd (hca_get_doc env Request_of_str self find_date last_download convert make_doc
                 fuel entry w))).

(** Each of them sends all its requests while it holds the semaphore. *)
Lemma gated_operation_scoped (evs : list event) :
  gated_operation evs -> scoped 0 evs = true.
Proof.
  intros [env R self odata first serp fuel w [Hnull [c Hc]]
         |env R self json_value fuel req w [Hnull [c Hc]]
         |env R self is_norfolk_act part_urls html_texts has_downloads part_links
            docx_texts pdf_texts make_doc fuel entry w [Hnull [c Hc]] Hleft
         |env R self find_date last_download convert make_doc fuel entry w [Hnull [c Hc]]].
  - unfold frl_get_index_reqs. rewrite Hc.
    match goal with |- context [log ?f (with_gate _ ?b w)] =>
      destruct (@with_gate_scoped _ c f b w) as (evs' & Htr & Hsc) end.
    + intros w0. pose proof (@grows_frl_get env R self Hnull fuel (inr first) w0) as H.
      destruct (frl_get env R self fuel (inr first) w0) as [[page|e|] w1]; try exact H.
      destruct (odata page) as [?|total]; [exact H|].
      destruct (true_divide total (docs_per_serp self)); exact H.
    + exact (@scoped_since _ _ _ Htr Hsc).
  - unfold frl_get_index. rewrite Hc.
    match goal with |- context [log ?f (with_gate _ ?b w)] =>
      destruct (@with_gate_scoped _ c f b w) as (evs' & Htr & Hsc) end.
    + intros w0. pose proof (@grows_frl_get env R self Hnull fuel (inl req) w0) as H.
      destruct (frl_get env R self fuel (inl req) w0) as [[page|e|] w1]; try exact H.
      destruct (json_value page) as [e|value]; [exact H|].
      destruct (Nat.eqb (length value) 0); exact H.
    + exact (@scoped_since _ _ _ Htr Hsc).
  - assert (Ht : events_since w
                     (snd (frl_get_doc env R self is_norfolk_act part_urls html_texts
                             has_downloads part_links docx_texts pdf_texts make_doc
                             fuel entry w))
                 = events_since w
                     (snd (frl_get_doc_gated env R self is_norfolk_act part_urls html_texts
                             has_downloads part_links docx_texts pdf_texts make_doc
                             fuel entry w))).
    { unfold frl_get_doc, events_since.
      destruct (frl_get_doc_gated env R self is_norfolk_act part_urls html_texts
                  has_downloads part_links docx_texts pdf_texts make_doc fuel entry w)
        as [r w1].
      cbn [snd] in *. rewrite (@resume_nothing env R self fuel w1 Hleft). reflexivity. }
    rewrite Ht. unfold frl_get_doc_gated. rewrite Hc.
    match goal with |- context [log ?f (with_gate _ ?b w)] =>
      destruct (@with_gate_scoped _ c f b w) as (evs' & Htr & Hsc) end.
    + intros w0. apply grows_frl_get_doc_body. exact Hnull.
    + exact (@scoped_since _ _ _ Htr Hsc).
  - unfold hca_get_doc. rewrite Hc.
    match goal with |- context [log ?f (with_gate _ ?b w)] =>
      destruct (@with_gate_scoped _ c f b w) as (evs' & Htr & Hsc) end.
    + intros w0.
      pose proof (@grows_get env R (hca_scraper self) Hnull fuel
                    (inl (entry_request entry)) w0) as H1.
      destruct (Engine.get env R (hca_scraper self) fuel (inl (entry_request entry)) w0)
        as [[resp|e|] w1]; try exact H1. simpl in H1.
      destruct (last_download resp) as [[slug type]|].
      * pose proof (@grows_get env R (hca_scraper self) Hnull fuel
                      (inr ("https://eresources.hcourt.gov.au" ++ slug)%string) w1) as H2.
        destruct (Engine.get env R (hca_scraper self) fuel _ w1) as [[resp2|e|] w2];
          try (eapply grows_trans; [exact H1 | exact H2]). simpl in H2.
        assert (H12 : grows w0 w2) by (eapply grows_trans; eauto).
        destruct (is_missing resp2);
          [eapply grows_trans; [exact H12 | apply grows_emit; exact I]|].
        destruct (convert type resp2) as [e|[text mime]]; exact H12.
      * destruct (convert "HTML"%string resp) as [e|[text mime]]; exact H1.
    + exact (@scoped_since _ _ _ Htr Hsc).
Qed.

(** *** The semaphore under the event loop *)

Definition total_holding (tasks : list task) : nat :=
  fold_right (fun t n => (holding t + n)%nat) O tasks.

Definition task_ok (t : task) : Prop := scoped (holding t) (todo t) = true.

Lemma total_holding_app (a b : list task) :
  total_holding (a ++ b) = (total_holding a + total_holding b)%nat.
Proof. induction a as [|t a IH]; simpl; [reflexivity|]. rewrite IH. lia. Qed.

Lemma holders_le_total (tasks : list task) :
  (length (filter (fun t => negb (Nat.eqb (holding t) 0)) tasks) <= total_holding tasks)%nat.
Proof.
  induction tasks as [|t tasks IH]; simpl; [lia|].
  destruct (Nat.eqb_spec (holding t) 0); simpl; lia.
Qed.

Lemma task_step_ok (free free' : nat) (t t' : task) :
  task_step free t = Some (free', t') -> task_ok t ->
  task_ok t' /\ (free' + holding t' = free + holding t)%nat.
Proof.
  unfold task_step, task_ok. destruct t as [h f [|ev rest]]; simpl; [discriminate|].
  destruct ev as [[c|]|[c|]| | | | | | | | |];
    try (intros H; injection H as <- <-; simpl; intros Hs; split; [exact Hs | lia]).
  - destruct free as [|free0]; [discriminate|].
    intros H; injection H as <- <-. simpl. intros Hs. split; [exact Hs | lia].
  - intros H; injection H as <- <-. simpl. destruct h as [|h]; [discriminate|].
    intros Hs. split; [exact Hs | simpl; lia].
  - intros H; injection H as <- <-. simpl. destruct h as [|h]; [discriminate|].
    intros Hs. split; [exact Hs | lia].
Qed.

Lemma reachable_invariant (capacity : nat) (traces : list (list event)) (s : system) :
  Forall (fun evs => scoped 0 evs = true) traces ->
  reachable (start capacity traces) s ->
  Forall task_ok (snd s) /\ (fst s + total_holding (snd s) = capacity)%nat.
Proof.
  intros Hsc Hreach. induction Hreach as [|s s' _ IH Hstep].
  - unfold start. simpl. split.
    + apply Forall_map. eapply Forall_impl; [|exact Hsc]. intros evs H. exact H.
    + induction traces as [|evs traces IHt]; simpl; [lia|].
      inversion Hsc; subst. rewrite <- (IHt ltac:(assumption)) at 2. simpl. lia.
  - destruct IH as [Hok Hsum]. destruct Hstep as [free free' before after t t' Hstep].
    simpl in *. apply Forall_app in Hok as [Hb Hta]. inversion Hta as [|? ? Ht Ha]; subst.
    destruct (@task_step_ok _ _ _ _ Hstep Ht) as [Ht' Heq]. split.
    + apply Forall_app. split; [exact Hb | constructor; assumption].
    + rewrite !total_holding_app. simpl. lia.
Qed.

Lemma step_nth_step (i : nat) :
  forall (free : nat) (tasks : list task) (s' : system),
    step_nth i free tasks = Some s' -> step (free, tasks) s'.
Proof.
  induction i as [|i IH]; intros free [|t tasks] s' H; simpl in H; try discriminate.
  - destruct (task_step free t) as [[free' t']|] eqn:E; [|discriminate].
    injection H as <-. apply (@step_task _ _ [] tasks _ _ E).
  - destruct (step_nth i free tasks) as [[free' tasks']|] eqn:E; [|discriminate].
    injection H as <-. apply IH in E. inversion E as [? ? before after t0 t0' Hs]; subst.
    apply (@step_task _ _ (t :: before) after _ _ Hs).
Qed.

Lemma run_schedule_reachable (schedule : list nat) :
  forall (init s s' : system),
    reachable init s -> run_schedule schedule s = Some s' -> reachable init s'.
Proof.
  induction schedule as [|i schedule IH]; intros init s s' Hr H; simpl in H.
  - injection H as <-. exact Hr.
  - destruct s as [free tasks]. simpl in H.
    destruct (step_nth i free tasks) as [s1|] eqn:E; [|discriminate].
    eapply IH; [|exact H]. eapply reachable_step; [exact Hr|].
    apply step_nth_step with (i := i). exact E.
Qed.

(** C8 (amended).  The constructors of the High Court and the Federal
    Register scrapers take the semaphore of the engine and leave a no-op gate
    in its place.  The operations these sources wrap in the taken semaphore
    (index-request enumeration and index parsing of the Federal Register,
    its document retrievals in which no [asyncio.gather] leaves a call
    running; document retrieval of the High Court) send every one of their
    requests inside its acquire/release scope.  So, however the event loop
    interleaves any number of such operations, those in progress inside the
    scope never outnumber the capacity of the semaphore, and a request is
    only ever sent by an operation that holds a permit.  (The requests in
    flight may outnumber the capacity: one operation may have several in
    flight under its one permit.) *)
Theorem taken_gate_bounds_operations (capacity : nat) (traces : list (list event))
    (s : system) :
  Forall gated_operation traces ->
  reachable (start capacity traces) s ->
  (forall c session,
     frl_taken (FederalRegisterOfLegislation_init None session) /\
     frl_taken (FederalRegisterOfLegislation_init (Some (Semaphore c)) session) /\
     hca_taken (HighCourtOfAustralia_init None session) /\
     hca_taken (HighCourtOfAustralia_init (Some (Semaphore c)) session)) /\
  Forall (fun evs => scoped 0 evs = true) traces /\
  (holders s <= capacity)%nat /\
  (forall t sid req rest,
     In t (snd s) -> todo t = EvRequest sid req :: rest -> (0 < holding t)%nat).
Proof.
  intros Hops Hreach.
  assert (Hsc : Forall (fun evs => scoped 0 evs = true) traces).
  { eapply Forall_impl; [|exact Hops]. apply gated_operation_scoped. }
  destruct (reachable_invariant Hsc Hreach) as [Hok Hsum].
  split; [intros; apply init_takes_gate|]. split; [exact Hsc|]. split.
  - unfold holders. pose proof (holders_le_total (snd s)). lia.
  - intros t sid req rest Hin Htodo. rewrite Forall_forall in Hok.
    specialize (Hok t Hin). unfold task_ok in Hok. rewrite Htodo in Hok. simpl in Hok.
    destruct (holding t); [discriminate | lia].
Qed.

(** *** Examples and counterexamples *)

(** A High Court scraper as its constructor makes it: four permits. *)
Definition high_court : HighCourtOfAustralia := HighCourtOfAustralia_init None None.

(** The effects of one call of its [get_index]. *)
Definition hca_index_trace : list event :=
  events_since (initial_world false)
    (snd (hca_get_index serves_header_only request_of_str high_court ascii_text
            (fun _ => []) (fun _ => None) 5 example_request (initial_world false))).

(** A Federal Register scraper that was given a semaphore with one permit,
    and a document whose status page links two parts. *)
Definition federal_register : FederalRegisterOfLegislation :=
  FederalRegisterOfLegislation_init (Some (Semaphore 1)) None.

Definition two_parts (page : Response) : list string :=
  ["https://www.legislation.gov.au/C2004A00001/latest/text/1";
   "https://www.legislation.gov.au/C2004A00001/latest/text/2"]%string.

Definition frl_doc_trace : list event :=
  events_since (initial_world false)
    (snd (frl_get_doc serves_header_only request_of_str federal_register
            (fun _ => false) two_parts (fun resps => inr (map (fun _ => "text"%string) resps))
            (fun _ => false) (fun _ _ => []) (fun _ => inr []) (fun _ => inr [])
            (fun entry type mime url text => mk_Document (version_id entry) url mime text)
            5 example_entry (initial_world false))).

(** The state a schedule leads to (the initial one if it cannot be run). *)
Definition after_schedule (schedule : list nat) (init : system) : system :=
  match run_schedule schedule init with
  | Some s => s
  | None => init
  end.

Lemma after_schedule_reachable (schedule : list nat) (init : system) :
  reachable init (after_schedule schedule init).
Proof.
  unfold after_schedule. destruct (run_schedule schedule init) as [s|] eqn:E.
  - apply run_schedule_reachable with (schedule := schedule) (s := init);
      [apply reachable_init | exact E].
  - apply reachable_init.
Qed.

Example hca_index_trace_ex :
  hca_index_trace =
  [EvEnter Nullcontext; EvSessionCreate 1; EvRequest 1 example_request; EvResponse 1;
   EvSessionClose 1; EvExit Nullcontext].
Proof. reflexivity. Qed.

Example frl_doc_trace_ex :
  map (fun ev => match ev with
                 | EvEnter (Semaphore _) => "acquire" | EvExit (Semaphore _) => "release"
                 | EvRequest _ _ => "send" | EvResponse _ => "answer"
                 | _ => ""
                 end%string) frl_doc_trace
  = ["acquire"; ""; ""; "send"; "answer"; ""; "";
     ""; ""; "send"; ""; ""; "send"; "answer"; ""; ""; "answer"; ""; "";
     "release"]%string.
Proof. vm_compute. reflexivity. Qed.

(** The same document, but the connection of the first part is closed
    (an error that is not retried) and the second part is answered with
    status 429 at first. *)
Definition connection_closed : exn := mk_exn ClientConnectionError None "Connection closed".

Definition first_part_fails : environment :=
  mk_environment no_files
    (fun n => match n with
              | 1%nat => RequestRaises connection_closed 1
              | 2%nat => Responds 429 "Too Many Requests" None (inr ok_body) 1
              | _ => Responds 200 "OK" (Some "text/html"%string) (inr ok_body) 1
              end)
    (fun _ => inr None) (fun _ => 1 # 2).

Definition frl_failed_doc : outcome (option Document) * world :=
  frl_get_doc first_part_fails request_of_str federal_register
    (fun _ => false) two_parts (fun resps => inr (map (fun _ => "text"%string) resps))
    (fun _ => false) (fun _ _ => []) (fun _ => inr []) (fun _ => inr [])
    (fun entry type mime url text => mk_Document (version_id entry) url mime text)
    5 example_entry (initial_world false).

Definition frl_failed_doc_trace : list event :=
  events_since (initial_world false) (snd frl_failed_doc).

(** The gather raises the error of the first part, [_get_doc] releases the
    semaphore and raises; the fetch of the second part, left running, is
    answered, waits and sends its request again. *)
Example frl_failed_doc_trace_ex :
  map (fun ev => match ev with
                 | EvEnter (Semaphore _) => "acquire" | EvExit (Semaphore _) => "release"
                 | EvRequest _ _ => "send" | EvResponse _ => "answer"
                 | EvSleep _ => "sleep"
                 | _ => ""
                 end%string) frl_failed_doc_trace
  = ["acquire"; ""; ""; "send"; "answer"; ""; "";
     ""; ""; "send"; ""; ""; "send"; "answer"; ""; ""; ""; "";
     "release"; ""; "answer"; ""; ""; "sleep"; ""; ""; "send"; "answer"; ""; ""]%string.
Proof. vm_compute. reflexivity. Qed.

(** C8, as stated, fails three times over.  The High Court scraper fetches
    its index pages without acquiring the semaphore it took: five such
    fetches are in flight at once while all four permits are free.  Inside
    the scope the count is of operations, not of requests: one document
    retrieval of the Federal Register, holding the only permit of a
    semaphore of capacity one, has the requests for both parts of its
    document in flight at once.  And when the fetch of one part raises, the
    fetches that [asyncio.gather] leaves running outlive the scope: the
    second part is answered, and requested again, after [_get_doc] has
    released the semaphore. *)
Lemma taken_gate_does_not_bound_requests :
  (scoped 0 hca_index_trace = false /\
   exists s, reachable (start 4 (repeat hca_index_trace 5)) s /\
             requests_in_flight s = 5%nat /\ holders s = 0%nat /\ fst s = 4%nat) /\
  (gated_operation frl_doc_trace /\
   peak_in_flight 0 frl_doc_trace = 2%nat /\
   exists s, reachable (start 1 [frl_doc_trace]) s /\
             requests_in_flight s = 2%nat /\ holders s = 1%nat /\ fst s = 0%nat) /\
  (fst frl_failed_doc = Raised connection_closed /\
   scoped 0 frl_failed_doc_trace = false /\
   nth_error frl_failed_doc_trace 18 = Some (EvExit (Semaphore 1)) /\
   nth_error frl_failed_doc_trace 26
     = Some (EvRequest 4 (request_of_str
                            "https://www.legislation.gov.au/C2004A00001/latest/text/2"))).
Proof.
  split; [|split]; [split | split | repeat split; vm_compute; reflexivity].
  - reflexivity.
  - exists (after_schedule [0; 0; 0; 1; 1; 1; 2; 2; 2; 3; 3; 3; 4; 4; 4]%nat
              (start 4 (repeat hca_index_trace 5))).
    split; [apply after_schedule_reachable | repeat split].
  - apply gated_frl_get_doc; [apply (init_takes_gate 1 None) | vm_compute; reflexivity].
  - split; [vm_compute; reflexivity|].
    exists (after_schedule (repeat 0%nat 13) (start 1 [frl_doc_trace])).
    split; [apply after_schedule_reachable | repeat split; vm_compute; reflexivity].
Qed.

Lemma taken_gate_bounds_operations_witness :
  (holders (after_schedule (repeat 0%nat 13) (start 1 [frl_doc_trace])) <= 1)%nat.
Proof.
  refine (proj1 (proj2 (proj2
            (@taken_gate_bounds_operations 1 [frl_doc_trace]
               (after_schedule (repeat 0%nat 13) (start 1 [frl_doc_trace])) _ _)))).
  - constructor; [|constructor].
    apply gated_frl_get_doc; [apply (init_takes_gate 1 None) | vm_compute; reflexivity].
  - apply after_schedule_reachable.
Defined.

End SourcesSpec.

(* --------------------------------------------------------------------- *)
(** ** helpers.py: batches *)

Module HelpersFacts.
Import Helpers HelpersSpec.

(** *** [batch_generator]: the batches as slices *)

Section Batches.
Context {A : Type}.

Lemma batch_generator_nil (batch_size : Z) :
  batch_generator (@nil A) batch_size = ([], None).
Proof. simp batch_generator. reflexivity. Qed.

Lemma batch_size_pred (batch_size : Z) :
  (1 <= batch_size <= sys_maxsize + 1)%Z ->
  Z.to_nat batch_size = S (Z.to_nat (batch_size - 1)).
Proof. intros H. lia. Qed.

Lemma batch_generator_nth_aux (batch_size : Z) :
  (1 <= batch_size <= sys_maxsize + 1)%Z ->
  forall (n : nat) (iterable : list A) (i : nat), (length iterable <= n)%nat ->
    nth_error (fst (batch_generator iterable batch_size)) i =
    if (i * Z.to_nat batch_size <? length iterable)%nat
    then Some (firstn (Z.to_nat batch_size) (skipn (i * Z.to_nat batch_size) iterable))
    else None.
Proof.
  intros Hb. pose proof (batch_size_pred Hb) as Hk.
  set (k := Z.to_nat batch_size) in *. set (k' := Z.to_nat (batch_size - 1)) in *.
  induction n as [|n IH]; intros [|first iterator] i Hlen; simpl in Hlen; try lia.
  1,2: rewrite batch_generator_nil; destruct i; reflexivity.
  rewrite (batch_generator_cons _ _ Hb). cbn zeta. fold k'. cbn [fst].
  destruct i as [|j].
  - cbn [nth_error Nat.mul]. rewrite Hk. reflexivity.
  - cbn [nth_error]. rewrite (IH (skipn k' iterator) j) by (rewrite length_skipn; lia).
    rewrite length_skipn, skipn_skipn.
    replace (S j * k)%nat with (S (j * k + k'))%nat by lia. cbn [skipn length].
    destruct (Nat.ltb_spec (j * k) (length iterator - k'));
      destruct (Nat.ltb_spec (S (j * k + k')) (S (length iterator))); try lia; reflexivity.
Qed.

Lemma batch_generator_count_aux (batch_size : Z) :
  (1 <= batch_size <= sys_maxsize + 1)%Z ->
  forall (n : nat) (iterable : list A), (length iterable <= n)%nat ->
    length (fst (batch_generator iterable batch_size)) =
    ((length iterable + Z.to_nat batch_size - 1) / Z.to_nat batch_size)%nat.
Proof.
  intros Hb. pose proof (batch_size_pred Hb) as Hk.
  set (k := Z.to_nat batch_size) in *. set (k' := Z.to_nat (batch_size - 1)) in *.
  induction n as [|n IH]; intros [|first iterator] Hlen; simpl in Hlen; try lia.
  1,2: rewrite batch_generator_nil; simpl; symmetry; apply Nat.div_small; lia.
  rewrite (batch_generator_cons _ _ Hb). cbn zeta. fold k'. cbn [fst length].
  rewrite (IH (skipn k' iterator)) by (rewrite length_skipn; lia).
  rewrite length_skipn.
  destruct (Nat.le_gt_cases (length iterator) k') as [Hle|Hgt].
  - replace (length iterator - k' + k - 1)%nat with (k - 1)%nat by lia.
    rewrite (Nat.div_small (k - 1) k) by lia.
    apply Nat.div_unique with (r := length iterator); lia.
  - replace (length iterator - k' + k - 1)%nat with (length iterator) by lia.
    replace (S (length iterator) + k - 1)%nat with (length iterator + 1 * k)%nat by lia.
    rewrite Nat.div_add by lia. lia.
Qed.

(** For a batch size from 1 to [sys.maxsize + 1], the [i]-th batch is the
    slice [iterable[i*batch_size : (i+1)*batch_size]], and there are
    [ceil(len(iterable) / batch_size)] batches. *)
Theorem batch_generator_slices (iterable : list A) (batch_size : Z) :
  (1 <= batch_size <= sys_maxsize + 1)%Z ->
  let k := Z.to_nat batch_size in
  let batches := fst (batch_generator iterable batch_size) in
  (forall i : nat,
     nth_error batches i =
     if (i * k <? length iterable)%nat then Some (firstn k (skipn (i * k) iterable))
     else None) /\
  length batches = ((length iterable + k - 1) / k)%nat.
Proof.
  intros Hb. cbn zeta. split.
  - intros i. apply batch_generator_nth_aux with (n := length iterable); auto.
  - apply batch_generator_count_aux with (n := length iterable); auto.
Qed.

(** For a batch size from 1 to [sys.maxsize + 1], batching a
    concatenation whose first part fills whole batches is batching the
    parts. *)
Theorem batch_generator_app (l1 l2 : list A) (batch_size : Z) (m : nat) :
  (1 <= batch_size <= sys_maxsize + 1)%Z ->
  length l1 = (m * Z.to_nat batch_size)%nat ->
  fst (batch_generator (l1 ++ l2) batch_size) =
  fst (batch_generator l1 batch_size) ++ fst (batch_generator l2 batch_size).
Proof.
  intros Hb. pose proof (batch_size_pred Hb) as Hk.
  set (k := Z.to_nat batch_size) in *. set (k' := Z.to_nat (batch_size - 1)) in *.
  revert l1. induction m as [|m IH]; intros l1 Hlen.
  - destruct l1; [|discriminate]. rewrite batch_generator_nil. reflexivity.
  - destruct l1 as [|first iterator]; [simpl in Hlen; lia|]. simpl in Hlen.
    change ((first :: iterator) ++ l2) with (first :: (iterator ++ l2)).
    rewrite !(batch_generator_cons _ _ Hb). cbn zeta. fold k'. cbn [fst].
    rewrite firstn_app, skipn_app.
    replace (k' - length iterator)%nat with 0%nat by lia. cbn [firstn skipn].
    rewrite app_nil_r. rewrite IH by (rewrite length_skipn; lia). reflexivity.
Qed.

(** With a batch size below one nothing is ever yielded: an empty iterable
    ends the generator at once, any other makes [islice] raise. *)
Theorem batch_generator_size_below_one (iterable : list A) (batch_size : Z) :
  (batch_size < 1)%Z ->
  fst (batch_generator iterable batch_size) = [] /\
  match iterable with
  | [] => snd (batch_generator iterable batch_size) = None
  | _ :: _ => exists e, snd (batch_generator iterable batch_size) = Some e /\
                        exn_class e = ValueError
  end.
Proof.
  intros Hb. apply batch_generator_no_index. left. exact Hb.
Qed.

End Batches.

Lemma batch_generator_slices_witness :
  nth_error (fst (batch_generator [1; 2; 3; 4; 5; 6; 7]%nat 3)) 2 = Some [7]%nat /\
  length (fst (batch_generator [1; 2; 3; 4; 5; 6; 7]%nat 3)) = 3%nat.
Proof.
  destruct (@batch_generator_slices nat [1; 2; 3; 4; 5; 6; 7]%nat 3
              ltac:(unfold sys_maxsize; lia)) as [Hn Hl].
  split; [exact (Hn 2%nat) | exact Hl].
Defined.

Lemma batch_generator_app_witness :
  fst (batch_generator ([1; 2; 3; 4] ++ [5; 6; 7])%nat 2) =
  fst (batch_generator [1; 2; 3; 4]%nat 2) ++ fst (batch_generator [5; 6; 7]%nat 2).
Proof.
  apply (@batch_generator_app nat [1; 2; 3; 4]%nat [5; 6; 7]%nat 2 2);
    [unfold sys_maxsize; lia | reflexivity].
Defined.

Lemma batch_generator_size_below_one_witness :
  fst (batch_generator [1; 2; 3]%nat 0) = [] /\
  exists e, snd (batch_generator [1; 2; 3]%nat 0) = Some e /\ exn_class e = ValueError.
Proof. apply (@batch_generator_size_below_one nat [1; 2; 3]%nat 0). lia. Defined.
End HelpersFacts.

(* --------------------------------------------------------------------- *)
(** ** helpers.py: what cleaning keeps *)

Module CleanTextFacts.
Import Helpers HelpersSpec.
Local Open Scope N_scope.

(** A character that is neither whitespace nor one of BEL, BS, FF, CR, VT. *)
Definition is_content (c : char) : bool := negb (is_space c) && negb (is_non_standard_cc c).

Lemma join_split (t : str) : join (split t) = t.
Proof.
  induction t as [|c t IH]; [reflexivity|]. simpl.
  destruct (c =? NL) eqn:E.
  - apply N.eqb_eq in E. subst c.
    rewrite join_cons by apply split_not_nil. rewrite IH. reflexivity.
  - destruct (split t) as [|line lines] eqn:Es; [exfalso; exact (split_not_nil t Es)|].
    rewrite <- IH. destruct lines; reflexivity.
Qed.

Section Filters.
Variable keep : char -> bool.
Hypothesis keep_space : forall c, is_space c = true -> keep c = false.

Lemma filter_all_ws (s : str) : all_ws s = true -> filter keep s = [].
Proof.
  induction s as [|c s IH]; [reflexivity|]. simpl. intros H.
  apply andb_true_iff in H as [Hc Hs]. rewrite (keep_space c Hc). apply IH. exact Hs.
Qed.

Lemma filter_rstrip (s : str) : filter keep (rstrip s) = filter keep s.
Proof.
  induction s as [|c s IH]; [reflexivity|]. cbn [rstrip].
  destruct (all_ws (c :: s)) eqn:E.
  - symmetry. apply filter_all_ws. exact E.
  - simpl. rewrite IH. reflexivity.
Qed.

Lemma filter_join (lines : list str) :
  filter keep (join lines) = concat (map (filter keep) lines).
Proof.
  induction lines as [|l [|l2 ls] IH]; [reflexivity| |].
  - simpl. rewrite app_nil_r. reflexivity.
  - rewrite join_cons by discriminate. rewrite filter_app. cbn [filter].
    rewrite (keep_space NL is_space_NL), IH. reflexivity.
Qed.

Lemma concat_drop_blank (lines : list str) :
  concat (map (filter keep) (drop_blank lines)) = concat (map (filter keep) lines).
Proof.
  induction lines as [|l ls IH]; [reflexivity|]. simpl.
  destruct l; simpl; [exact IH | reflexivity].
Qed.

Lemma concat_drop_blank_end (lines : list str) :
  concat (map (filter keep) (drop_blank_end lines)) = concat (map (filter keep) lines).
Proof.
  induction lines as [|l ls IH]; [reflexivity|]. cbn [drop_blank_end].
  destruct (forallb null (l :: ls)) eqn:E.
  - clear IH. revert E. generalize (l :: ls). intros lines.
    induction lines as [|x xs IHx]; [reflexivity|]. simpl. intros H.
    apply andb_true_iff in H as [Hx Hxs]. destruct x; [|discriminate]. simpl. apply IHx, Hxs.
  - simpl. rewrite IH. reflexivity.
Qed.

Lemma filter_canonical (t : str) : filter keep (join (canonical t)) = filter keep t.
Proof.
  rewrite filter_join. unfold canonical.
  rewrite concat_drop_blank_end, concat_drop_blank, map_map.
  rewrite (map_ext _ (filter keep) filter_rstrip).
  rewrite <- filter_join, join_split. reflexivity.
Qed.

End Filters.

Lemma is_content_space (c : char) : is_space c = true -> is_content c = false.
Proof. intros H. unfold is_content. rewrite H. reflexivity. Qed.

Lemma filter_content_replace (t : str) :
  filter is_content (replace NBSP SPACE t) = filter is_content t.
Proof.
  induction t as [|c t IH]; [reflexivity|]. simpl.
  destruct (c =? NBSP) eqn:E.
  - apply N.eqb_eq in E. subst c. simpl. exact IH.
  - simpl. rewrite IH. reflexivity.
Qed.

Lemma filter_content_cc (t : str) :
  filter is_content (filter (fun c => negb (is_non_standard_cc c)) t) = filter is_content t.
Proof.
  induction t as [|c t IH]; [reflexivity|]. simpl.
  destruct (is_non_standard_cc c) eqn:E; simpl.
  - unfold is_content at 2. rewrite E, andb_false_r. exact IH.
  - rewrite IH. reflexivity.
Qed.

(** Whatever the switches, [clean_text] (without [ftfy]) touches nothing but
    whitespace and the control characters BEL, BS, FF, CR, VT: every other
    character of the text is kept, in its place among the others. *)
Theorem clean_text_keeps_content (fix_text : str -> str) (s : str)
    (normalise_nbsp remove_non_standard_ccs remove_unnecessary_whitespace : bool) :
  filter is_content
    (clean_text fix_text s false normalise_nbsp remove_non_standard_ccs
       remove_unnecessary_whitespace)
  = filter is_content s.
Proof.
  unfold clean_text. cbn zeta.
  set (t1 := if normalise_nbsp then replace NBSP SPACE s else s).
  assert (H1 : filter is_content t1 = filter is_content s)
    by (unfold t1; destruct normalise_nbsp; [apply filter_content_replace | reflexivity]).
  set (t2 := if remove_non_standard_ccs
             then sub_empty NON_STANDARD_CONTROL_CHARS_RE t1 else t1).
  assert (H2 : filter is_content t2 = filter is_content s).
  { unfold t2. destruct remove_non_standard_ccs; [|exact H1].
    unfold sub_empty. rewrite sub_control_chars, filter_content_cc. exact H1. }
  destruct remove_unnecessary_whitespace; [|exact H2].
  rewrite whitespace_steps, (@filter_canonical is_content is_content_space). exact H2.
Qed.

(** *** Whitespace only *)

Lemma all_ws_replace (t : str) : all_ws t = true -> all_ws (replace NBSP SPACE t) = true.
Proof.
  induction t as [|c t IH]; [reflexivity|]. simpl. intros H.
  apply andb_true_iff in H as [Hc Ht]. rewrite (IH Ht), andb_true_r.
  destruct (c =? NBSP); [reflexivity | exact Hc].
Qed.

Lemma all_ws_filter (f : char -> bool) (t : str) : all_ws t = true -> all_ws (filter f t) = true.
Proof.
  induction t as [|c t IH]; [reflexivity|]. simpl. intros H.
  apply andb_true_iff in H as [Hc Ht]. destruct (f c); simpl; [rewrite Hc|]; apply IH, Ht.
Qed.

Lemma rstrip_all_ws (s : str) : all_ws s = true -> rstrip s = [].
Proof. destruct s as [|c s]; [reflexivity|]. intros H. cbn [rstrip]. rewrite H. reflexivity. Qed.

Lemma canonical_all_ws (t : str) : all_ws t = true -> canonical t = [].
Proof.
  intros H. unfold canonical.
  assert (Hn : forallb null (map rstrip (split t)) = true).
  { assert (Hl : Forall (Forall (fun c => is_space c = true)) (split t)).
    { apply split_Forall. apply Forall_forall. intros c Hc.
      unfold all_ws in H. rewrite forallb_forall in H. apply H, Hc. }
    induction Hl as [|l ls Hl _ IH]; [reflexivity|]. simpl.
    rewrite rstrip_all_ws; [exact IH|].
    unfold all_ws. apply forallb_forall. rewrite Forall_forall in Hl. exact Hl. }
  revert Hn. generalize (map rstrip (split t)). intros lines Hn.
  assert (Hd : drop_blank lines = []).
  { induction lines as [|l ls IH]; [reflexivity|]. simpl in *.
    apply andb_true_iff in Hn as [Hl Hls]. rewrite Hl. apply IH, Hls. }
  rewrite Hd. reflexivity.
Qed.

(** A text that holds nothing but whitespace is cleaned to the empty
    string, whatever the other switches; so is the empty string. *)
Theorem clean_text_whitespace_only (fix_text : str -> str) (s : str)
    (normalise_nbsp remove_non_standard_ccs : bool) :
  all_ws s = true ->
  clean_text fix_text s false normalise_nbsp remove_non_standard_ccs true = [].
Proof.
  intros H. unfold clean_text. cbn zeta.
  set (t1 := if normalise_nbsp then replace NBSP SPACE s else s).
  assert (H1 : all_ws t1 = true)
    by (unfold t1; destruct normalise_nbsp; [apply all_ws_replace|]; exact H).
  set (t2 := if remove_non_standard_ccs
             then sub_empty NON_STANDARD_CONTROL_CHARS_RE t1 else t1).
  assert (H2 : all_ws t2 = true).
  { unfold t2. destruct remove_non_standard_ccs; [|exact H1].
    unfold sub_empty. rewrite sub_control_chars. apply all_ws_filter, H1. }
  rewrite whitespace_steps, (canonical_all_ws _ H2). reflexivity.
Qed.

Lemma clean_text_whitespace_only_witness :
  clean_text (fun t => t) [32; 10; 9; 160; 13; 10; 32] false true true true = [].
Proof. apply (@clean_text_whitespace_only (fun t => t) [32; 10; 9; 160; 13; 10; 32] true true). reflexivity. Defined.

(** *** Length *)

Fixpoint weight (lines : list str) : nat :=
  match lines with
  | [] => O
  | l :: ls => S (length l + weight ls)
  end.

Lemma length_join (lines : list str) : length (join lines) = pred (weight lines).
Proof.
  induction lines as [|l [|l2 ls] IH]; [reflexivity| |].
  - simpl. lia.
  - rewrite join_cons by discriminate. rewrite length_app. cbn [length weight] in *.
    rewrite IH. lia.
Qed.

Lemma length_rstrip (s : str) : (length (rstrip s) <= length s)%nat.
Proof.
  induction s as [|c s IH]; [apply Nat.le_refl|]. cbn [rstrip].
  destruct (all_ws (c :: s)); simpl; lia.
Qed.

Lemma weight_map_rstrip (lines : list str) : (weight (map rstrip lines) <= weight lines)%nat.
Proof.
  induction lines as [|l ls IH]; [apply Nat.le_refl|]. simpl.
  pose proof (length_rstrip l). lia.
Qed.

Lemma weight_drop_blank (lines : list str) : (weight (drop_blank lines) <= weight lines)%nat.
Proof.
  induction lines as [|l ls IH]; [apply Nat.le_refl|]. cbn [drop_blank].
  destruct (null l); [simpl; lia | apply Nat.le_refl].
Qed.

Lemma weight_drop_blank_end (lines : list str) :
  (weight (drop_blank_end lines) <= weight lines)%nat.
Proof.
  induction lines as [|l ls IH]; [apply Nat.le_refl|]. cbn [drop_blank_end].
  destruct (forallb null (l :: ls)); simpl; lia.
Qed.

Lemma length_canonical (t : str) : (length (join (canonical t)) <= length t)%nat.
Proof.
  rewrite length_join. rewrite <- (join_split t) at 2. rewrite length_join.
  apply Nat.pred_le_mono. unfold canonical.
  eapply Nat.le_trans; [apply weight_drop_blank_end|].
  eapply Nat.le_trans; [apply weight_drop_blank | apply weight_map_rstrip].
Qed.

(** Whatever the switches, [clean_text] (without [ftfy]) never returns a
    text longer than the one it was given. *)
Theorem clean_text_never_longer (fix_text : str -> str) (s : str)
    (normalise_nbsp remove_non_standard_ccs remove_unnecessary_whitespace : bool) :
  (length (clean_text fix_text s false normalise_nbsp remove_non_standard_ccs
             remove_unnecessary_whitespace) <= length s)%nat.
Proof.
  unfold clean_text. cbn zeta.
  set (t1 := if normalise_nbsp then replace NBSP SPACE s else s).
  assert (H1 : (length t1 <= length s)%nat).
  { unfold t1. destruct normalise_nbsp; [|apply Nat.le_refl].
    unfold replace. rewrite length_map. apply Nat.le_refl. }
  set (t2 := if remove_non_standard_ccs
             then sub_empty NON_STANDARD_CONTROL_CHARS_RE t1 else t1).
  assert (H2 : (length t2 <= length s)%nat).
  { unfold t2. destruct remove_non_standard_ccs; [|exact H1].
    unfold sub_empty. rewrite sub_control_chars.
    eapply Nat.le_trans; [apply filter_length_le | exact H1]. }
  destruct remove_unnecessary_whitespace; [|exact H2].
  rewrite whitespace_steps. eapply Nat.le_trans; [apply length_canonical | exact H2].
Qed.

End CleanTextFacts.

(* --------------------------------------------------------------------- *)
(** ** helpers.py: the JSON files *)

Module StorageSpec.
Import Engine Storage.

Lemma write_file_same (path : string) (data : bytes) (d : disk) :
  write_file path data d path = Some data.
Proof. unfold write_file. rewrite String.eqb_refl. reflexivity. Qed.

Lemma write_file_other (path p : string) (data : bytes) (d : disk) :
  p <> path -> write_file path data d p = d p.
Proof. intros H. unfold write_file. apply String.eqb_neq in H. rewrite H. reflexivity. Qed.

(** A line without a newline in it, then the newline: one line. *)
Lemma readlines_line (line rest : bytes) :
  ~ In x0a line -> readlines (line ++ x0a :: rest) = (line ++ [x0a]) :: readlines rest.
Proof.
  induction line as [|b line IH]; intros Hin; [reflexivity|].
  cbn [app readlines].
  destruct (Byte.eqb b x0a) eqn:E.
  - exfalso. apply Hin. left. symmetry. apply Byte.byte_dec_bl. exact E.
  - rewrite IH by (intros H; apply Hin; right; exact H). reflexivity.
Qed.

Section Lines.
Variable A : Type.
Variable encoder : A -> exn + bytes.

(** The lines [save_jsonl] writes for entries that can all be encoded. *)
Fixpoint lines_of (content : list A) : bytes :=
  match content with
  | [] => []
  | entry :: content' =>
      match encoder entry with
      | inr data => data ++ x0a :: lines_of content'
      | inl _ => []
      end
  end.

Definition encodable (entry : A) : Prop := exists data, encoder entry = inr data.

Lemma write_entries_encodable (content : list A) :
  Forall encodable content ->
  forall written,
    write_entries content encoder written = (inr tt, written ++ lines_of content).
Proof.
  induction 1 as [|entry content [data Hd] _ IH]; intros written; simpl.
  - rewrite app_nil_r. reflexivity.
  - rewrite Hd, IH, <- !app_assoc. reflexivity.
Qed.

Lemma write_entries_failure (pre post : list A) (bad : A) (e : exn) :
  Forall encodable pre -> encoder bad = inl e ->
  forall written,
    write_entries (pre ++ bad :: post) encoder written = (inl e, written ++ lines_of pre).
Proof.
  intros Hpre Hbad. induction Hpre as [|entry pre [data Hd] _ IH]; intros written; simpl.
  - rewrite Hbad, app_nil_r. reflexivity.
  - rewrite Hd, IH, <- !app_assoc. reflexivity.
Qed.

End Lines.

(** A list saved with [save_jsonl] is the list [load_jsonl] loads, when no
    entry is encoded with a newline in it and the decoder reads back each
    encoded entry with the newline that follows it; the other files are left
    as they were, and what the file held before does not matter. *)
Theorem jsonl_round_trip (A : Type) (open_wb : string -> option exn) (path : string)
    (content : list A) (encoder : A -> exn + bytes) (decoder : bytes -> exn + A)
    (d : disk) :
  open_wb path = None ->
  (forall entry, In entry content ->
     exists data, encoder entry = inr data /\ ~ In x0a data /\
                  decoder (data ++ [x0a]) = inr entry) ->
  let r := save_jsonl open_wb path content encoder d in
  fst r = inr tt /\
  load_jsonl path decoder (snd r) = inr content /\
  (forall p, p <> path -> snd r p = d p).
Proof.
  intros Hopen Henc. cbn zeta. unfold save_jsonl. rewrite Hopen.
  assert (Hall : Forall (encodable encoder) content).
  { apply Forall_forall. intros entry Hin. destruct (Henc entry Hin) as (data & Hd & _).
    exists data. exact Hd. }
  rewrite (write_entries_encodable Hall). cbn [fst snd app].
  split; [reflexivity|]. split; [|intros p Hp; apply write_file_other; exact Hp].
  unfold load_jsonl, open_rb. rewrite write_file_same. clear Hall.
  induction content as [|entry content IH]; [reflexivity|].
  destruct (Henc entry (or_introl eq_refl)) as (data & Hd & Hnl & Hdec).
  cbn [lines_of]. rewrite Hd, readlines_line by exact Hnl.
  cbn [Sources.comprehension]. rewrite Hdec, IH; [reflexivity|].
  intros x Hx. apply Henc. right. exact Hx.
Qed.

(** When the encoder fails on an entry, [save_jsonl] raises its exception
    and leaves in the file the lines of the entries before it, and nothing of
    what the file held before. *)
Theorem save_jsonl_partial (A : Type) (open_wb : string -> option exn) (path : string)
    (pre post : list A) (bad : A) (e : exn) (encoder : A -> exn + bytes) (d : disk) :
  open_wb path = None ->
  Forall (encodable encoder) pre -> encoder bad = inl e ->
  let r := save_jsonl open_wb path (pre ++ bad :: post) encoder d in
  fst r = inl e /\ snd r path = Some (lines_of encoder pre).
Proof.
  intros Hopen Hpre Hbad. cbn zeta. unfold save_jsonl. rewrite Hopen.
  rewrite (@write_entries_failure A encoder pre post bad e Hpre Hbad). cbn [fst snd app].
  split; [reflexivity | apply write_file_same].
Qed.

(** What [save_json] saved is what [load_json] decodes; the other files are
    left as they were. *)
Theorem json_round_trip (A B : Type) (open_wb : string -> option exn) (path : string)
    (content : A) (data : bytes) (encoder : A -> exn + bytes)
    (decoder : bytes -> exn + B) (d : disk) :
  open_wb path = None -> encoder content = inr data ->
  let r := save_json open_wb path content encoder d in
  fst r = inr tt /\
  load_json path decoder (snd r) = decoder data /\
  (forall p, p <> path -> snd r p = d p).
Proof.
  intros Hopen Henc. cbn zeta. unfold save_json. rewrite Hopen, Henc. cbn [fst snd].
  split; [reflexivity|]. split.
  - unfold load_json, open_rb. rewrite write_file_same. reflexivity.
  - intros p Hp. rewrite !write_file_other by exact Hp. reflexivity.
Qed.

(** The file is opened, and so emptied, before the content is encoded: when
    the encoder fails, [save_json] raises its exception and the file is left
    empty, whatever it held before. *)
Theorem save_json_failure_empties (A : Type) (open_wb : string -> option exn)
    (path : string) (content : A) (e : exn) (encoder : A -> exn + bytes) (d : disk) :
  open_wb path = None -> encoder content = inl e ->
  let r := save_json open_wb path content encoder d in
  fst r = inl e /\ snd r path = Some [].
Proof.
  intros Hopen Henc. cbn zeta. unfold save_json. rewrite Hopen, Henc. cbn [fst snd].
  split; [reflexivity | apply write_file_same].
Qed.

(** *** Examples: a file of flags *)

Fixpoint bytes_eqb (a b : bytes) : bool :=
  match a, b with
  | [], [] => true
  | x :: a', y :: b' => Byte.eqb x y && bytes_eqb a' b'
  | _, _ => false
  end.

(** An encoder that knows the two booleans, and a decoder that reads them
    back, with or without a newline after them. *)
Definition encode_flag (flag : option bool) : exn + bytes :=
  match flag with
  | Some true => inr (list_byte_of_string "true")
  | Some false => inr (list_byte_of_string "false")
  | None => inl (mk_exn TypeError None "Encoding objects of type NoneType is unsupported")
  end.

Definition decode_flag (data : bytes) : exn + option bool :=
  if bytes_eqb data (list_byte_of_string "true")
     || bytes_eqb data (list_byte_of_string "true" ++ [x0a]) then inr (Some true)
  else if bytes_eqb data (list_byte_of_string "false")
          || bytes_eqb data (list_byte_of_string "false" ++ [x0a]) then inr (Some false)
  else inl (mk_exn ValueError None "unexpected character").

Definition any_path (path : string) : option exn := None.

(** A machine with one file. *)
Definition old_disk : disk := write_file "flags.json" (list_byte_of_string "true") (fun _ => None).

Lemma jsonl_round_trip_witness :
  load_jsonl "flags.jsonl" decode_flag
    (snd (save_jsonl any_path "flags.jsonl" [Some true; Some false] encode_flag old_disk))
  = inr [Some true; Some false].
Proof.
  refine (proj1 (proj2 (@jsonl_round_trip _ any_path "flags.jsonl" [Some true; Some false]
                          encode_flag decode_flag old_disk eq_refl _))).
  intros entry [<-|[<-|[]]]; eexists; (split; [reflexivity|]); (split; [|reflexivity]);
    intros H; simpl in H; repeat (destruct H as [H|H]; [discriminate H|]); exact H.
Defined.

Lemma save_jsonl_partial_witness :
  let r := save_jsonl any_path "flags.json" ([Some true] ++ None :: [Some false])
             encode_flag old_disk in
  (exists e, fst r = inl e) /\
  snd r "flags.json"%string = Some (list_byte_of_string "true" ++ [x0a]).
Proof.
  cbn zeta.
  destruct (@save_jsonl_partial _ any_path "flags.json" [Some true] [Some false] None
              (mk_exn TypeError None "Encoding objects of type NoneType is unsupported")
              encode_flag old_disk eq_refl) as [Hr Hf].
  - constructor; [eexists; reflexivity | constructor].
  - reflexivity.
  - split; [eexists; exact Hr | exact Hf].
Defined.

Lemma json_round_trip_witness :
  load_json "flags.json" decode_flag
    (snd (save_json any_path "flags.json" (Some false) encode_flag old_disk))
  = inr (Some false).
Proof.
  exact (proj1 (proj2 (@json_round_trip _ _ any_path "flags.json" (Some false)
                         (list_byte_of_string "false") encode_flag decode_flag old_disk
                         eq_refl eq_refl))).
Defined.

Lemma save_json_failure_empties_witness :
  old_disk "flags.json"%string = Some (list_byte_of_string "true") /\
  snd (save_json any_path "flags.json" None encode_flag old_disk) "flags.json"%string
    = Some [].
Proof.
  split; [reflexivity|].
  exact (proj2 (@save_json_failure_empties _ any_path "flags.json" None
                  (mk_exn TypeError None "Encoding objects of type NoneType is unsupported")
                  encode_flag old_disk eq_refl eq_refl)).
Defined.

End StorageSpec.

(* --------------------------------------------------------------------- *)
(** ** scraper.py: termination, waiting and the gate *)

Module EngineFacts.
Import Engine BackoffSpec EngineSpec.
Local Open Scope Q_scope.

(** *** The retry loops end *)

(** The least a wait can be: no jitter, no extra jitter. *)
Definition least_wait (self : Scraper) (attempt : Z) : Q :=
  Qmin (wait_base self ^ attempt / 2) (max_wait self).

(** The least the waits after attempts [attempt + 1], ..., [attempt + n]
    add up to. *)
Fixpoint least_total (self : Scraper) (n : nat) (attempt : Z) : Q :=
  match n with
  | O => 0
  | S n' => least_wait self (attempt + 1) + least_total self n' (attempt + 1)
  end.

Lemma least_wait_le (self : Scraper) (n : Z) (u1 u2 : Q) :
  0 <= wait_base self -> 0 <= max_extra_jitter self -> 0 <= u1 -> 0 <= u2 ->
  least_wait self n <= backoff_wait self n u1 u2.
Proof.
  intros Hb HJ H1 H2. unfold least_wait, backoff_wait.
  pose proof (Qpower_0_le (wait_base self) n Hb) as Hp. revert Hp.
  generalize (wait_base self ^ n). intros a Ha.
  generalize dependent (max_extra_jitter self). intros J HJ.
  assert (Hh : a / 2 == a * (1 # 2)) by (unfold Qdiv; reflexivity).
  rewrite <- (Qplus_0_r (Qmin (a / 2) (max_wait self))).
  apply Qplus_le_compat; [apply Q.min_le_compat_r; rewrite !Hh; nra | nra].
Qed.

Section Termination.
Variable env : environment.
Variable self : Scraper.
Context {A : Type}.
Variable action : world -> (exn + A) * world.
Variable retryable : exn -> bool.

Hypothesis base_nonneg : 0 <= wait_base self.
Hypothesis jitter_nonneg : 0 <= max_extra_jitter self.
Hypothesis draws_nonneg : forall n, 0 <= random env n.

(** Once the least possible waits of [f] retries pass the ceiling, the
    loop ends within [f + 1] attempts. *)
Lemma retry_loop_finishes (f : nat) :
  forall (attempt : Z) (elapsed : Q) (w : world),
    stop_after_waiting self < elapsed + least_total self f attempt ->
    finished (fst (retry_loop env self action retryable (S f) attempt elapsed w)) = true.
Proof.
  induction f as [|f IH]; intros attempt elapsed w Hlt.
  - cbn [retry_loop]. destruct (action w) as [[e|a] w1]; [|reflexivity].
    destruct (retryable e); [|reflexivity].
    destruct (Qgt_bool elapsed (stop_after_waiting self)) eqn:E; [reflexivity|].
    apply Qgt_bool_false in E. simpl in Hlt. lra.
  - cbn [retry_loop]. destruct (action w) as [[e|a] w1]; [|reflexivity].
    destruct (retryable e); [|reflexivity].
    destruct (Qgt_bool elapsed (stop_after_waiting self)) eqn:E; [reflexivity|].
    apply IH. cbn [least_total] in Hlt.
    pose proof (@least_wait_le self (attempt + 1) (random env (w_draws w1))
                  (random env (S (w_draws w1))) base_nonneg jitter_nonneg
                  (draws_nonneg _) (draws_nonneg _)) as Hw.
    unfold next_wait. lra.
Qed.

(** A run that has ended does not change when the bound is raised. *)
Lemma retry_loop_fuel (f k : nat) :
  forall (attempt : Z) (elapsed : Q) (w : world),
    finished (fst (retry_loop env self action retryable f attempt elapsed w)) = true ->
    retry_loop env self action retryable (f + k) attempt elapsed w =
    retry_loop env self action retryable f attempt elapsed w.
Proof.
  induction f as [|f IH]; intros attempt elapsed w Hfin; [discriminate|].
  change (S f + k)%nat with (S (f + k)). cbn [retry_loop] in *.
  destruct (action w) as [[e|a] w1]; [|reflexivity].
  destruct (retryable e); [|reflexivity].
  destruct (Qgt_bool elapsed (stop_after_waiting self)); [reflexivity|].
  apply IH. exact Hfin.
Qed.

End Termination.

(** In the scrapers the constructors build, the least waits of 27 retries
    pass the ceiling. *)
Lemma constructed_least_total (self : Scraper) :
  constructed self ->
  0 <= wait_base self /\ 0 <= max_extra_jitter self /\
  stop_after_waiting self < 0 + least_total self 27 0.
Proof.
  intros [(? & ? & ? & ? & ? & ->)|[(? & ? & ->)|(? & ? & ->)]];
    (split; [discriminate|]; split; [discriminate|]; vm_compute; reflexivity).
Qed.

Lemma finished_log (A : Type) (func : string) (r : outcome A * world) :
  finished (fst (log func r)) = finished (fst r).
Proof. rewrite (proj1 (log_spec func r)). reflexivity. Qed.

(** The retry loops end: in every scraper the constructors build, [get] and
    [get_doc] return or raise within 28 attempts, whatever the transport and
    the source do; a bound of 28 or more on the iterations changes nothing. *)
Theorem retry_loops_terminate (env : environment) (Request_of_str : string -> Request)
    (self : Scraper) (fuel : nat) (req : Request + string) (entry : Entry) (w : world) :
  constructed self -> (forall n, 0 <= random env n) -> (28 <= fuel)%nat ->
  finished (fst (get env Request_of_str self 28 req w)) = true /\
  get env Request_of_str self fuel req w = get env Request_of_str self 28 req w /\
  finished (fst (get_doc env self 28 entry w)) = true /\
  get_doc env self fuel entry w = get_doc env self 28 entry w.
Proof.
  intros Hc Hu Hfuel. destruct (constructed_least_total Hc) as (Hb & HJ & Hlt).
  replace fuel with (28 + (fuel - 28))%nat by lia. generalize (fuel - 28)%nat. intros k.
  assert (Hget : forall r, finished (fst (get_loop env self 28 r 0%Z 0 w)) = true).
  { intros r. rewrite get_loop_retry_loop. apply retry_loop_finishes; assumption. }
  assert (Hdoc : finished (fst (get_doc_loop env self 28 entry 0%Z 0 w)) = true).
  { rewrite get_doc_loop_retry_loop. apply retry_loop_finishes; assumption. }
  split; [|split; [|split]].
  - unfold get. rewrite finished_log. unfold get_undecorated.
    destruct (String.eqb _ _); [|apply Hget].
    unfold get_open. destruct (files env _); reflexivity.
  - unfold get, get_undecorated. destruct (String.eqb _ _); [reflexivity|].
    rewrite (get_loop_retry_loop env self (28 + k)).
    rewrite (get_loop_retry_loop env self 28).
    rewrite retry_loop_fuel; [reflexivity|].
    rewrite <- get_loop_retry_loop. apply Hget.
  - unfold get_doc. rewrite finished_log. exact Hdoc.
  - unfold get_doc.
    rewrite (get_doc_loop_retry_loop env self (28 + k)).
    rewrite (get_doc_loop_retry_loop env self 28).
    rewrite retry_loop_fuel; [reflexivity|].
    rewrite <- get_doc_loop_retry_loop. exact Hdoc.
Qed.

(** An environment in which every request times out after five minutes and
    the random source always returns 0: the waits are the least possible. *)
Definition always_times_out : environment :=
  mk_environment no_files (fun _ => RequestRaises timeout 300)
    (fun _ => inr None) (fun _ => 0).

Lemma retry_loops_terminate_witness :
  finished (fst (get always_times_out request_of_str base_scraper 28 (inl example_request)
                   (initial_world false))) = true.
Proof.
  refine (proj1 (@retry_loops_terminate always_times_out request_of_str base_scraper 28
                   (inl example_request) example_entry (initial_world false) _ _ _)).
  - left. exists "source"%string, None, None, None, None. reflexivity.
  - intros n. discriminate.
  - lia.
Defined.


(** *** The time spent waiting *)

Lemma Qsum_app (a b : list Q) : Qsum (a ++ b) == Qsum a + Qsum b.
Proof.
  induction a as [|x a IH].
  - change (Qsum b == 0 + Qsum b). ring.
  - change (x + Qsum (a ++ b) == x + Qsum a + Qsum b). rewrite IH. ring.
Qed.

Lemma waits_from_le (env : environment) (self : Scraper) (n : nat) :
  0 <= max_extra_jitter self -> (forall i, 0 <= random env i <= 1) ->
  forall (attempt : Z) (draw : nat),
    Forall (fun s => s <= max_wait self + max_extra_jitter self)
      (waits_from env self n attempt draw).
Proof.
  intros HJ Hu. induction n as [|n IH]; intros attempt draw; simpl; constructor.
  - apply backoff_wait_le_cap; [exact HJ | apply Hu].
  - apply IH.
Qed.

(** Waits that were each decided below the ceiling, and are each at most
    [cap], add up to at most the ceiling plus [cap]. *)
Lemma waits_total (stop cap : Q) (waits : list Q) :
  0 <= stop + cap ->
  (forall pre s post, waits = pre ++ s :: post -> Qsum pre <= stop) ->
  Forall (fun s => s <= cap) waits ->
  Qsum waits <= stop + cap.
Proof.
  intros H0 Hpre Hcap. destruct waits as [|x l] using rev_ind; [exact H0|].
  rewrite Qsum_app. apply Forall_app in Hcap as [_ Hx]. inversion Hx; subst.
  pose proof (Hpre l x [] eq_refl) as Hl.
  change (Qsum [x]) with (x + 0). lra.
Qed.

Section Waits.
Variable env : environment.
Variable Request_of_str : string -> Request.
Variable self : Scraper.

Hypothesis total_nonneg :
  0 <= stop_after_waiting self + (max_wait self + max_extra_jitter self).
Hypothesis jitter_nonneg : 0 <= max_extra_jitter self.
Hypothesis draws_unit : forall n, 0 <= random env n <= 1.

Lemma get_loop_total_wait (fuel : nat) (req : Request) (w : world) :
  exists evs,
    w_trace (snd (get_loop env self fuel req 0%Z 0 w)) = w_trace w ++ evs /\
    Qsum (sleeps_of evs)
      <= stop_after_waiting self + (max_wait self + max_extra_jitter self).
Proof.
  rewrite get_loop_retry_loop.
  destruct (get_loop_run env self fuel req 0%Z 0 w) as (evs & Htr & Hpre & _ & Hwaits & _).
  exists evs. split; [exact Htr|]. apply waits_total; [exact total_nonneg | |].
  - intros pre s post Heq. specialize (Hpre _ _ _ Heq). lra.
  - rewrite Hwaits. apply waits_from_le; assumption.
Qed.

Lemma get_doc_loop_total_wait (fuel : nat) (entry : Entry) (w : world) :
  exists evs,
    w_trace (snd (get_doc_loop env self fuel entry 0%Z 0 w)) = w_trace w ++ evs /\
    Qsum (sleeps_of evs)
      <= stop_after_waiting self + (max_wait self + max_extra_jitter self).
Proof.
  rewrite get_doc_loop_retry_loop.
  destruct (get_doc_loop_run env self fuel entry 0%Z 0 w)
    as (evs & Htr & Hpre & _ & Hwaits & _).
  exists evs. split; [exact Htr|]. apply waits_total; [exact total_nonneg | |].
  - intros pre s post Heq. specialize (Hpre _ _ _ Heq). lra.
  - rewrite Hwaits. apply waits_from_le; assumption.
Qed.

End Waits.

Lemma log_total_wait (A : Type) (func : string) (r : outcome A * world) (w : world)
    (bound : Q) :
  (exists evs, w_trace (snd r) = w_trace w ++ evs /\ Qsum (sleeps_of evs) <= bound) ->
  exists evs, w_trace (snd (log func r)) = w_trace w ++ evs /\
              Qsum (sleeps_of evs) <= bound.
Proof.
  intros (evs & Htr & Hle).
  destruct (log_spec func r) as (_ & wevs & Hw & Hs & _).
  exists (evs ++ wevs). rewrite Hw, Htr, <- app_assoc. split; [reflexivity|].
  rewrite sleeps_of_app, Hs, app_nil_r. exact Hle.
Qed.

Lemma constructed_bound (self : Scraper) :
  constructed self ->
  0 <= stop_after_waiting self + (max_wait self + max_extra_jitter self) /\
  0 <= max_extra_jitter self.
Proof.
  intros [(? & ? & ? & ? & ? & ->)|[(? & ? & ->)|(? & ? & ->)]]; split; discriminate.
Qed.

(** One call of [get] or of [get_doc] of a scraper that the constructors
    build never spends more time waiting between its attempts than the
    ceiling plus one capped wait and its extra jitter (900 + 150 + 0.05
    seconds with the values of the base class), however long it keeps
    failing; the bound is stated with the [rounding_margin] that the sums
    of the code need. *)
Theorem total_wait_bounded (env : environment) (Request_of_str : string -> Request)
    (self : Scraper) (fuel : nat) (req : Request) (entry : Entry) (w : world) :
  constructed self ->
  (forall n, 0 <= random env n <= 1) ->
  String.eqb (method req) "open" = false ->
  (exists evs,
     w_trace (snd (get env Request_of_str self fuel (inl req) w)) = w_trace w ++ evs /\
     Qsum (sleeps_of evs)
       <= stop_after_waiting self + (max_wait self + max_extra_jitter self)
          + rounding_margin) /\
  (exists evs,
     w_trace (snd (get_doc env self fuel entry w)) = w_trace w ++ evs /\
     Qsum (sleeps_of evs)
       <= stop_after_waiting self + (max_wait self + max_extra_jitter self)
          + rounding_margin).
Proof.
  intros Hc Hu Hm. destruct (constructed_bound Hc) as [H0 HJ].
  assert (Hmargin : forall x y : Q, x <= y -> x <= y + rounding_margin)
    by (intros x y Hxy; unfold rounding_margin; lra).
  split.
  - rewrite (get_network env Request_of_str self fuel req w Hm).
    destruct (@log_total_wait (Response) "get" (get_loop env self fuel req 0%Z 0 w) w
                (stop_after_waiting self + (max_wait self + max_extra_jitter self)))
      as (evs & Htr & Hsum).
    + apply get_loop_total_wait; assumption.
    + exists evs. split; [exact Htr | apply Hmargin; exact Hsum].
  - unfold get_doc.
    destruct (@log_total_wait (option Document) "get_doc"
                (get_doc_loop env self fuel entry 0%Z 0 w) w
                (stop_after_waiting self + (max_wait self + max_extra_jitter self)))
      as (evs & Htr & Hsum).
    + apply get_doc_loop_total_wait; assumption.
    + exists evs. split; [exact Htr | apply Hmargin; exact Hsum].
Qed.

Lemma total_wait_bounded_witness :
  exists evs,
    w_trace (snd (get always_times_out request_of_str base_scraper 28 (inl example_request)
                    (initial_world false))) = [] ++ evs /\
    Qsum (sleeps_of evs)
      <= stop_after_waiting base_scraper
         + (max_wait base_scraper + max_extra_jitter base_scraper) + rounding_margin.
Proof.
  refine (proj1 (@total_wait_bounded always_times_out request_of_str base_scraper 28
                   example_request example_entry (initial_world false) _ _ _)).
  - left. exists "source"%string, None, None, None, None. reflexivity.
  - intros n. split; discriminate.
  - reflexivity.
Defined.

(** *** The semaphore during a call of [get] *)

(** What a trace does with the engine's gate, starting with the permit held
    or not: [None] when it acquires while holding, releases, sends, receives,
    makes or closes a session while not holding, or sleeps while holding;
    otherwise whether the permit is held at the end. *)
Fixpoint permit_state (held : bool) (evs : list event) : option bool :=
  match evs with
  | [] => Some held
  | ev :: evs' =>
      match ev with
      | EvEnter _ => if held then None else permit_state true evs'
      | EvExit _ => if held then permit_state false evs' else None
      | EvSessionCreate _ | EvSessionClose _ | EvRequest _ _ | EvResponse _ =>
          if held then permit_state held evs' else None
      | EvSleep _ => if held then None else permit_state held evs'
      | _ => permit_state held evs'
      end
  end.

(** The gate an effect enters or leaves is the engine's. *)
Definition own_gate (self : Scraper) (ev : event) : Prop :=
  match ev with
  | EvEnter g | EvExit g => g = semaphore self
  | _ => True
  end.

Lemma permit_state_app (a b : list event) :
  forall held : bool,
    permit_state held (a ++ b) =
    match permit_state held a with
    | Some held' => permit_state held' b
    | None => None
    end.
Proof.
  induction a as [|ev a IH]; intros held; [reflexivity|].
  destruct ev; destruct held; simpl; try reflexivity; apply IH.
Qed.

Lemma permit_state_warnings (wevs : list event) :
  Forall (fun ev => exists m, ev = EvWarning m) wevs ->
  forall held, permit_state held wevs = Some held.
Proof. induction 1 as [|ev wevs [m ->] _ IH]; intros held; [reflexivity | apply IH]. Qed.

Section Attempts.
Variable env : environment.
Variable Request_of_str : string -> Request.
Variable self : Scraper.

Lemma attempt_events_shape (req : Request) (w : world) :
  permit_state false (attempt_events self req w) = Some false /\
  Forall (own_gate self) (attempt_events self req w) /\
  length (requests_of (attempt_events self req w)) = 1%nat /\
  sleeps_of (attempt_events self req w) = [].
Proof.
  unfold attempt_events. destruct (reused_session self w);
    repeat split; repeat constructor.
Qed.

(** The shape of every run of the loop: the permit is held from the start
    of an attempt to its end and at no other time, each attempt sends one
    request, and a run that has ended made one attempt more than waits. *)
Lemma get_loop_shape (fuel : nat) (req : Request) :
  forall (attempt : Z) (elapsed : Q) (w : world),
    let r := get_loop env self fuel req attempt elapsed w in
    exists evs,
      w_trace (snd r) = w_trace w ++ evs /\
      permit_state false evs = Some false /\
      Forall (own_gate self) evs /\
      length (requests_of evs)
        = (if finished (fst r) then S (length (sleeps_of evs)) else length (sleeps_of evs)) /\
      w_requests (snd r) = (w_requests w + length (requests_of evs))%nat.
Proof.
  induction fuel as [|fuel IH]; intros attempt elapsed w; cbn zeta.
  - exists []. simpl. rewrite app_nil_r, Nat.add_0_r. repeat split. constructor.
  - rewrite get_loop_step. cbn zeta.
    destruct (attempt_fetch_spec env self req w) as (_ & Htr & _ & Hreq & _).
    destruct (attempt_events_shape req w) as (Hp & Hown & Hone & Hquiet).
    set (w1 := snd (attempt_fetch env self req w)) in *.
    assert (Hend : forall o : outcome Response, finished o = true ->
              exists evs,
                w_trace (snd (o, w1)) = w_trace w ++ evs /\
                permit_state false evs = Some false /\
                Forall (own_gate self) evs /\
                length (requests_of evs)
                  = (if finished (fst (o, w1)) then S (length (sleeps_of evs))
                     else length (sleeps_of evs)) /\
                w_requests (snd (o, w1)) = (w_requests w + length (requests_of evs))%nat).
    { intros o Ho. exists (attempt_events self req w). cbn [fst snd]. rewrite Ho, Hquiet, Hone.
      repeat split; try assumption. rewrite Hreq. lia. }
    destruct (fst (attempt_fetch env self req w)) as [e|resp]; [|apply Hend; reflexivity].
    destruct (isinstance e (retry_exceptions self)); [|apply Hend; reflexivity].
    destruct (Qgt_bool elapsed (stop_after_waiting self)); [apply Hend; reflexivity|].
    destruct (IH (attempt + 1)%Z (elapsed + next_wait env self attempt w1)
                 (after_sleep (next_wait env self attempt w1) w1))
      as (evs & Htr' & Hp' & Hown' & Hcount & Hreq').
    cbn zeta in *.
    exists (attempt_events self req w ++ EvSleep (next_wait env self attempt w1) :: evs).
    split; [rewrite Htr'; simpl; rewrite Htr, <- !app_assoc; reflexivity|].
    split; [rewrite permit_state_app, Hp; exact Hp'|].
    split; [apply Forall_app; split; [exact Hown | constructor; [exact I | exact Hown']]|].
    assert (Hr : requests_of (attempt_events self req w
                              ++ EvSleep (next_wait env self attempt w1) :: evs)
                 = requests_of (attempt_events self req w) ++ requests_of evs)
      by (unfold requests_of; rewrite flat_map_app; reflexivity).
    assert (Hs : sleeps_of (attempt_events self req w
                            ++ EvSleep (next_wait env self attempt w1) :: evs)
                 = next_wait env self attempt w1 :: sleeps_of evs)
      by (rewrite sleeps_of_app, Hquiet; reflexivity).
    rewrite Hr, Hs, length_app, Hone, Hcount, Hreq'. simpl w_requests. rewrite Hreq.
    split; [destruct (finished _); reflexivity | simpl; lia].
Qed.

End Attempts.

(** On the network path, [get] holds the permit of its semaphore from the
    start of each attempt to its end and at no other time: every request and
    answer falls inside, every wait between attempts falls outside, and when
    the call returns, raises or is cut off the permit has been given back. *)
Theorem get_permit_per_attempt (env : environment) (Request_of_str : string -> Request)
    (self : Scraper) (fuel : nat) (req : Request) (w : world) :
  String.eqb (method req) "open" = false ->
  exists evs,
    w_trace (snd (get env Request_of_str self fuel (inl req) w)) = w_trace w ++ evs /\
    permit_state false evs = Some false /\
    Forall (own_gate self) evs.
Proof.
  intros Hm. rewrite (get_network env Request_of_str self fuel req w Hm).
  destruct (log_spec "get" (get_loop env self fuel req 0%Z 0 w))
    as (_ & wevs & Htr & _ & _ & Hwarn & _).
  destruct (get_loop_shape env self fuel req 0%Z 0 w) as (evs & Htr' & Hp & Hown & _).
  exists (evs ++ wevs). rewrite Htr, Htr', <- app_assoc. split; [reflexivity|]. split.
  - rewrite permit_state_app, Hp. apply permit_state_warnings. exact Hwarn.
  - apply Forall_app. split; [exact Hown|].
    eapply Forall_impl; [|exact Hwarn]. intros ev [m ->]. exact I.
Qed.

Lemma get_permit_per_attempt_witness :
  exists evs,
    w_trace (snd (get four_timeouts request_of_str base_scraper 5 (inl example_request)
                    (initial_world false))) = [] ++ evs /\
    permit_state false evs = Some false /\
    Forall (own_gate base_scraper) evs.
Proof.
  exact (@get_permit_per_attempt four_timeouts request_of_str base_scraper 5 example_request
           (initial_world false) eq_refl).
Defined.

(** On the network path, every attempt of [get] sends exactly one request:
    a call that has returned or raised sent one request more than it waited,
    and the transport has been used that many times. *)
Theorem get_requests_count (env : environment) (Request_of_str : string -> Request)
    (self : Scraper) (fuel : nat) (req : Request) (w : world) :
  String.eqb (method req) "open" = false ->
  let r := get env Request_of_str self fuel (inl req) w in
  exists evs,
    w_trace (snd r) = w_trace w ++ evs /\
    length (requests_of evs)
      = (if finished (fst r) then S (length (sleeps_of evs)) else length (sleeps_of evs)) /\
    w_requests (snd r) = (w_requests w + length (requests_of evs))%nat.
Proof.
  intros Hm. cbn zeta. rewrite (get_network env Request_of_str self fuel req w Hm).
  destruct (log_spec "get" (get_loop env self fuel req 0%Z 0 w))
    as (Hfst & wevs & Htr & Hs & Hr & _).
  destruct (get_loop_shape env self fuel req 0%Z 0 w)
    as (evs & Htr' & _ & _ & Hcount & Hreq).
  cbn zeta in *. exists (evs ++ wevs). rewrite Htr, Htr', <- app_assoc, Hfst.
  split; [reflexivity|].
  assert (Hr' : requests_of (evs ++ wevs) = requests_of evs)
    by (unfold requests_of in *; rewrite flat_map_app, Hr, app_nil_r; reflexivity).
  rewrite Hr', sleeps_of_app, Hs, app_nil_r. split; [exact Hcount|].
  rewrite <- Hreq. destruct (get_loop env self fuel req 0%Z 0 w) as [[a|e|] w1]; simpl;
    try reflexivity.
  destruct (issubclass (exn_class e) Exception_); reflexivity.
Qed.

Lemma get_requests_count_witness :
  exists evs,
    w_trace (snd (get four_timeouts request_of_str base_scraper 5 (inl example_request)
                    (initial_world false))) = [] ++ evs /\
    length (requests_of evs) = 5%nat /\ length (sleeps_of evs) = 4%nat.
Proof.
  destruct (@get_requests_count four_timeouts request_of_str base_scraper 5 example_request
              (initial_world false) eq_refl) as (evs & Htr & Hcount & Hreq).
  exists evs. split; [exact Htr|].
  assert (Hn : length (requests_of evs) = 5%nat) by exact (eq_sym Hreq).
  split; [exact Hn|].
  assert (Hf : finished (fst (get four_timeouts request_of_str base_scraper 5
                                 (inl example_request) (initial_world false))) = true)
    by (vm_compute; reflexivity).
  rewrite Hn, Hf in Hcount. injection Hcount as <-. reflexivity.
Defined.

(** *** A local file that cannot be opened *)

(** For the method [open], when [open] raises for the path (no such file,
    a directory, no permission), [get] raises that exception: nothing is
    opened, no permit is taken, nothing is sent and nothing is retried; the
    decorator reports an [Exception] once. *)
Theorem get_open_error_propagates (env : environment)
    (Request_of_str : string -> Request) (self : Scraper) (fuel : nat) (req : Request)
    (w : world) (e : exn) :
  String.eqb (method req) "open" = true ->
  files env (path req) = inl e ->
  let r := get env Request_of_str self fuel (inl req) w in
  fst r = Raised e /\
  w_trace (snd r) =
    w_trace w ++ (if issubclass (exn_class e) Exception_
                  then [EvWarning ("get" ++ ": " ++ exn_message e)] else []) /\
  w_requests (snd r) = w_requests w.
Proof.
  intros Hm Hf. cbn zeta. unfold get, get_undecorated, get_open. rewrite Hm, Hf.
  unfold log. destruct (issubclass (exn_class e) Exception_).
  - repeat split.
  - cbn [fst snd]. rewrite app_nil_r. repeat split.
Qed.

(** A directory where a file is expected. *)
Definition tmp_is_a_directory : environment :=
  mk_environment
    (fun p => if String.eqb p "/tmp" then inl (mk_exn IsADirectoryError None "Is a directory")
              else no_files p)
    (fun _ => Responds 200 "OK" None (inr ok_body) 1)
    (fun _ => inr None) (fun _ => (1 # 2)%Q).

Lemma get_open_error_propagates_witness :
  let r := get tmp_is_a_directory request_of_str base_scraper 5
             (inl (mk_Request "/tmp" "open" None [])) (initial_world false) in
  fst r = Raised (mk_exn IsADirectoryError None "Is a directory") /\
  w_trace (snd r) = [] ++ [EvWarning "get: Is a directory"] /\
  w_requests (snd r) = 0%nat.
Proof.
  exact (@get_open_error_propagates tmp_is_a_directory request_of_str base_scraper 5
           (mk_Request "/tmp" "open" None []) (initial_world false)
           (mk_exn IsADirectoryError None "Is a directory") eq_refl eq_refl).
Defined.

End EngineFacts.

(* --------------------------------------------------------------------- *)
(** ** The scrapers: retries, pagination and index entries *)

Module SourcesFacts.
Import Engine EngineSpec Sources Scheduler SourcesSpec.
Local Open Scope Q_scope.

(** *** What [get] of the Federal Register returns *)

(** A response that [Scraper.get] returns came from the network and does
    not have a status to retry on. *)
Lemma get_returned_status (env : environment) (Request_of_str : string -> Request)
    (self : Scraper) (fuel : nat) (req : Request + string) (w : world) (resp : Response) :
  fst (Engine.get env Request_of_str self fuel req w) = Returned resp ->
  exists status, resp_status resp = Some status /\
                 existsb (Z.eqb status) (retry_statuses self) = false.
Proof.
  unfold Engine.get. rewrite (proj1 (log_spec "get" _)). unfold get_undecorated.
  set (r := match req with inl r => r | inr s => Request_of_str s end).
  destruct (String.eqb (method r) "open").
  - unfold get_open. destruct (files env (path r)); discriminate.
  - rewrite get_loop_retry_loop.
    destruct (get_loop_run env self fuel r 0%Z 0 w) as (evs & _ & _ & _ & _ & _ & Hfin).
    rewrite <- get_loop_retry_loop in *. intros Hret. rewrite Hret in Hfin.
    destruct Hfin as [Hres _].
    destruct (exchange_result self r _) as [e|resp'] eqn:E; [discriminate|].
    injection Hres as ->. exact (@exchange_result_status _ _ _ _ E).
Qed.

Section FederalRegisterGet.
Variable env : environment.
Variable Request_of_str : string -> Request.
Variable self : FederalRegisterOfLegislation.

Definition presentable (resp : Response) : Prop :=
  contains "The service is unavailable." resp = false /\
  exists status, resp_status resp = Some status /\
                 existsb (Z.eqb status) (retry_statuses (frl_scraper self)) = false.

Lemma frl_handle_returned (again : Z -> Q -> world -> outcome Response * world)
    (attempt : Z) (elapsed : Q) (r : outcome Response * world) (resp : Response) :
  (forall a e w0, fst (again a e w0) = Returned resp -> presentable resp) ->
  (fst r = Returned resp ->
   exists status, resp_status resp = Some status /\
                  existsb (Z.eqb status) (retry_statuses (frl_scraper self)) = false) ->
  fst (frl_handle env self again attempt elapsed r) = Returned resp -> presentable resp.
Proof.
  intros Hagain Hr. unfold frl_handle.
  assert (Herr : forall e w1,
    fst (if isinstance e [ParseError]
         then if Qgt_bool elapsed (stop_after_waiting (frl_scraper self))
              then (Raised e, w1)
              else let attempt0 := (attempt + 1)%Z in
                   let (wait, w0) := backoff env (frl_scraper self) attempt0 w1 in
                   let w2 := sleep wait w0 in
                   again attempt0 (elapsed + wait) w2
         else (Raised e, w1)) = Returned resp -> presentable resp).
  { intros e w1. destruct (isinstance e [ParseError]); [|discriminate].
    destruct (Qgt_bool elapsed (stop_after_waiting (frl_scraper self))); [discriminate|].
    cbn zeta. rewrite BackoffSpec.backoff_draws. apply Hagain. }
  destruct r as [[content|e|] w1]; cbn [fst] in Hr.
  - destruct (contains _ content) eqn:E; [apply Herr|].
    cbn [fst]. intros H. injection H as <-. split; [exact E | apply Hr; reflexivity].
  - apply Herr.
  - discriminate.
Qed.

Lemma frl_get_loop_returned (fuel : nat) (req : Request + string) (resp : Response) :
  forall (attempt : Z) (elapsed : Q) (w : world),
    fst (frl_get_loop env Request_of_str self fuel req attempt elapsed w) = Returned resp ->
    presentable resp.
Proof.
  induction fuel as [|fuel IH]; intros attempt elapsed w; [discriminate|].
  cbn [frl_get_loop]. apply frl_handle_returned; [exact IH|].
  apply get_returned_status.
Qed.

End FederalRegisterGet.

(** [get] of the Federal Register never hands back a page that says the
    service is unavailable, nor a response with one of the statuses to retry
    on, which its constructor sets to 429, 502 and 400. *)
Theorem frl_get_returns_presentable (env : environment)
    (Request_of_str : string -> Request) (self : FederalRegisterOfLegislation)
    (fuel : nat) (req : Request + string) (w : world) (resp : Response) :
  fst (frl_get env Request_of_str self fuel req w) = Returned resp ->
  contains "The service is unavailable." resp = false /\
  (exists status, resp_status resp = Some status /\
                  existsb (Z.eqb status) (retry_statuses (frl_scraper self)) = false) /\
  (forall semaphore session,
     retry_statuses (frl_scraper (FederalRegisterOfLegislation_init semaphore session))
       = [429; 502; 400]%Z).
Proof.
  unfold frl_get. rewrite (proj1 (log_spec "get" _)). intros H.
  destruct (@frl_get_loop_returned env Request_of_str self fuel req resp 0%Z 0 w H) as [H1 H2].
  split; [exact H1|]. split; [exact H2 | reflexivity].
Qed.

(** A server that is overloaded at first: a page that says so, then a 502,
    then the page asked for. *)
Definition serves_after_outage : environment :=
  mk_environment no_files
    (fun n =>
       match n with
       | O => Responds 200 "OK" (Some "text/html"%string)
                (inr (list_byte_of_string "<p>The service is unavailable.</p>")) 1
       | S O => Responds 502 "Bad Gateway" None (inr []) 1
       | _ => Responds 200 "OK" (Some "text/html"%string) (inr ok_body) 1
       end)
    (fun _ => inr None) (fun _ => 1 # 2).

Lemma frl_get_returns_presentable_witness :
  contains "The service is unavailable."
    (mk_Response ok_body None (Some "text/html"%string) (Some 200%Z)) = false /\
  length (requests_of
            (w_trace (snd (frl_get serves_after_outage request_of_str federal_register 5
                             (inl example_request) (initial_world false))))) = 3%nat.
Proof.
  split; [|vm_compute; reflexivity].
  refine (proj1 (@frl_get_returns_presentable serves_after_outage request_of_str
                   federal_register 5 (inl example_request) (initial_world false) _ _)).
  vm_compute. reflexivity.
Defined.

(** *** The pages of the Federal Register's index *)

Lemma In_range (n page : Z) : In page (range n) <-> (0 <= page < n)%Z.
Proof.
  unfold range. rewrite in_map_iff. split.
  - intros (i & <- & Hi). apply in_seq in Hi. lia.
  - intros H. exists (Z.to_nat page). split; [lia|]. apply in_seq. lia.
Qed.

(** The ceiling of the exact quotient. *)
Definition ceil_div (a b : Z) : Z := (- ((- a) / b))%Z.

Lemma ceil_div_spec (a b : Z) :
  (0 < b)%Z -> (b * (ceil_div a b - 1) < a <= b * ceil_div a b)%Z.
Proof.
  intros Hb. unfold ceil_div.
  pose proof (Z.div_mod (- a) b ltac:(lia)) as Hdm.
  pose proof (Z.mod_pos_bound (- a) b Hb) as Hr.
  nia.
Qed.

Section TrueDivision.
Local Open Scope Z_scope.

Lemma round_half_even_bounds (n d : Z) :
  0 < d ->
  let m := round_half_even n d in
  n / d <= m <= n / d + 1 /\
  (m = n / d -> 2 * (n mod d) <= d) /\
  (m = n / d + 1 -> d <= 2 * (n mod d)).
Proof.
  intros Hd. unfold round_half_even. cbn zeta.
  destruct (Z.ltb_spec (2 * (n mod d)) d); [lia|].
  destruct (Z.ltb_spec d (2 * (n mod d))); [lia|].
  destruct (Z.even (n / d)); lia.
Qed.

(** Rounding to [T]-ths keeps the ceiling, when [d < 2 * T]. *)
Lemma ceil_round (n d T : Z) :
  0 < d -> 0 < T -> d < 2 * T -> 0 <= n ->
  - ((- round_half_even (n * T) d) / T) = - ((- n) / d).
Proof.
  intros Hd HT HdT Hn.
  destruct (@round_half_even_bounds (n * T) d Hd) as (Hb & Hlo & Hhi).
  set (m := round_half_even (n * T) d) in *.
  set (C := - ((- n) / d)).
  assert (HC : d * (C - 1) < n <= d * C).
  { unfold C. pose proof (Z.div_mod (- n) d ltac:(lia)).
    pose proof (Z.mod_pos_bound (- n) d Hd). nia. }
  pose proof (Z.div_mod (n * T) d ltac:(lia)) as Hdm.
  pose proof (Z.mod_pos_bound (n * T) d Hd) as Hr.
  assert (Hm : (C - 1) * T < m <= C * T).
  { split.
    - (* above (C - 1) * T *)
      assert (Hq : (C - 1) * T <= n * T / d)
        by (apply Z.div_le_lower_bound; nia).
      destruct (Z.eq_dec (n * T / d) ((C - 1) * T)) as [E|E]; [|lia].
      assert (T <= (n * T) mod d) by nia.
      destruct (Z.eq_dec m (n * T / d)) as [Em|Em]; [specialize (Hlo Em); lia | lia].
    - (* at most C * T *)
      assert (Hq : n * T / d <= C * T).
      { apply Z.div_le_upper_bound; nia. }
      destruct (Z.eq_dec (n * T / d) (C * T)) as [E|E]; [|lia].
      assert ((n * T) mod d = 0) by nia.
      destruct (Z.eq_dec m (n * T / d + 1)) as [Em|Em]; [specialize (Hhi Em); lia | lia]. }
  pose proof (Z.div_mod (- m) T ltac:(lia)) as Hdm'.
  pose proof (Z.mod_pos_bound (- m) T HT) as Hr'.
  nia.
Qed.

Lemma quotient_reaches_floor (n d : Z) :
  0 < n -> 0 < d ->
  let e := Z.log2 n - Z.log2 d in
  let k := if quotient_reaches n d e then e else e - 1 in
  if 0 <=? k then d * 2 ^ k <= n else d <= n * 2 ^ (- k).
Proof.
  intros Hn Hd. cbn zeta.
  pose proof (Z.log2_spec n Hn) as [Hn1 Hn2]. pose proof (Z.log2_spec d Hd) as [Hd1 Hd2].
  pose proof (Z.log2_nonneg n) as Hla. pose proof (Z.log2_nonneg d) as Hlb.
  set (la := Z.log2 n) in *. set (lb := Z.log2 d) in *.
  unfold quotient_reaches.
  destruct (Z.leb_spec 0 (la - lb)) as [He|He].
  - destruct (Z.leb_spec (d * 2 ^ (la - lb)) n) as [Hr|Hr].
    + destruct (Z.leb_spec 0 (la - lb)); [exact Hr | lia].
    + destruct (Z.leb_spec 0 (la - lb - 1)) as [Hk|Hk].
      * (* d * 2^(e-1) < 2^(lb+1) * 2^(la-lb-1) = 2^la <= n *)
        assert (E : 2 ^ la = 2 ^ (lb + 1) * 2 ^ (la - lb - 1))
          by (rewrite <- Z.pow_add_r by lia; f_equal; lia).
        pose proof (Z.pow_pos_nonneg 2 (la - lb - 1) ltac:(lia) Hk).
        replace (Z.succ lb) with (lb + 1) in Hd2 by lia.
        set (X := 2 ^ (lb + 1)) in *. set (P := 2 ^ (la - lb - 1)) in *.
        set (Y := 2 ^ la) in *. clearbody X P Y.
        assert (d * P <= (X - 1) * P) by (apply Z.mul_le_mono_nonneg_r; lia). lia.
      * (* e = 0 *)
        replace (- (la - lb - 1)) with 1 by lia. change (2 ^ 1) with 2.
        assert (Heq : lb = la) by lia. rewrite Heq in Hd2.
        rewrite Z.pow_succ_r in Hd2 by lia. lia.
  - destruct (Z.leb_spec d (n * 2 ^ (- (la - lb)))) as [Hr|Hr].
    + destruct (Z.leb_spec 0 (la - lb)); [lia | exact Hr].
    + destruct (Z.leb_spec 0 (la - lb - 1)); [lia|].
      assert (E : 2 ^ (lb + 1) = 2 ^ la * 2 ^ (- (la - lb - 1)))
        by (rewrite <- Z.pow_add_r by lia; f_equal; lia).
      pose proof (Z.pow_pos_nonneg 2 (- (la - lb - 1)) ltac:(lia) ltac:(lia)).
      replace (Z.succ lb) with (lb + 1) in Hd2 by lia.
      set (X := 2 ^ (lb + 1)) in *. set (P := 2 ^ (- (la - lb - 1))) in *.
      set (Y := 2 ^ la) in *. clearbody X P Y.
      assert (Y * P <= n * P) by (apply Z.mul_le_mono_nonneg_r; lia). lia.
Qed.

(** For positive integers below [2^53] the last place of the quotient has
    a negative exponent, unless the divisor is 1; the divisor is less than
    two units of the last place. *)
Lemma nearest_double_small (n d : Z) :
  0 < n < 2 ^ 53 -> 0 < d < 2 ^ 53 ->
  exists k, -54 <= k <= 52 /\
    nearest_double n d =
      (if 0 <=? k - 52 then round_half_even n (d * 2 ^ (k - 52))
       else round_half_even (n * 2 ^ (- (k - 52))) d, k - 52) /\
    (k = 52 -> d = 1) /\ d < 2 ^ (53 - k).
Proof.
  intros [Hn Hn53] [Hd Hd53].
  pose proof (@quotient_reaches_floor n d Hn Hd) as Hk. cbn zeta in Hk.
  unfold nearest_double. cbn zeta.
  pose proof (Z.log2_spec n Hn) as [Hn1 Hn2]. pose proof (Z.log2_spec d Hd) as [Hd1 Hd2].
  pose proof (Z.log2_nonneg n) as Hla. pose proof (Z.log2_nonneg d) as Hlb.
  assert (Hla' : Z.log2 n < 53) by (apply Z.log2_lt_pow2; lia).
  assert (Hlb' : Z.log2 d < 53) by (apply Z.log2_lt_pow2; lia).
  set (la := Z.log2 n) in *. set (lb := Z.log2 d) in *.
  set (k := if quotient_reaches n d (la - lb) then la - lb else la - lb - 1) in *.
  assert (Hkr : -54 <= k <= 52) by (unfold k; destruct (quotient_reaches _ _ _); lia).
  exists k. split; [exact Hkr|].
  replace (Z.max (k - 52) (-1074)) with (k - 52) by lia.
  split; [reflexivity|]. split.
  - intros Hk52. unfold k in *. destruct (quotient_reaches n d (la - lb)); [|lia].
    assert (lb = 0) by lia. replace (Z.succ lb) with 1 in Hd2 by lia.
    change (2 ^ 1) with 2 in Hd2. lia.
  - destruct (Z.leb_spec 0 k) as [Hk0|Hk0].
    + assert (E : 2 ^ 53 = 2 ^ k * 2 ^ (53 - k))
        by (rewrite <- Z.pow_add_r by lia; f_equal; lia).
      pose proof (Z.pow_pos_nonneg 2 k ltac:(lia) Hk0) as Hp.
      set (X := 2 ^ k) in *. set (Y := 2 ^ (53 - k)) in *. clearbody X Y.
      destruct (Z.lt_ge_cases d Y) as [?|Hge]; [assumption|].
      assert (X * Y <= X * d) by (apply Z.mul_le_mono_nonneg_l; lia). lia.
    + assert (E : 2 ^ (53 - k) = 2 ^ 53 * 2 ^ (- k))
        by (rewrite <- Z.pow_add_r by lia; f_equal; lia).
      pose proof (Z.pow_pos_nonneg 2 (- k) ltac:(lia) ltac:(lia)) as Hp.
      set (X := 2 ^ (- k)) in *. clearbody X.
      assert (n * X < 2 ^ 53 * X) by (apply Z.mul_lt_mono_pos_r; lia). lia.
Qed.

Lemma round_half_even_unit (n : Z) : round_half_even n 1 = n.
Proof. unfold round_half_even. rewrite Z.mod_1_r, Z.div_1_r. reflexivity. Qed.

(** For integers below [2^53], rounding the quotient to a double does not
    change its ceiling, and the double is a finite one. *)
Lemma nearest_double_ceil (n d : Z) :
  0 < n < 2 ^ 53 -> 0 < d < 2 ^ 53 ->
  ceil_double (nearest_double n d) = - ((- n) / d) /\
  (let (m, s) := nearest_double n d in (0 <=? s) && (2 ^ 1024 <=? m * 2 ^ s)) = false.
Proof.
  intros Hn Hd.
  destruct (@nearest_double_small n d Hn Hd) as (k & Hkr & -> & Hone & HdT).
  unfold ceil_double.
  destruct (Z.leb_spec 0 (k - 52)) as [Hs|Hs].
  - assert (k = 52) by lia. rewrite (Hone ltac:(assumption)).
    replace (k - 52) with 0 by lia. change (2 ^ 0) with 1. change (1 * 1) with 1.
    rewrite round_half_even_unit, Z.div_1_r. split; [lia|].
    cbn [andb]. apply Z.leb_gt. rewrite Z.mul_1_r.
    apply Z.lt_trans with (2 ^ 53); [lia | reflexivity].
  - split; [|reflexivity].
    replace (- (k - 52)) with (52 - k) by lia.
    apply ceil_round; [lia | apply Z.pow_pos_nonneg; lia | | lia].
    replace (2 * 2 ^ (52 - k)) with (2 ^ (53 - k))
      by (replace (53 - k) with (Z.succ (52 - k)) by lia; rewrite Z.pow_succ_r by lia; lia).
    exact HdT.
Qed.

(** [ceil(a / b)] of the code is the ceiling of the exact quotient for
    integers below [2^53]. *)
Lemma ceil_true_divide (a b : Z) :
  0 <= a < 2 ^ 53 -> 0 < b < 2 ^ 53 ->
  exists x, true_divide a b = inr x /\ ceil_double x = ceil_div a b.
Proof.
  intros Ha Hb. unfold true_divide.
  destruct (Z.eqb_spec b 0) as [?|_]; [lia|].
  destruct (Z.eqb_spec a 0) as [->|Hne].
  - exists (0, 0). split; [reflexivity|]. unfold ceil_div.
    change (- 0) with 0. rewrite Z.div_0_l by lia. reflexivity.
  - rewrite (Z.abs_eq a), (Z.abs_eq b) by lia.
    destruct (@nearest_double_ceil a b ltac:(lia) Hb) as [Hceil Hfin].
    destruct (nearest_double a b) as [m s]. rewrite Hfin.
    rewrite (Z.sgn_pos a), (Z.sgn_pos b) by lia.
    exists (m, s). split; [f_equal; f_equal; lia | exact Hceil].
Qed.

End TrueDivision.

(** The index requests cover the search results: when the first page
    reports [total] results, [get_index_reqs] returns the requests for the
    pages of [docs_per_serp] results each, skipping [docs_per_serp * page],
    and no other; every result falls on exactly one page, and no page is
    asked for that lies wholly beyond the last result (so none at all when
    there is no result).  This is for counts and page sizes below [2^53]:
    beyond, the rounding of the division decides how many pages there
    are. *)
Theorem frl_index_pages_cover (env : environment) (Request_of_str : string -> Request)
    (self : FederalRegisterOfLegislation) (odata_count : Response -> exn + Z)
    (first_serp_url : string) (serp_url : Z -> Z -> string) (fuel : nat) (w w1 : world)
    (first_page : Response) (total : Z) :
  (0 < docs_per_serp self < 2 ^ 53)%Z -> (0 <= total < 2 ^ 53)%Z ->
  frl_get env Request_of_str self fuel (inr first_serp_url)
    (emit (EvEnter (frl_semaphore self)) w) = (Returned first_page, w1) ->
  odata_count first_page = inr total ->
  let size := docs_per_serp self in
  let pages := range (ceil_div total size) in
  (exists reqs,
     fst (frl_get_index_reqs env Request_of_str self odata_count first_serp_url serp_url
            fuel w) = Returned reqs /\
     forall req, In req reqs <->
       exists page, In page pages /\ req = Request_of_str (serp_url size (size * page)%Z)) /\
  (forall i, (0 <= i < total)%Z ->
     exists page, In page pages /\ (size * page <= i < size * page + size)%Z /\
       forall page', In page' pages -> (size * page' <= i < size * page' + size)%Z ->
                     page' = page) /\
  (forall page, In page pages -> (0 <= size * page < total)%Z).
Proof.
  intros Hsize53 Htotal Hget Hcount. cbn zeta.
  assert (Hsize : (0 < docs_per_serp self)%Z) by lia.
  split; [|split].
  - destruct (@ceil_true_divide total (docs_per_serp self) Htotal Hsize53)
      as (x & Hdiv & Hceil).
    eexists. split.
    + unfold frl_get_index_reqs. rewrite log_fst, with_gate_fst, Hget, Hcount, Hdiv.
      cbn [fst]. rewrite Hceil. reflexivity.
    + intros req. rewrite in_map_iff. split.
      * intros (page & <- & Hp). exists page. split; [exact Hp | reflexivity].
      * intros (page & Hp & ->). exists page. split; [reflexivity | exact Hp].
  - intros i Hi. pose proof (ceil_div_spec total Hsize) as Hc.
    pose proof (Z.div_mod i (docs_per_serp self) ltac:(lia)) as Hdm.
    pose proof (Z.mod_pos_bound i (docs_per_serp self) Hsize) as Hr.
    exists (i / docs_per_serp self)%Z. split; [apply In_range; nia|]. split; [lia|].
    intros page' _ Hp. nia.
  - intros page Hp. apply In_range in Hp. pose proof (ceil_div_spec total Hsize) as Hc. nia.
Qed.

(** The first page of the search reports 250 results. *)
Lemma frl_index_pages_cover_witness :
  exists reqs,
    fst (frl_get_index_reqs four_timeouts request_of_str federal_register
           (fun _ => inr 250%Z) "search"
           (fun _ skip => NilZero.string_of_int (Z.to_int skip))
           6 (initial_world false)) = Returned reqs /\
    forall req, In req reqs <->
      exists page, In page (range 3) /\
                   req = request_of_str (NilZero.string_of_int (Z.to_int (100 * page))).
Proof.
  refine (proj1 (@frl_index_pages_cover four_timeouts request_of_str federal_register
                   (fun _ => inr 250%Z) "search"
                   (fun _ skip => NilZero.string_of_int (Z.to_int skip))
                   6 (initial_world false) _ _ 250 _ _ _ _)).
  - split; reflexivity.
  - split; [discriminate | reflexivity].
  - vm_compute. reflexivity.
  - reflexivity.
Defined.

(** *** The entries of the Federal Register's index *)

Lemma lookup_In (V : Type) (key : string) (d : list (string * V)) (v : V) :
  lookup key d = inr v -> In (key, v) d.
Proof.
  induction d as [|[k x] d IH]; simpl; [discriminate|].
  destruct (String.eqb k key) eqn:E.
  - intros H. injection H as ->. apply String.eqb_eq in E. subst k. left. reflexivity.
  - intros H. right. apply IH, H.
Qed.

Lemma lookup_error (V : Type) (key : string) (d : list (string * V)) (e : exn) :
  lookup key d = inl e -> exn_class e = KeyError /\ ~ In key (map fst d).
Proof.
  induction d as [|[k x] d IH]; simpl.
  - intros H. injection H as <-. split; [reflexivity | tauto].
  - destruct (String.eqb k key) eqn:E; [discriminate|].
    intros H. destruct (IH H) as [Hc Hn]. split; [exact Hc|].
    apply String.eqb_neq in E. tauto.
Qed.

Lemma comprehension_Forall2 (A B : Type) (f : A -> exn + B) (l : list A) (ys : list B) :
  comprehension f l = inr ys -> Forall2 (fun x y => f x = inr y) l ys.
Proof.
  revert ys. induction l as [|x l IH]; intros ys; simpl.
  - intros H. injection H as <-. constructor.
  - destruct (f x) as [e|y] eqn:E; [discriminate|].
    destruct (comprehension f l) as [e|ys'] eqn:El; [discriminate|].
    intros H. injection H as <-. constructor; [exact E | apply IH; reflexivity].
Qed.

Lemma comprehension_error (A B : Type) (f : A -> exn + B) (l : list A) (x : A) (e : exn) :
  In x l -> f x = inl e -> exists x' e', In x' l /\ f x' = inl e' /\ comprehension f l = inl e'.
Proof.
  induction l as [|y l IH]; intros Hin Hx; [contradiction|]. simpl.
  destruct (f y) as [e'|b] eqn:E.
  - exists y, e'. split; [left; reflexivity|]. split; [exact E | reflexivity].
  - destruct Hin as [->|Hin]; [congruence|].
    destruct (IH Hin Hx) as (x' & e' & Hin' & Hf & Hc).
    exists x', e'. split; [right; exact Hin'|]. split; [exact Hf|]. rewrite Hc. reflexivity.
Qed.

(** What the entries of an index of the Federal Register look like. *)
Definition frl_entry_ok (entry : Entry) : Prop :=
  entry_source entry = "federal_register_of_legislation"%string /\
  ((jurisdiction entry = "commonwealth"%string /\
    (entry_type entry = Some "primary_legislation"%string \/
     entry_type entry = Some "secondary_legislation"%string)) \/
   (jurisdiction entry = "norfolk_island"%string /\ entry_type entry = None)) /\
  exists d, date entry = Some d /\ (String.length d <= 10)%nat.

Lemma length_substring (s : string) :
  forall start len : nat, (String.length (String.substring start len s) <= len)%nat.
Proof.
  induction s as [|c s IH]; intros [|start] [|len]; simpl; try lia.
  - specialize (IH 0%nat len). lia.
  - apply IH.
  - apply IH.
Qed.

Lemma Forall2_In_l (A B : Type) (R : A -> B -> Prop) (l : list A) (l' : list B) (x : A) :
  Forall2 R l l' -> In x l -> exists y, In y l' /\ R x y.
Proof.
  induction 1 as [|a b l l' Hab _ IH]; intros Hin; [contradiction|].
  destruct Hin as [->|Hin].
  - exists b. split; [left; reflexivity | exact Hab].
  - destruct (IH Hin) as (y & Hy & Hxy). exists y. split; [right; exact Hy | exact Hxy].
Qed.

Lemma Forall2_In_r (A B : Type) (R : A -> B -> Prop) (l : list A) (l' : list B) (y : B) :
  Forall2 R l l' -> In y l' -> exists x, In x l /\ R x y.
Proof.
  induction 1 as [|a b l l' Hab _ IH]; intros Hin; [contradiction|].
  destruct Hin as [->|Hin].
  - exists a. split; [left; reflexivity | exact Hab].
  - destruct (IH Hin) as (x & Hx & Hxy). exists x. split; [right; exact Hx | exact Hxy].
Qed.

(** The entry that [get_index] makes of a result. *)
Definition frl_entry_of (Request_of_str : string -> Request) (item : frl_item)
    (entry : Entry) : Prop :=
  entry_request entry
    = Request_of_str ("https://www.legislation.gov.au/" ++ item_id item)%string /\
  version_id entry = item_register_id item /\ title entry = item_name item.

(** [get_index] of the Federal Register, on a page with results: when the
    collection of some result is not one the scraper knows, the call raises
    [KeyError] and returns no entry at all; otherwise the set it returns
    holds an entry for each result and nothing else, and every entry carries
    the source name, a date of at most ten characters, and either the
    Commonwealth with a document type or Norfolk Island without one. *)
Theorem frl_get_index_entries (env : environment) (Request_of_str : string -> Request)
    (semaphore : option gate) (session : option nat)
    (json_value : Response -> exn + list frl_item) (fuel : nat) (req : Request)
    (w w1 : world) (resp : Response) (value : list frl_item) :
  let self := FederalRegisterOfLegislation_init semaphore session in
  frl_get env Request_of_str self fuel (inl req) (emit (EvEnter (frl_semaphore self)) w)
    = (Returned resp, w1) ->
  json_value resp = inr value -> value <> [] ->
  let r := fst (frl_get_index env Request_of_str self json_value fuel req w) in
  ((exists item, In item value /\ ~ In (item_collection item) (map fst (collections self))) ->
   exists e, r = Raised e /\ exn_class e = KeyError) /\
  (Forall (fun item => In (item_collection item) (map fst (collections self))) value ->
   exists entries, r = Returned entries /\
     (forall item, In item value ->
        exists entry, In entry entries /\ frl_entry_of Request_of_str item entry) /\
     (forall entry, In entry entries ->
        frl_entry_ok entry /\
        exists item, In item value /\ frl_entry_of Request_of_str item entry)).
Proof.
  cbn zeta. intros Hget Hjson Hne.
  set (self := FederalRegisterOfLegislation_init semaphore session) in *.
  assert (Hr : fst (frl_get_index env Request_of_str self json_value fuel req w)
               = of_result (comprehension (frl_entry Request_of_str self) value)).
  { unfold frl_get_index. rewrite log_fst, with_gate_fst, Hget, Hjson.
    destruct value; [congruence | reflexivity]. }
  rewrite Hr. clear Hr Hget Hjson Hne. split.
  - intros (item & Hin & Hunknown).
    assert (Hitem : exists e, frl_entry Request_of_str self item = inl e).
    { unfold frl_entry. destruct (lookup (item_collection item) (collections self))
        as [e|[t j]] eqn:E; [eexists; reflexivity|].
      exfalso. apply Hunknown. apply lookup_In in E.
      apply (in_map fst) in E. exact E. }
    destruct Hitem as (e & He).
    destruct (@comprehension_error _ _ _ _ _ _ Hin He) as (x' & e' & _ & Hf & Hc).
    rewrite Hc. exists e'. split; [reflexivity|].
    unfold frl_entry in Hf.
    destruct (lookup (item_collection x') (collections self)) as [e2|[t j]] eqn:E;
      [|discriminate].
    injection Hf as <-. exact (proj1 (@lookup_error _ _ _ _ E)).
  - intros Hknown.
    destruct (comprehension (frl_entry Request_of_str self) value) as [e|entries] eqn:E.
    + exfalso. clear - E Hknown. induction Hknown as [|item value Hitem _ IH]; [discriminate|].
      simpl in E. unfold frl_entry at 1 in E.
      destruct (lookup (item_collection item) (collections self)) as [e2|[t j]] eqn:El.
      * apply lookup_error in El. tauto.
      * destruct (comprehension (frl_entry Request_of_str self) value); [auto | discriminate].
    + exists entries. split; [reflexivity|].
      apply comprehension_Forall2 in E. clear Hknown.
      assert (H : Forall2 (frl_entry_of Request_of_str) value entries /\
                  Forall frl_entry_ok entries).
      { induction E as [|item entry value entries Hitem _ IH]; [split; constructor|].
        destruct IH as [IH1 IH2]. unfold frl_entry in Hitem.
        destruct (lookup (item_collection item) (collections self)) as [e2|[t j]] eqn:El;
          [discriminate|].
        injection Hitem as <-. split; constructor; try assumption.
        * repeat split.
        * apply lookup_In in El. split; [reflexivity|]. split.
          -- simpl in El.
             repeat (destruct El as [El|El];
                     [injection El as _ <- <-; simpl; auto|]); contradiction.
          -- eexists. split; [reflexivity | apply length_substring]. }
      destruct H as [Hall Hok]. split.
      * intros item Hin. exact (@Forall2_In_l _ _ _ _ _ _ Hall Hin).
      * intros entry Hin. split.
        -- rewrite Forall_forall in Hok. exact (Hok entry Hin).
        -- exact (@Forall2_In_r _ _ _ _ _ _ Hall Hin).
Qed.

Definition act_item : frl_item :=
  mk_frl_item "C2004A00001" "An Act" "Act" "C2004A00001" "2004-01-01T00:00:00".

Lemma frl_get_index_entries_witness :
  exists entries,
    fst (frl_get_index four_timeouts request_of_str federal_register
           (fun _ => inr [act_item]) 6 example_request (initial_world false))
      = Returned entries /\
    forall entry, In entry entries -> frl_entry_ok entry.
Proof.
  destruct (@frl_get_index_entries four_timeouts request_of_str (Some (Semaphore 1)) None
              (fun _ => inr [act_item]) 6 example_request (initial_world false)
              (snd (frl_get four_timeouts request_of_str federal_register 6
                      (inl example_request)
                      (emit (EvEnter (Semaphore 1)) (initial_world false))))
              (mk_Response ok_body None None (Some 200%Z)) [act_item]) as [_ H].
  - vm_compute. reflexivity.
  - reflexivity.
  - discriminate.
  - destruct H as (entries & Hr & _ & Hok).
    + constructor; [simpl; auto | constructor].
    + exists entries. split; [exact Hr|]. intros entry Hin. exact (proj1 (Hok entry Hin)).
Defined.

(** *** One permit for one operation *)

Definition is_warning (ev : event) : Prop := exists m, ev = EvWarning m.

(** One stay in the gate [g]: the trace starts by acquiring it, touches no
    semaphore after that, and, when the operation is [done], releases it,
    after which only warnings follow. *)
Definition one_scope (g : gate) (done : bool) (evs : list event) : Prop :=
  exists inner wevs,
    Forall no_permit inner /\ Forall is_warning wevs /\
    evs = EvEnter g :: inner ++ (if done then EvExit g :: wevs else []).

Definition runs_in_one_scope (A : Type) (g : gate) (w : world) (r : outcome A * world)
  : Prop :=
  exists evs, w_trace (snd r) = w_trace w ++ evs /\ one_scope g (finished (fst r)) evs.

Lemma with_gate_one_scope (A : Type) (g : gate) (func : string)
    (body : world -> outcome A * world) (w : world) :
  (forall w0, grows w0 (snd (body w0))) ->
  runs_in_one_scope g w (log func (with_gate g body w)).
Proof.
  intros Hbody. unfold runs_in_one_scope, with_gate.
  destruct (Hbody (emit (EvEnter g) w)) as (inner & Hin & Pin).
  destruct (body (emit (EvEnter g) w)) as [[a|e|] w1]; cbn [fst snd] in Hin.
  - exists (EvEnter g :: inner ++ [EvExit g]). split.
    + simpl. rewrite Hin. simpl. rewrite <- !app_assoc. reflexivity.
    + exists inner, []. repeat split; [exact Pin | constructor].
  - destruct (@log_spec A func (Raised e, emit (EvExit g) w1))
      as (Hfst & wevs & Htr & _ & _ & Hw & _).
    rewrite Hfst, Htr. exists (EvEnter g :: inner ++ EvExit g :: wevs). split.
    + simpl. rewrite Hin. simpl. rewrite <- !app_assoc. reflexivity.
    + exists inner, wevs. repeat split; assumption.
  - exists (EvEnter g :: inner ++ []). split.
    + simpl. rewrite Hin. simpl. rewrite <- !app_assoc, app_nil_r. reflexivity.
    + exists inner, []. repeat split; [exact Pin | constructor].
Qed.

(** The operations that the Federal Register and the High Court scrapers
    wrap in the semaphore they took hold one permit from their first effect
    to their last, through every request, retry and wait between retries,
    and give it back when they return or raise; until then they touch no
    semaphore again.  Of the document retrievals of the Federal Register
    this is said of those in which no gather has left a call running. *)
Theorem gated_operations_hold_one_permit (env : environment)
    (Request_of_str : string -> Request) (frl : FederalRegisterOfLegislation)
    (hca : HighCourtOfAustralia) (fuel : nat) (w : world) :
  semaphore (frl_scraper frl) = Nullcontext ->
  semaphore (hca_scraper hca) = Nullcontext ->
  (forall odata_count first_serp_url serp_url,
     runs_in_one_scope (frl_semaphore frl) w
       (frl_get_index_reqs env Request_of_str frl odata_count first_serp_url serp_url
          fuel w)) /\
  (forall json_value req,
     runs_in_one_scope (frl_semaphore frl) w
       (frl_get_index env Request_of_str frl json_value fuel req w)) /\
  (forall is_norfolk_act part_urls html_texts has_downloads part_links docx_texts
          pdf_texts make_doc entry,
     w_left_running
       (snd (frl_get_doc_gated env Request_of_str frl is_norfolk_act part_urls html_texts
               has_downloads part_links docx_texts pdf_texts make_doc fuel entry w)) = [] ->
     runs_in_one_scope (frl_semaphore frl) w
       (frl_get_doc env Request_of_str frl is_norfolk_act part_urls html_texts
          has_downloads part_links docx_texts pdf_texts make_doc fuel entry w)) /\
  (forall find_date last_download convert make_doc entry,
     runs_in_one_scope (hca_semaphore hca) w
       (hca_get_doc env Request_of_str hca find_date last_download convert make_doc
          fuel entry w)).
Proof.
  intros Hfrl Hhca. split; [|split; [|split]].
  - intros odata first serp. apply with_gate_one_scope. intros w0.
    pose proof (@grows_frl_get env Request_of_str frl Hfrl fuel (inr first) w0) as H.
    destruct (frl_get env Request_of_str frl fuel (inr first) w0) as [[page|e|] w1];
      try exact H.
    destruct (odata page) as [?|total]; [exact H|].
    destruct (true_divide total (docs_per_serp frl)); exact H.
  - intros json_value req. apply with_gate_one_scope. intros w0.
    pose proof (@grows_frl_get env Request_of_str frl Hfrl fuel (inl req) w0) as H.
    destruct (frl_get env Request_of_str frl fuel (inl req) w0) as [[page|e|] w1];
      try exact H.
    destruct (json_value page) as [e|value]; [exact H|].
    destruct (Nat.eqb (length value) 0); exact H.
  - intros is_norfolk_act part_urls html_texts has_downloads part_links docx_texts
           pdf_texts make_doc entry Hleft.
    assert (Hg : runs_in_one_scope (frl_semaphore frl) w
                   (frl_get_doc_gated env Request_of_str frl is_norfolk_act part_urls
                      html_texts has_downloads part_links docx_texts pdf_texts make_doc
                      fuel entry w)).
    { apply with_gate_one_scope. intros w0. apply grows_frl_get_doc_body. exact Hfrl. }
    unfold frl_get_doc.
    destruct (frl_get_doc_gated env Request_of_str frl is_norfolk_act part_urls html_texts
                has_downloads part_links docx_texts pdf_texts make_doc fuel entry w)
      as [r w1].
    destruct Hg as (evs & Htr & Hone). exists evs. cbn [fst snd] in *.
    rewrite (@resume_nothing env Request_of_str frl fuel w1 Hleft).
    split; [exact Htr | exact Hone].
  - intros find_date last_download convert make_doc entry.
    apply with_gate_one_scope. intros w0.
    pose proof (@grows_get env Request_of_str (hca_scraper hca) Hhca fuel
                  (inl (entry_request entry)) w0) as H1.
    destruct (Engine.get env Request_of_str (hca_scraper hca) fuel
                (inl (entry_request entry)) w0) as [[resp|e|] w1]; try exact H1.
    simpl in H1. cbn zeta. destruct (last_download resp) as [[slug type]|].
    + pose proof (@grows_get env Request_of_str (hca_scraper hca) Hhca fuel
                    (inr ("https://eresources.hcourt.gov.au" ++ slug)%string) w1) as H2.
      destruct (Engine.get env Request_of_str (hca_scraper hca) fuel _ w1)
        as [[resp2|e|] w2]; try (eapply grows_trans; [exact H1 | exact H2]).
      simpl in H2. assert (H12 : grows w0 w2) by (eapply grows_trans; eauto).
      destruct (is_missing resp2);
        [eapply grows_trans; [exact H12 | apply grows_emit; exact I]|].
      destruct (convert type resp2) as [e|[text mime]]; exact H12.
    + destruct (convert "HTML"%string resp) as [e|[text mime]]; exact H1.
Qed.

Lemma gated_operations_hold_one_permit_witness :
  runs_in_one_scope (Semaphore 1) (initial_world false)
    (frl_get_doc serves_header_only request_of_str federal_register
       (fun _ => false) two_parts (fun resps => inr (map (fun _ => "text"%string) resps))
       (fun _ => false) (fun _ _ => []) (fun _ => inr []) (fun _ => inr [])
       (fun entry type mime url text => mk_Document (version_id entry) url mime text)
       5 example_entry (initial_world false)).
Proof.
  destruct (@gated_operations_hold_one_permit serves_header_only request_of_str
              federal_register high_court 5 (initial_world false) eq_refl eq_refl)
    as (_ & _ & H & _).
  apply H. vm_compute. reflexivity.
Defined.

End SourcesFacts.

(* --------------------------------------------------------------------- *)
(** ** The scrapers: index requests and index rows *)

Module IndexingFacts.
Import Engine EngineSpec Sources SourcesSpec Indexing EngineFacts.

(** *** Western Australia: the index requests and their document types *)

(** For every index request that [get_index_reqs] makes, [get_index]
    takes the documents of the page for primary legislation exactly when the
    request was made for the Acts: the test ['acts' in req.path] is not
    misled by the rest of the address. *)
Theorem wal_index_types (env : environment) (Request_of_str : string -> Request)
    (self : Scraper) (text : Response -> Helpers.str)
    (_get_entry : Helpers.str -> string -> world -> outcome Entry * world)
    (fuel : nat) (w : world) (kind letter : string) :
  (forall s, path (Request_of_str s) = s) ->
  In kind ["acts"; "subs"]%string -> In letter ascii_lowercase ->
  let req := Request_of_str (wal_index_url kind letter) in
  (forall w0, exists reqs,
     fst (wal_get_index_reqs Request_of_str w0) = Returned reqs /\ In req reqs) /\
  wal_get_index env Request_of_str self text _get_entry fuel req w =
  log "get_index"
    match Engine.get env Request_of_str self fuel (inl req) w with
    | (Returned resp, w) =>
        wal_entries _get_entry (tl (findall_tr (text resp)))
          (if String.eqb kind "acts" then "primary_legislation" else "secondary_legislation")
          w
    | (Raised e, w) => (Raised e, w)
    | (Running, w) => (Running, w)
    end.
Proof.
  intros Hpath Hkind Hletter. cbn zeta. split.
  - intros w0. eexists. split; [reflexivity|].
    apply in_flat_map. exists kind. split; [exact Hkind|].
    apply in_map_iff. exists letter. split; [reflexivity | exact Hletter].
  - unfold wal_get_index. rewrite Hpath.
    assert (Htest : string_in "acts" (wal_index_url kind letter) = String.eqb kind "acts").
    { simpl in Hkind, Hletter.
      destruct Hkind as [<-|[<-|[]]];
        repeat (destruct Hletter as [<-|Hletter]; [vm_compute; reflexivity|]);
        contradiction. }
    rewrite Htest. destruct (String.eqb kind "acts"); reflexivity.
Qed.

Lemma wal_index_types_witness :
  string_in "acts" (path (request_of_str (wal_index_url "subs" "t"))) = false /\
  forall w0, exists reqs,
    fst (wal_get_index_reqs request_of_str w0) = Returned reqs /\
    In (request_of_str (wal_index_url "subs" "t")) reqs.
Proof.
  split; [reflexivity|].
  refine (proj1 (@wal_index_types four_timeouts request_of_str base_scraper
                   (fun _ => []) (fun _ _ w => (Running, w)) 5 (initial_world false)
                   "subs" "t" (fun s => eq_refl) _ _)).
  - right. left. reflexivity.
  - do 19 right. left. reflexivity.
Defined.

(** *** Western Australia: the rows of an index page *)

Section Rows.
Local Open Scope N_scope.

Lemma strip_prefix_sound (p s rest : Helpers.str) :
  strip_prefix p s = Some rest -> s = p ++ rest.
Proof.
  revert s. induction p as [|c p IH]; intros s; simpl.
  - intros H. injection H as <-. reflexivity.
  - destruct s as [|x s]; [discriminate|]. destruct (x =? c) eqn:E; [|discriminate].
    apply N.eqb_eq in E. subst x. intros H. rewrite (IH _ H). reflexivity.
Qed.

Lemma strip_prefix_app (p rest : Helpers.str) : strip_prefix p (p ++ rest) = Some rest.
Proof. induction p as [|c p IH]; simpl; [reflexivity|]. rewrite N.eqb_refl. exact IH. Qed.

(** The text holds the closing tag nowhere. *)
Definition tag_free (row : Helpers.str) : Prop :=
  forall a b : Helpers.str, row <> a ++ TR_CLOSE ++ b.

Lemma until_close_spec (s : Helpers.str) :
  forall group rest,
    until_close s = Some (group, rest) ->
    s = group ++ TR_CLOSE ++ rest /\ tag_free group.
Proof.
  induction s as [|x s IH]; intros group rest.
  - simpl. discriminate.
  - cbn [until_close].
    destruct (strip_prefix TR_CLOSE (x :: s)) as [rest'|] eqn:E.
    + intros H. injection H as <- <-. apply strip_prefix_sound in E. split; [exact E|].
      intros [|y a] b; discriminate.
    + destruct (until_close s) as [[g r]|] eqn:Eu; [|discriminate].
      intros H. injection H as <- <-. destruct (IH g r eq_refl) as [Hs Hfree]. split.
      * rewrite Hs. reflexivity.
      * intros [|y a] b Heq.
        -- rewrite Hs in E. change (x :: g ++ TR_CLOSE ++ r) with ((x :: g) ++ TR_CLOSE ++ r) in E.
           rewrite Heq in E. rewrite app_nil_l, <- app_assoc in E.
           rewrite strip_prefix_app in E. discriminate.
        -- injection Heq as _ Heq. exact (Hfree a b Heq).
Qed.

Lemma findall_tr_from_rows (text : Helpers.str) (fuel : nat) :
  forall pre s, text = pre ++ s ->
    Forall (fun row => (exists before after,
                          text = before ++ TR_OPEN ++ row ++ TR_CLOSE ++ after) /\
                       tag_free row)
           (findall_tr_from fuel s).
Proof.
  induction fuel as [|fuel IH]; intros pre s Htext; [constructor|].
  cbn [findall_tr_from]. destruct s as [|x s']; [constructor|].
  assert (Hnext : text = (pre ++ [x]) ++ s') by (rewrite <- app_assoc; exact Htext).
  destruct (strip_prefix TR_OPEN (x :: s')) as [body|] eqn:E; [|exact (IH _ _ Hnext)].
  destruct (until_close body) as [[group rest]|] eqn:Eu; [|exact (IH _ _ Hnext)].
  apply strip_prefix_sound in E. destruct (until_close_spec _ Eu) as [Hbody Hfree].
  constructor.
  - split; [|exact Hfree]. exists pre, rest. rewrite Htext, E, Hbody. reflexivity.
  - apply (IH (pre ++ TR_OPEN ++ group ++ TR_CLOSE) rest).
    rewrite Htext, E, Hbody, <- !app_assoc. reflexivity.
Qed.

End Rows.

(** Every row that [get_index] cuts out of a page stood in the page between
    a [<tr>] and a [</tr>], and holds no [</tr>] itself: a row never runs
    over the end of its table row. *)
Theorem findall_tr_rows (text : Helpers.str) :
  Forall (fun row => (exists before after,
                        text = before ++ TR_OPEN ++ row ++ TR_CLOSE ++ after) /\
                     tag_free row)
         (findall_tr text).
Proof. apply findall_tr_from_rows with (pre := []). reflexivity. Qed.

(** *** Western Australia: rows that carry their date *)

Lemma log_requests (A : Type) (func : string) (r : outcome A * world) :
  w_requests (snd (log func r)) = w_requests (snd r).
Proof.
  destruct r as [[a|e|] w]; simpl; try reflexivity.
  destruct (issubclass (exn_class e) Exception_); reflexivity.
Qed.

Section DatedRows.
Variable env : environment.
Variable Request_of_str : string -> Request.
Variable self : Scraper.
Variable text : Response -> Helpers.str.
Variable entry_link : Helpers.str -> option (string * string).
Variable docx_link : Helpers.str -> option string.
Variable row_date : Helpers.str -> option string.
Variable publication_date : Helpers.str -> option string.
Variable current_date : Helpers.str -> option string.
Variable reformat_date : string -> exn + string.
Variable fuel : nat.

Let get_entry :=
  wal_get_entry env Request_of_str self text entry_link docx_link row_date
    publication_date current_date reformat_date fuel.

Lemma wal_get_entry_dated (row : Helpers.str) (type : string) (w : world) :
  row_date row <> None ->
  w_requests (snd (get_entry row type w)) = w_requests w /\
  finished (fst (get_entry row type w)) = true.
Proof.
  intros Hdate. unfold get_entry, wal_get_entry.
  rewrite log_requests, finished_log.
  destruct (entry_link row) as [[doc_id title]|]; [|split; reflexivity].
  destruct (docx_link row) as [version_id|]; [|split; reflexivity].
  cbn zeta. destruct (row_date row) as [date|]; [|congruence].
  destruct (reformat_date date); split; reflexivity.
Qed.

Lemma wal_entries_dated (type : string) (rows : list Helpers.str) :
  Forall (fun row => row_date row <> None) rows ->
  forall w,
    w_requests (snd (wal_entries get_entry rows type w)) = w_requests w /\
    finished (fst (wal_entries get_entry rows type w)) = true.
Proof.
  induction 1 as [|row rows Hrow _ IH]; intros w; [split; reflexivity|].
  cbn [wal_entries]. destruct (@wal_get_entry_dated row type w Hrow) as [Hreq Hfin].
  destruct (get_entry row type w) as [[entry|e|] w1]; cbn [fst snd] in *;
    [|split; [exact Hreq | reflexivity] | discriminate].
  destruct (IH w1) as [Hreq' Hfin']. rewrite <- Hreq.
  destruct (wal_entries get_entry rows type w1) as [[entries|e|] w2]; cbn [fst snd] in *;
    [split; [exact Hreq' | reflexivity] | split; [exact Hreq' | reflexivity] | discriminate].
Qed.

End DatedRows.

(** When every row of an index page carries its date, [get_index] makes no
    request beyond those that fetched the page, and runs to its end: the
    status page of a document is fetched for a row without a date only. *)
Theorem wal_dated_rows_need_no_request (env : environment)
    (Request_of_str : string -> Request) (self : Scraper) (text : Response -> Helpers.str)
    (entry_link : Helpers.str -> option (string * string))
    (docx_link row_date publication_date current_date : Helpers.str -> option string)
    (reformat_date : string -> exn + string) (fuel : nat) (req : Request) (w w1 : world)
    (resp : Response) :
  Engine.get env Request_of_str self fuel (inl req) w = (Returned resp, w1) ->
  Forall (fun row => row_date row <> None) (tl (findall_tr (text resp))) ->
  let r := wal_get_index env Request_of_str self text
             (wal_get_entry env Request_of_str self text entry_link docx_link row_date
                publication_date current_date reformat_date fuel)
             fuel req w in
  w_requests (snd r) = w_requests w1 /\ finished (fst r) = true.
Proof.
  intros Hget Hrows. cbn zeta. unfold wal_get_index.
  rewrite log_requests, finished_log, Hget.
  apply wal_entries_dated. exact Hrows.
Qed.

(** A page with two dated rows under its header. *)
Definition dated_page : bytes :=
  list_byte_of_string
    "<table><tr><th>Title</th></tr><tr><td>1 Jan 2004</td></tr><tr><td>2 Feb 2005</td></tr></table>".

Definition serves_dated_page : environment :=
  mk_environment no_files
    (fun _ => Responds 200 "OK" (Some "text/html"%string) (inr dated_page) 1%Q)
    (fun _ => inr None) (fun _ => (1 # 2)%Q).

Lemma wal_dated_rows_need_no_request_witness :
  length (tl (findall_tr (ascii_text (mk_Response dated_page None None None)))) = 2%nat /\
  w_requests
    (snd (wal_get_index serves_dated_page request_of_str base_scraper ascii_text
            (wal_get_entry serves_dated_page request_of_str base_scraper ascii_text
               (fun _ => Some ("doc", "Title")%string) (fun _ => Some "version"%string)
               (fun _ => Some "1 Jan 2004"%string) (fun _ => None) (fun _ => None)
               (fun _ => inr "2004-01-01"%string) 5)
            5 wal_index_request (initial_world false))) = 1%nat.
Proof.
  split; [vm_compute; reflexivity|].
  refine (proj1 (@wal_dated_rows_need_no_request serves_dated_page request_of_str
                   base_scraper ascii_text (fun _ => Some ("doc", "Title")%string)
                   (fun _ => Some "version"%string) (fun _ => Some "1 Jan 2004"%string)
                   (fun _ => None) (fun _ => None) (fun _ => inr "2004-01-01"%string)
                   5 wal_index_request (initial_world false)
                   (snd (Engine.get serves_dated_page request_of_str base_scraper 5
                           (inl wal_index_request) (initial_world false)))
                   (mk_Response dated_page None (Some "text/html"%string) (Some 200%Z)) _ _)).
  - vm_compute. reflexivity.
  - vm_compute. repeat constructor; discriminate.
Defined.

(** *** The High Court: the pages of the index *)

Section HighCourtPages.
Variable env : environment.
Variable Request_of_str : string -> Request.
Variable self : HighCourtOfAustralia.
Variable year : string.
Variable text : Response -> Helpers.str.
Variable last_item : Helpers.str -> option Z.

(** A request for page [page >= 1] of the search [base]. *)
Definition is_page_of (base : string) (req : Request) : Prop :=
  exists page, (1 <= page)%Z /\
               req = Request_of_str (base ++ "&page=" ++ decimal page)%string.

Lemma In_page_numbers (pages page : Z) :
  In page (page_numbers pages) <-> (1 <= page <= pages)%Z.
Proof.
  unfold page_numbers. rewrite in_map_iff. split.
  - intros (i & <- & Hi). apply SourcesFacts.In_range in Hi. lia.
  - intros H. exists (page - 1)%Z. split; [lia|]. apply SourcesFacts.In_range. lia.
Qed.

Lemma hca_base_serp_finish_pages (fuel : nat) (base : string) (st : started) (w : world)
    (reqs : pyset Request) :
  fst (hca_base_serp_finish env Request_of_str self text last_item fuel base st w)
    = Returned reqs ->
  Forall (is_page_of base) reqs.
Proof.
  unfold hca_base_serp_finish. rewrite log_fst.
  destruct (get_finish env (hca_scraper self) fuel st w) as [[resp|e|] w1];
    try discriminate.
  destruct (last_item (text resp)) as [pages|]; [|discriminate].
  intros H. injection H as <-. apply Forall_forall. intros req Hin.
  apply in_map_iff in Hin as (page & <- & Hpage). apply In_page_numbers in Hpage.
  exists page. split; [lia | reflexivity].
Qed.

Lemma hca_begin_all_serps (serps : list string) :
  forall w, map fst (fst (hca_begin_all env Request_of_str self serps w)) = serps.
Proof.
  induction serps as [|serp serps IH]; intros w; [reflexivity|]. cbn [hca_begin_all].
  destruct (hca_base_serp_begin env Request_of_str self serp w) as [st w1].
  specialize (IH w1). destruct (hca_begin_all env Request_of_str self serps w1) as [sts w2].
  simpl in *. rewrite IH. reflexivity.
Qed.

Lemma hca_finish_all_pages (fuel : nat) (sts : list (string * started)) :
  forall w index_reqs,
    fst (hca_finish_all env Request_of_str self text last_item fuel sts w)
      = Returned index_reqs ->
    Forall (fun req => exists base, In base (map fst sts) /\ is_page_of base req)
           (concat index_reqs).
Proof.
  induction sts as [|[serp st] sts IH]; intros w index_reqs; cbn [hca_finish_all].
  - intros H. injection H as <-. constructor.
  - pose proof (@hca_base_serp_finish_pages fuel serp st w) as Hone.
    destruct (hca_base_serp_finish env Request_of_str self text last_item fuel serp st w)
      as [[reqs|e|] w1]; try discriminate.
    specialize (Hone reqs eq_refl). specialize (IH w1).
    destruct (hca_finish_all env Request_of_str self text last_item fuel sts w1)
      as [[rest|e|] w2]; try discriminate.
    intros H. injection H as <-. cbn [concat]. apply Forall_app. split.
    + eapply Forall_impl; [|exact Hone]. intros req Hreq. exists serp. split; [left; reflexivity | exact Hreq].
    + eapply Forall_impl; [|exact (IH rest eq_refl)].
      intros req (base & Hin & Hreq). exists base. split; [right; exact Hin | exact Hreq].
Qed.

End HighCourtPages.

(** Every index request that [get_index_reqs] of the High Court returns
    asks for a page numbered 1 or more of one of the four base searches of
    the year: page 0 is never asked for, and nothing outside these
    searches. *)
Theorem hca_index_requests_are_pages (env : environment)
    (Request_of_str : string -> Request) (self : HighCourtOfAustralia) (year : string)
    (text : Response -> Helpers.str) (last_item : Helpers.str -> option Z) (fuel : nat)
    (w : world) (reqs : pyset Request) :
  fst (hca_get_index_reqs env Request_of_str self year text last_item fuel w)
    = Returned reqs ->
  length (base_serps year) = 4%nat /\
  Forall (fun req => exists base, In base (base_serps year) /\
                                  is_page_of Request_of_str base req) reqs.
Proof.
  unfold hca_get_index_reqs.
  destruct (log "get_index_reqs" _) as [r w0] eqn:E. cbn [fst]. intros Hr. subst r.
  apply (f_equal fst) in E. rewrite log_fst in E. cbn [fst] in E. revert E.
  intros H. split; [reflexivity|].
  pose proof (hca_begin_all_serps env Request_of_str self (base_serps year) w) as Hs.
  destruct (hca_begin_all env Request_of_str self (base_serps year) w) as [sts w1].
  cbn [fst] in Hs.
  pose proof (@hca_finish_all_pages env Request_of_str self text last_item fuel sts w1) as Hp.
  destruct (hca_finish_all env Request_of_str self text last_item fuel sts w1)
    as [[index_reqs|e|] w2]; try discriminate.
  injection H as <-. rewrite <- Hs. apply Hp. reflexivity.
Qed.

Lemma hca_index_requests_are_pages_witness :
  exists reqs,
    fst (hca_get_index_reqs serves_dated_page request_of_str high_court "2024" ascii_text
           (fun _ => Some 2%Z) 5 (initial_world false)) = Returned reqs /\
    length reqs = 8%nat /\
    Forall (fun req => exists base, In base (base_serps "2024") /\
                                    is_page_of request_of_str base req) reqs.
Proof.
  eexists. split; [vm_compute; reflexivity|]. split; [reflexivity|].
  refine (proj2 (@hca_index_requests_are_pages serves_dated_page request_of_str high_court
                   "2024" ascii_text (fun _ => Some 2%Z) 5 (initial_world false) _ _)).
  vm_compute. reflexivity.
Defined.

End IndexingFacts.
